(** * resolve-local-dependencies: a shallow embedding and its properties

    The development follows the layout of the repository:
    - [Paths]   : the fragment of Node's POSIX [path] module used by the code
                  ([path.join], [path.resolve], [path.basename]);
    - [Js]      : JSON values, object spread and [Object.entries];
    - [Fs]      : a file system with directories, regular files and symbolic
                  links, and the [fs] calls the code makes;
    - [Lib]     : lib/index.js ([copyRecursiveSync], [installDependencies],
                  [unlinkLocalDependencies]) and utils/log.js ([log]);
    - [Cli]     : bin/cli.js.
    Side effects are threaded explicitly: every computation takes the current
    file system and returns an outcome (a value or a thrown error), the new
    file system and the list of observable events it performed. *)

From Stdlib Require Import ZArith Ascii String.
From stdpp Require Import base option list strings gmap fin_maps pretty.

#[local] Set Warnings "-register-all".
Local Open Scope string_scope.
Local Open Scope list_scope.

(** ** Paths *)

Module Paths.

(** An absolute POSIX path is the list of its components below the root.  A
    final empty component stands for a trailing slash, which [path.join]
    preserves and which the operating system reads as "must be a directory". *)
Abbreviation path := (list string).

(** [s.split('/')] *)
Fixpoint segments (s : string) : list string :=
  match s with
  | EmptyString => [EmptyString]
  | String c rest =>
      if Ascii.eqb c "/"%char then EmptyString :: segments rest
      else match segments rest with
           | [] => [String c EmptyString]
           | seg :: more => String c seg :: more
           end
  end.

(** Node's [normalizeString] for an absolute path: empty and [.] segments are
    dropped, [..] removes the last kept segment (and is dropped at the root). *)
Fixpoint normalizeString (acc : path) (segs : list string) : path :=
  match segs with
  | [] => acc
  | s :: rest =>
      if decide (s = "" ∨ s = ".") then normalizeString acc rest
      else if decide (s = "..") then normalizeString (removelast acc) rest
      else normalizeString (acc ++ [s]) rest
  end.

Fixpoint ends_with_slash (s : string) : bool :=
  match s with
  | EmptyString => false
  | String c EmptyString => Ascii.eqb c "/"%char
  | String _ rest => ends_with_slash rest
  end.

Definition has_trailing (p : path) : bool :=
  match last p with Some "" => true | _ => false end.

(** [path.join(base, s)] for an absolute [base]: empty arguments are skipped,
    the rest is joined with a slash and normalized; a trailing slash of the
    joined string survives unless the result is the root. *)
Definition join (base : path) (s : string) : path :=
  let comps := normalizeString [] (base ++ segments s) in
  let trailing := if decide (s = "") then has_trailing base else ends_with_slash s in
  if trailing && negb (bool_decide (comps = [])) then comps ++ [""] else comps.

Definition is_absolute (s : string) : bool :=
  match s with String c _ => Ascii.eqb c "/"%char | EmptyString => false end.

(** [path.resolve(base, s)] for an absolute [base]: an absolute [s] replaces
    [base]; the result is normalized and carries no trailing slash. *)
Definition resolve (base : path) (s : string) : path :=
  normalizeString [] ((if is_absolute s then [] else base) ++ segments s).

(** [path.basename(p)]: the last component, trailing slashes ignored. *)
Definition basename (p : path) : string :=
  default "" (last (filter (λ c, c ≠ "") p)).

(** The string Node holds for a path; used in log messages only. *)
Definition render (p : path) : string :=
  match p with
  | [] => "/"
  | _ => String.concat "" (map (λ c, "/" +:+ c) (filter (λ c, c ≠ "") p))
         +:+ (if has_trailing p then "/" else "")
  end.

(** A component that can name a directory entry. *)
Definition plain (c : string) : Prop :=
  c ≠ "" ∧ c ≠ "." ∧ c ≠ ".." ∧ segments c = [c].

#[global] Instance plain_dec c : Decision (plain c).
Proof. unfold plain. apply _. Defined.

#[global] Arguments join : simpl never.
#[global] Arguments resolve : simpl never.
#[global] Arguments basename : simpl never.
#[global] Arguments render : simpl never.

End Paths.
Export Paths.

(** ** JavaScript values read from the manifest *)

Module Js.

(** A parsed JSON document.  [JObj] lists the members in the order of the
    text; [props] below resolves repeated names the way [JSON.parse] does. *)
Inductive json :=
  | JNull
  | JBool (b : bool)
  | JNum (n : Z)
  | JStr (s : string)
  | JArr (items : list json)
  | JObj (members : list (string * json)).

(** The own enumerable string-keyed properties of an ordinary object, in
    creation order. *)
Abbreviation jsobj := (list (string * json)).

Fixpoint obj_get (k : string) (o : jsobj) : option json :=
  match o with
  | [] => None
  | (k', v) :: rest => if decide (k' = k) then Some v else obj_get k rest
  end.

(** [o[k] = v]: an existing property keeps its position, a new one is added
    last. *)
Fixpoint obj_set (k : string) (v : json) (o : jsobj) : jsobj :=
  match o with
  | [] => [(k, v)]
  | (k', v') :: rest =>
      if decide (k' = k) then (k, v) :: rest else (k', v') :: obj_set k v rest
  end.

Definition assign (target : jsobj) (src : list (string * json)) : jsobj :=
  fold_left (λ acc kv, obj_set kv.1 kv.2 acc) src target.

(** The object [JSON.parse] builds from a member list. *)
Definition props (members : list (string * json)) : jsobj := assign [] members.

Fixpoint digits_value (acc : N) (s : string) : option N :=
  match s with
  | EmptyString => Some acc
  | String c rest =>
      let n := N_of_ascii c in
      if (48 <=? n)%N && (n <=? 57)%N
      then digits_value (acc * 10 + (n - 48))%N rest
      else None
  end.

(** A property name that is an array index: the canonical decimal numeral of
    an integer below 2^32 - 1.  Such names are enumerated first, ascending. *)
Definition array_index (s : string) : option N :=
  match s with
  | EmptyString => None
  | String c rest =>
      if Ascii.eqb c "0"%char && negb (bool_decide (rest = EmptyString)) then None
      else match digits_value 0 s with
           | Some n => if (n <? 4294967295)%N then Some n else None
           | None => None
           end
  end.

Fixpoint insert_index (n : N) (kv : string * json)
    (l : list (N * (string * json))) : list (N * (string * json)) :=
  match l with
  | [] => [(n, kv)]
  | (m, kv') :: rest =>
      if (n <=? m)%N then (n, kv) :: l else (m, kv') :: insert_index n kv rest
  end.

Definition index_props (o : jsobj) : list (N * (string * json)) :=
  omap (λ kv, (λ n, (n, kv)) <$> array_index kv.1) o.

Definition sort_index (l : list (N * (string * json))) : list (N * (string * json)) :=
  foldr (λ x acc, insert_index x.1 x.2 acc) [] l.

(** [OrdinaryOwnPropertyKeys]: the order in which spread and
    [Object.entries] visit the properties of an object. *)
Definition own_order (o : jsobj) : list (string * json) :=
  (snd <$> sort_index (index_props o))
  ++ filter (λ kv, array_index kv.1 = None) o.

Definition string_units (s : string) : list json :=
  (λ c, JStr (String c EmptyString)) <$> list_ascii_of_string s.

(** The own enumerable properties of a value, as object spread copies them. *)
Definition own_entries (v : json) : list (string * json) :=
  match v with
  | JObj ms => own_order (props ms)
  | JArr items => imap (λ i x, (pretty i, x)) items
  | JStr s => imap (λ i x, (pretty i, x)) (string_units s)
  | JNull | JBool _ | JNum _ => []
  end.

Definition Object_entries (o : jsobj) : list (string * json) := own_order o.

Definition truthy (v : json) : bool :=
  match v with
  | JNull => false
  | JBool b => b
  | JNum n => negb (n =? 0)%Z
  | JStr s => negb (bool_decide (s = EmptyString))
  | JArr _ | JObj _ => true
  end.

(** [v || {}] where [v] may be [undefined]. *)
Definition or_empty (v : option json) : json :=
  match v with
  | Some x => if truthy x then x else JObj []
  | None => JObj []
  end.

(** [{ ...a, ...b, ...c, ...d }] *)
Definition spread4 (a b c d : json) : jsobj :=
  assign (assign (assign (assign [] (own_entries a)) (own_entries b))
            (own_entries c)) (own_entries d).

(** [typeof v === 'string' && v.startsWith('file:')] *)
Definition is_file_spec (v : json) : bool :=
  match v with
  | JStr s => String.prefix "file:" s
  | _ => false
  end.

(** [version.replace(/^file:/, '')] on a string that passed [is_file_spec]. *)
Definition strip_file (s : string) : string :=
  if String.prefix "file:" s then String.substring 5 (String.length s - 5) s else s.

End Js.
Export Js.

(** ** The file system *)

Module Fs.

Inductive inode :=
  | File (data : string)
  | Dir
  | Symlink (target : path).

#[global] Instance inode_eq_dec : EqDecision inode.
Proof. solve_decision. Defined.

(** The file system maps the location of every entry to what is stored
    there; the root directory is implicit.  Link targets are absolute. *)
Abbreviation fsmap := (gmap path inode).

Inductive errno := ENOENT | ENOTDIR | EISDIR | EEXIST | ELOOP.

Inductive attempt (A : Type) :=
  | Done (a : A)
  | Fail (e : errno).
Arguments Done {A} a.
Arguments Fail {A} e.

Definition node_at (m : fsmap) (p : path) : option inode :=
  match p with
  | [] => Some Dir
  | _ => m !! p
  end.

(** The number of symbolic links one path resolution may traverse. *)
Definition MAXSYMLINKS : nat := 40.

Definition is_nil {A} (l : list A) : bool :=
  match l with [] => true | _ => false end.

(** Path resolution.  [walk hops m follow cur todo] starts in the directory
    [cur] and consumes the components [todo]; it answers the location the
    path names, which may hold nothing when only the last component is
    missing.  A link in last position is followed only when [follow] is set. *)
Fixpoint walk (hops : nat) (m : fsmap) (follow : bool)
    : path → list string → attempt path :=
  fix go (cur : path) (todo : list string) {struct todo} : attempt path :=
    match todo with
    | [] => Done cur
    | c :: rest =>
        if decide (c = "") then go cur rest
        else
          let here := cur ++ [c] in
          match m !! here with
          | None => match rest with [] => Done here | _ => Fail ENOENT end
          | Some Dir => go here rest
          | Some (File _) => match rest with [] => Done here | _ => Fail ENOTDIR end
          | Some (Symlink t) =>
              if is_nil rest && negb follow then Done here
              else match hops with
                   | O => Fail ELOOP
                   | S hops' => walk hops' m follow [] (t ++ rest)
                   end
          end
    end.

Definition locate (m : fsmap) (follow : bool) (p : path) : attempt path :=
  walk MAXSYMLINKS m follow [] p.

Definition inspect (m : fsmap) (follow : bool) (p : path) : attempt inode :=
  match locate m follow p with
  | Done q => match node_at m q with Some n => Done n | None => Fail ENOENT end
  | Fail e => Fail e
  end.

(** [fs.statSync(p)] follows a final link, [fs.lstatSync(p)] does not. *)
Definition statSync (m : fsmap) (p : path) : attempt inode := inspect m true p.
Definition lstatSync (m : fsmap) (p : path) : attempt inode := inspect m false p.

Definition isDirectory (n : inode) : bool :=
  match n with Dir => true | _ => false end.
Definition isSymbolicLink (n : inode) : bool :=
  match n with Symlink _ => true | _ => false end.

(** [fs.existsSync(p)]: true when [p] can be resolved to an existing entry;
    a dangling link does not exist. *)
Definition existsSync (m : fsmap) (p : path) : bool :=
  match statSync m p with Done _ => true | Fail _ => false end.

Fixpoint child_name (q k : path) : option string :=
  match q, k with
  | [], [c] => Some c
  | a :: q', b :: k' => if decide (a = b) then child_name q' k' else None
  | _, _ => None
  end.

(** [fs.readdirSync(p)] *)
Definition readdirSync (m : fsmap) (p : path) : attempt (list string) :=
  match locate m true p with
  | Done q =>
      match node_at m q with
      | Some Dir => Done (omap (λ kv, child_name q kv.1) (map_to_list m))
      | Some _ => Fail ENOTDIR
      | None => Fail ENOENT
      end
  | Fail e => Fail e
  end.

(** [fs.readFileSync(p, 'utf8')] *)
Definition readFileSync (m : fsmap) (p : path) : attempt string :=
  match locate m true p with
  | Done q =>
      match node_at m q with
      | Some (File data) => Done data
      | Some _ => Fail EISDIR
      | None => Fail ENOENT
      end
  | Fail e => Fail e
  end.

(** [fs.rmSync(p, { recursive: true, force: true })]: removes the entry [p]
    names (a link itself, not its target) with everything below it; a path
    that names nothing is not an error. *)
Definition rmSync (m : fsmap) (p : path) : fsmap :=
  match locate m false p with
  | Done q => filter (λ kv, ¬ q `prefix_of` kv.1) m
  | Fail _ => m
  end.

(** [fs.mkdirSync(p, { recursive: true })]: creates the missing directories
    along [p]. *)
Fixpoint mkdirp (m : fsmap) (cur : path) (todo : list string) : attempt fsmap :=
  match todo with
  | [] => Done m
  | c :: rest =>
      if decide (c = "") then mkdirp m cur rest
      else
        let here := cur ++ [c] in
        match m !! here with
        | None => mkdirp (<[here := Dir]> m) here rest
        | Some Dir => mkdirp m here rest
        | Some (File _) => Fail (match rest with [] => EEXIST | _ => ENOTDIR end)
        | Some (Symlink t) =>
            match locate m true t with
            | Done q =>
                match node_at m q with
                | Some Dir => mkdirp m q rest
                | Some _ => Fail (match rest with [] => EEXIST | _ => ENOTDIR end)
                | None => Fail ENOENT
                end
            | Fail e => Fail e
            end
        end
  end.

Definition mkdirSync (m : fsmap) (p : path) : attempt fsmap := mkdirp m [] p.

(** [fs.copyFileSync(src, dest)]: reads the regular file [src] names and
    writes its bytes to the location [dest] names, creating or overwriting
    a regular file there. *)
Definition copyFileSync (m : fsmap) (src dest : path) : attempt fsmap :=
  match readFileSync m src with
  | Done data =>
      match locate m true dest with
      | Done q =>
          match node_at m q with
          | Some (File _) | None => Done (<[q := File data]> m)
          | Some _ => Fail EISDIR
          end
      | Fail e => Fail e
      end
  | Fail e => Fail e
  end.

#[global] Arguments locate : simpl never.
#[global] Arguments inspect : simpl never.
#[global] Arguments statSync : simpl never.
#[global] Arguments lstatSync : simpl never.
#[global] Arguments existsSync : simpl never.
#[global] Arguments readdirSync : simpl never.
#[global] Arguments readFileSync : simpl never.
#[global] Arguments rmSync : simpl never.
#[global] Arguments mkdirSync : simpl never.
#[global] Arguments copyFileSync : simpl never.

End Fs.
Export Fs.

(** ** Effects: what a run can observe and change *)

Module Effects.

Inductive stdio := Inherit | Ignore.

Record spawn_options := SpawnOptions {
  spawn_cwd : path;
  spawn_stdio : stdio;
  spawn_shell : bool
}.

(** The observable actions, in the order they happen: lines written to the
    console and the mutating calls on [fs] and [child_process]. *)
Inductive event :=
  | Console (level : string) (message : string)
  | RmCall (p : path)
  | MkdirCall (p : path)
  | CopyFileCall (src dest : path)
  | SpawnCall (cmd : string) (args : list string) (opts : spawn_options).

#[global] Instance stdio_eq_dec : EqDecision stdio.
Proof. solve_decision. Defined.
#[global] Instance spawn_options_eq_dec : EqDecision spawn_options.
Proof. solve_decision. Defined.
#[global] Instance event_eq_dec : EqDecision event.
Proof. solve_decision. Defined.

Inductive error :=
  | SystemError (code : errno) (syscall : string) (p : path)
  | SyntaxError (message : string)
  | TypeError (message : string)
  | RangeError (message : string).

Definition errno_text (e : errno) : string :=
  match e with
  | ENOENT => "ENOENT: no such file or directory"
  | ENOTDIR => "ENOTDIR: not a directory"
  | EISDIR => "EISDIR: illegal operation on a directory"
  | EEXIST => "EEXIST: file already exists"
  | ELOOP => "ELOOP: too many symbolic links encountered"
  end.

(** [error.message] *)
Definition error_message (e : error) : string :=
  match e with
  | SystemError code syscall p =>
      errno_text code +:+ ", " +:+ syscall +:+ " '" +:+ render p +:+ "'"
  | SyntaxError msg | TypeError msg | RangeError msg => msg
  end.

Inductive completion (A : Type) :=
  | Normal (a : A)
  | Throw (e : error).
Arguments Normal {A} a.
Arguments Throw {A} e.

Record result (A : Type) := Result {
  outcome : completion A;
  state : fsmap;
  trace : list event
}.
Arguments Result {A} _ _ _.
Arguments outcome {A} _.
Arguments state {A} _.
Arguments trace {A} _.

(** A computation reads the file system it starts in and answers how it
    completed, the file system it leaves and the events it performed. *)
Definition M (A : Type) : Type := fsmap → result A.

Definition ret {A} (a : A) : M A := λ m, Result (Normal a) m [].

Definition throw {A} (e : error) : M A := λ m, Result (Throw e) m [].

Definition bind {A B} (c : M A) (k : A → M B) : M B := λ m,
  let r := c m in
  match outcome r with
  | Normal a =>
      let r' := k a (state r) in
      Result (outcome r') (state r') (trace r ++ trace r')
  | Throw e => Result (Throw e) (state r) (trace r)
  end.

(** [try { c } catch (error) { handler(error) }] *)
Definition try_catch {A} (c : M A) (handler : error → M A) : M A := λ m,
  let r := c m in
  match outcome r with
  | Normal a => r
  | Throw e =>
      let r' := handler e (state r) in
      Result (outcome r') (state r') (trace r ++ trace r')
  end.

Definition emit (ev : event) : M unit := λ m, Result (Normal tt) m [ev].

Definition query {A} (f : fsmap → A) : M A := λ m, Result (Normal (f m)) m [].

Definition update (f : fsmap → fsmap) : M unit := λ m, Result (Normal tt) (f m) [].

Definition try_query {A} (syscall : string) (p : path) (f : fsmap → attempt A) : M A :=
  λ m, match f m with
       | Done a => Result (Normal a) m []
       | Fail e => Result (Throw (SystemError e syscall p)) m []
       end.

Definition try_update (syscall : string) (p : path) (f : fsmap → attempt fsmap) : M unit :=
  λ m, match f m with
       | Done m' => Result (Normal tt) m' []
       | Fail e => Result (Throw (SystemError e syscall p)) m []
       end.

Declare Scope js_scope.
Delimit Scope js_scope with js.
Notation "x <- c ;; k" := (bind c (λ x, k))
  (at level 100, c at next level, right associativity) : js_scope.
Notation "c ;; k" := (bind c (λ _, k))
  (at level 100, right associativity) : js_scope.

(** [list.forEach(f)] *)
Fixpoint forEach {A} (l : list A) (f : A → M unit) : M unit :=
  match l with
  | [] => ret tt
  | x :: rest => (f x ;; forEach rest f)%js
  end.

(** What the program takes from its environment. *)
Record host := Host {
  (** [process.cwd()] *)
  cwd : path;
  (** [JSON.parse]: the value, or the message of the [SyntaxError] *)
  JSON_parse : string → json + string;
  (** what running [npm] with the given arguments, working directory and
      stdio mode does to the file system, and its exit status ([None] when
      the process could not be started) *)
  npm : list string → path → stdio → fsmap → fsmap * option Z;
  (** [process.platform === 'win32'] *)
  win32 : bool;
  (** the number of nested calls the call stack has room for *)
  stack_room : nat
}.

End Effects.
Export Effects.

(** ** utils/log.js and lib/index.js *)

Module Lib.

Local Open Scope js_scope.

(** [log(message, level, silently)] *)
Definition log (message level : string) (silently : bool) : M unit :=
  if negb silently then emit (Console level message) else ret tt.

(** The [fs] calls as the program issues them: a mutating call is recorded
    in the trace (whether or not it then fails). *)
Definition fs_existsSync (p : path) : M bool := query (λ m, existsSync m p).
Definition fs_statSync (p : path) : M inode := try_query "stat" p (λ m, statSync m p).
Definition fs_lstatSync (p : path) : M inode := try_query "lstat" p (λ m, lstatSync m p).
Definition fs_readdirSync (p : path) : M (list string) :=
  try_query "scandir" p (λ m, readdirSync m p).
Definition fs_readFileSync (p : path) : M string :=
  try_query "open" p (λ m, readFileSync m p).
Definition fs_mkdirSync (p : path) : M unit :=
  emit (MkdirCall p) ;; try_update "mkdir" p (λ m, mkdirSync m p).
Definition fs_rmSync (p : path) : M unit :=
  emit (RmCall p) ;; update (λ m, rmSync m p).
Definition fs_copyFileSync (src dest : path) : M unit :=
  emit (CopyFileCall src dest) ;;
  try_update "copyfile" src (λ m, copyFileSync m src dest).

(** [copyRecursiveSync(src, dest)].  [room] bounds the nesting of calls; a
    call for which no room is left throws the engine's [RangeError]. *)
Fixpoint copyRecursiveSync (room : nat) (src dest : path) : M unit :=
  match room with
  | O => throw (RangeError "Maximum call stack size exceeded")
  | S room' =>
      present <- fs_existsSync dest ;;
      (if negb present then fs_mkdirSync dest else ret tt) ;;
      files <- fs_readdirSync src ;;
      forEach files (λ file,
        let srcPath := join src file in
        let destPath := join dest file in
        stat <- fs_statSync srcPath ;;
        if isDirectory stat
        then copyRecursiveSync room' srcPath destPath
        else fs_copyFileSync srcPath destPath)
  end.

(** [childProcess.spawnSync('npm', args, options)], answering
    [result.status]. *)
Definition spawnSync_npm (h : host) (args : list string) (opts : spawn_options)
    : M (option Z) := λ m,
  let '(m', status) := npm h args (spawn_cwd opts) (spawn_stdio opts) m in
  Result (Normal status) m' [SpawnCall "npm" args opts].

(** [installDependencies(dest, { dev, silent })] *)
Definition installDependencies (h : host) (dest : path) (dev silent : bool) : M unit :=
  let pkgPath := join dest "package.json" in
  hasPkg <- fs_existsSync pkgPath ;;
  if negb hasPkg then
    log ("[SKIP] No package.json in " +:+ render dest) "log" silent
  else
    let nmPath := join dest "node_modules" in
    hasNm <- fs_existsSync nmPath ;;
    if hasNm then
      log ("[SKIP] Dependencies already present for " +:+ basename dest) "log" silent
    else
      let args := ["install"; "--no-audit"; "--no-fund"]
                  ++ (if negb dev then ["--production"] else []) in
      log ("[INSTALL] Running npm " +:+ String.concat " " args +:+ " in "
           +:+ basename dest) "log" silent ;;
      status <- spawnSync_npm h args
                  (SpawnOptions dest (if silent then Ignore else Inherit) (win32 h)) ;;
      if negb (bool_decide (status = Some 0%Z)) then
        log ("[ERROR] Failed to install dependencies for " +:+ basename dest)
            "error" silent
      else ret tt.

(** [pkg[name]] for one of the four group names: reading a property of
    [null] throws, a value without that property answers [undefined]. *)
Definition getProp (pkg : json) (name : string) : M (option json) :=
  match pkg with
  | JNull => throw (TypeError ("Cannot read properties of null (reading '"
                               +:+ name +:+ "')"))
  | JObj ms => ret (obj_get name (props ms))
  | _ => ret None
  end.

(** The option object: absent properties take the defaults of the
    destructuring pattern. *)
Abbreviation options := (list (string * bool)).

Fixpoint option_get (name : string) (o : options) : option bool :=
  match o with
  | [] => None
  | (k, v) :: rest => if decide (k = name) then Some v else option_get name rest
  end.

(** The body of the [forEach] callback of [unlinkLocalDependencies]. *)
Definition unlinkOne (h : host) (silent noInstall dev : bool)
    (projectRoot nodeModulesDir : path) (entry : string * json) : M unit :=
  let '(pkgName, version) := entry in
  match version with
  | JStr version =>
      let relativePath := strip_file version in
      let src := resolve projectRoot relativePath in
      let dest := join nodeModulesDir pkgName in
      found <- fs_existsSync dest ;;
      if negb found then
        log ("[WARN] " +:+ pkgName +:+ " not found in node_modules") "warn" silent
      else
        stat <- fs_lstatSync dest ;;
        if negb (isSymbolicLink stat) then
          log ("[SKIP] " +:+ pkgName +:+ " is not a symlink") "log" silent
        else
          log ("[REPLACE] " +:+ pkgName +:+ ": replacing symlink with copy from "
               +:+ relativePath) "log" silent ;;
          fs_rmSync dest ;;
          copyRecursiveSync (stack_room h) src dest ;;
          if negb noInstall then installDependencies h dest dev silent else ret tt
  | _ => throw (TypeError "version.replace is not a function")
  end.

(** [{ ...(pkg.dependencies || {}), ...(pkg.devDependencies || {}),
       ...(pkg.peerDependencies || {}), ...(pkg.optionalDependencies || {}) }] *)
Definition mergeDeps (pkg : json) : M jsobj :=
  deps <- getProp pkg "dependencies" ;;
  devDeps <- getProp pkg "devDependencies" ;;
  peerDeps <- getProp pkg "peerDependencies" ;;
  optDeps <- getProp pkg "optionalDependencies" ;;
  ret (spread4 (or_empty deps) (or_empty devDeps) (or_empty peerDeps) (or_empty optDeps)).

(** [Object.entries(allDeps).filter(...).forEach(...)] *)
Definition unlinkEntries (h : host) (silent noInstall dev : bool)
    (projectRoot nodeModulesDir : path) (entries : list (string * json)) : M unit :=
  forEach (List.filter (λ e, is_file_spec e.2) entries)
          (unlinkOne h silent noInstall dev projectRoot nodeModulesDir).

(** [unlinkLocalDependencies({ silent = false, noInstall = false,
    dev = false } = {})] *)
Definition unlinkLocalDependencies (h : host) (o : options) : M unit :=
  let silent := default false (option_get "silent" o) in
  let noInstall := default false (option_get "noInstall" o) in
  let dev := default false (option_get "dev" o) in
  let projectRoot := cwd h in
  let nodeModulesDir := join projectRoot "node_modules" in
  let pkgJsonPath := join projectRoot "package.json" in
  text <- fs_readFileSync pkgJsonPath ;;
  pkg <- match JSON_parse h text with
         | inl v => ret v
         | inr msg => throw (SyntaxError msg)
         end ;;
  allDeps <- mergeDeps pkg ;;
  unlinkEntries h silent noInstall dev projectRoot nodeModulesDir (Object_entries allDeps).

End Lib.
Export Lib.

(** ** bin/cli.js *)

Module Cli.

Local Open Scope js_scope.

Definition usage : string :=
"Usage: resolve-local-dependencies [options]

Options:
  -h, --help         Show this help message
  --silent           Suppress non-error output
  --no-install       Skip npm install after unlinking
  --dev              Use development mode (include devDependencies)".

(** [args.includes(flag)] *)
Definition includes (args : list string) (flag : string) : bool :=
  bool_decide (flag ∈ args).

(** The script, run with [process.argv.slice(2) = args]; it answers the
    status passed to [process.exit]. *)
Definition main (h : host) (args : list string) : M Z :=
  if includes args "--help" || includes args "-h" then
    log usage "log" false ;;
    ret 0%Z
  else
    let silently := includes args "--silent" in
    let install := includes args "--no-install" in
    let dev := includes args "--dev" in
    try_catch
      (unlinkLocalDependencies h
         [("silently", silently); ("install", install); ("dev", dev)] ;;
       log "Local dependencies unlinked successfully." "log" silently ;;
       ret 0%Z)
      (λ error,
       log ("Error unlinking local dependencies: " +:+ error_message error)
           "error" silently ;;
       ret 1%Z).

End Cli.
Export Cli.

(** ** Vocabulary of the properties *)

Module Spec.

(** The events that change the file system or start a process. *)
Definition is_mutation (e : event) : bool :=
  match e with
  | Console _ _ => false
  | RmCall _ | MkdirCall _ | CopyFileCall _ _ | SpawnCall _ _ _ => true
  end.

Definition is_spawn (e : event) : bool :=
  match e with
  | SpawnCall _ _ _ => true
  | _ => false
  end.

(** A trace without removal, directory creation, copy or install. *)
Definition quiet (t : list event) : Prop := Forall (λ e, is_mutation e = false) t.

(** The store entry exists and is a symbolic link. *)
Definition symlink_gate (m : fsmap) (dest : path) : bool :=
  existsSync m dest &&
  match lstatSync m dest with
  | Done (Symlink _) => true
  | _ => false
  end.

Definition warn_message (name : string) : string :=
  "[WARN] " +:+ name +:+ " not found in node_modules".

Definition skip_message (name : string) : string :=
  "[SKIP] " +:+ name +:+ " is not a symlink".

Definition replace_message (name v : string) : string :=
  "[REPLACE] " +:+ name +:+ ": replacing symlink with copy from " +:+ strip_file v.

(** Every event of every run of [c] satisfies [P]. *)
Definition emits (P : event → Prop) {A} (c : M A) : Prop :=
  ∀ m, Forall P (trace (c m)).



(** The dependency group [g] of a manifest with members [ms]:
    [pkg[g] || {}]. *)
Definition group (ms : list (string * json)) (g : string) : json :=
  or_empty (obj_get g (props ms)).

(** The arguments and options of the install command. *)
Definition install_args (dev : bool) : list string :=
  ["install"; "--no-audit"; "--no-fund"] ++ (if dev then [] else ["--production"]).

Definition install_options (h : host) (dest : path) (silent : bool) : spawn_options :=
  SpawnOptions dest (if silent then Ignore else Inherit) (win32 h).


(** Every directory on the way to [p], and [p] itself, is a real directory. *)
Definition real_dirs (m : fsmap) (p : path) : Prop :=
  ∀ q, q `prefix_of` p → q ≠ [] → m !! q = Some Dir.

(** Neither path lies at or below the other. *)
Definition apart (src dest : path) : Prop :=
  ¬ src `prefix_of` dest ∧ ¬ dest `prefix_of` src.

(** What lies below [src] is a tree of directories and regular files with
    proper names, less than [room] levels deep. *)
Definition tree_below (m : fsmap) (src : path) (room : nat) : Prop :=
  ∀ k n, m !! k = Some n → src `prefix_of` k → k ≠ src →
    Forall plain k ∧ isSymbolicLink n = false
    ∧ m !! (removelast k) = Some Dir ∧ length k < length src + room.

(** The situation in which [copyRecursiveSync room src dest] is studied:
    [src] is such a tree, no entry exists at or below [dest], and what
    exists on the way to [dest] is a directory. *)
Definition copy_ready (m : fsmap) (src dest : path) (room : nat) : Prop :=
  Forall plain src ∧ Forall plain dest ∧ apart src dest ∧ 0 < room
  ∧ real_dirs m src ∧ tree_below m src room
  ∧ (∀ q, q `prefix_of` dest → q ≠ [] → m !! q = Some Dir ∨ m !! q = None)
  ∧ (∀ q, dest `prefix_of` q → m !! q = None).

(** The file system after the copy, entry by entry: below [dest] what was
    below [src], directories on the way to [dest], the rest as before. *)
Definition grafted (m : fsmap) (src dest q : path) : option inode :=
  if decide (dest `prefix_of` q) then m !! (src ++ drop (length dest) q)
  else if decide (q `prefix_of` dest ∧ q ≠ []) then Some Dir
  else m !! q.

(** Every file is copied into a directory created earlier in the trace (or
    listed in [made]). *)
Fixpoint dirs_first (made : list path) (t : list event) : bool :=
  match t with
  | [] => true
  | MkdirCall p :: t' => dirs_first (p :: made) t'
  | CopyFileCall _ d :: t' => bool_decide (removelast d ∈ made) && dirs_first made t'
  | _ :: t' => dirs_first made t'
  end.

Definition copy_done (m : fsmap) (src dest : path) (room : nat) : Prop :=
  ∃ m' t, copyRecursiveSync room src dest m = Result (Normal tt) m' (MkdirCall dest :: t)
          ∧ (∀ q, m' !! q = grafted m src dest q)
          ∧ (∀ made, dest ∈ made → dirs_first made t = true).
(** The state of the copy loop after the entries [seen] of [src]. *)
Definition loop_inv (m m1 : fsmap) (src dest : path) (mi : fsmap)
    (seen : list string) : Prop :=
  (∀ q, ¬ dest `prefix_of` q → mi !! q = m1 !! q)
  ∧ mi !! dest = Some Dir
  ∧ (∀ c r, c ∈ seen → mi !! (dest ++ c :: r) = m !! (src ++ c :: r))
  ∧ (∀ c r, c ∉ seen → mi !! (dest ++ c :: r) = None).

(** The non-empty prefixes of a path. *)
Definition ancestors (p : path) : list path :=
  (λ n, take n p) <$> seq 1 (length p).

(** [source_tree] and [fresh_destination] state [copy_ready] entry by entry
    of the file system, so that they can be decided on a given one. *)
Definition source_tree (m : fsmap) (src : path) (room : nat) : Prop :=
  Forall plain src ∧ 0 < room
  ∧ Forall (λ q, m !! q = Some Dir) (ancestors src)
  ∧ map_Forall (λ k n, src `prefix_of` k → k ≠ src →
        Forall plain k ∧ isSymbolicLink n = false
        ∧ m !! (removelast k) = Some Dir ∧ length k < length src + room) m.

Definition fresh_destination (m : fsmap) (dest : path) : Prop :=
  Forall plain dest
  ∧ map_Forall (λ k n, (k `prefix_of` dest → n = Dir) ∧ ¬ dest `prefix_of` k) m.

#[global] Instance apart_dec src dest : Decision (apart src dest).
Proof. unfold apart. apply _. Defined.
#[global] Instance source_tree_dec m src room : Decision (source_tree m src room).
Proof. unfold source_tree. apply _. Defined.
#[global] Instance fresh_destination_dec m dest : Decision (fresh_destination m dest).
Proof. unfold fresh_destination. apply _. Defined.

(** ** Layout of a project and of its store *)

(** Every component of every location is a proper name. *)
Definition names_ok (m : fsmap) : Prop := map_Forall (λ k _, Forall plain k) m.

(** The install command only changes what lies strictly below its working
    directory, and leaves proper names everywhere. *)
Definition npm_confined (h : host) : Prop :=
  ∀ args cwd io m,
    (∀ q, ¬ cwd `prefix_of` q ∨ q = cwd → fst (npm h args cwd io m) !! q = m !! q)
    ∧ (names_ok m → Forall plain cwd → names_ok (fst (npm h args cwd io m))).

Definition not_link (o : option inode) : Prop :=
  match o with Some (Symlink _) => False | _ => True end.

(** What a copy into the fresh location [dest] may have done: nothing
    outside [dest], no link and no improper name below it, and a directory
    at [dest] when it returned. *)
Definition copy_framed (m : fsmap) (dest : path) (r : result unit) : Prop :=
  (∀ q, ¬ dest `prefix_of` q → state r !! q = m !! q)
  ∧ (∀ k n, state r !! k = Some n → dest `prefix_of` k →
            isSymbolicLink n = false ∧ Forall plain k)
  ∧ (outcome r = Normal tt → state r !! dest = Some Dir).

Definition frame_inv (m1 : fsmap) (dest : path) (mi : fsmap)
    (seen : list string) : Prop :=
  (∀ q, ¬ dest `prefix_of` q → mi !! q = m1 !! q)
  ∧ mi !! dest = Some Dir
  ∧ (∀ k n, mi !! k = Some n → dest `prefix_of` k →
            isSymbolicLink n = false ∧ Forall plain k)
  ∧ (∀ c r, c ∉ seen → mi !! (dest ++ c :: r) = None).

(** A store entry in place: its location is a proper path inside real
    directories, and if it is a link, the link points to a directory that
    exists, through real directories, outside every store entry in [all]. *)
Definition steady (m : fsmap) (all : list path) (d : path) : Prop :=
  Forall plain d ∧ d ≠ []
  ∧ Forall (λ q, m !! q = Some Dir) (ancestors (removelast d))
  ∧ match m !! d with
    | Some (Symlink t) =>
        Forall (λ c, c ≠ "") t
        ∧ Forall (λ q, m !! q = Some Dir) (ancestors t)
        ∧ Forall (λ d', ¬ d' `prefix_of` t) all
    | _ => True
    end.

(** No two locations of the list lie at or below one another. *)
Fixpoint all_apart (l : list path) : Prop :=
  match l with
  | [] => True
  | d :: rest => Forall (apart d) rest ∧ all_apart rest
  end.

(** The store entry of a dependency. *)
Definition dest_of (nm : path) (e : string * json) : path := join nm e.1.

(** The store entries of the file-path dependencies a manifest text
    declares. *)
Definition store_entries (h : host) (text : string) : list path :=
  match JSON_parse h text with
  | inl pkg =>
      match outcome (mergeDeps pkg ∅) with
      | Normal allDeps =>
          dest_of (join (cwd h) "node_modules")
            <$> List.filter (λ e, is_file_spec e.2) (Object_entries allDeps)
      | Throw _ => []
      end
  | inr _ => []
  end.

(** A project laid out as the tool expects: the project root is a real
    directory holding the manifest [text] as a regular file; the store
    entries of its file-path dependencies are separate locations, none
    inside another, each in place; and the manifest is not inside one. *)
Definition store_layout (h : host) (m : fsmap) (text : string) : Prop :=
  Forall plain (cwd h)
  ∧ Forall (λ q, m !! q = Some Dir) (ancestors (cwd h))
  ∧ m !! (cwd h ++ ["package.json"]) = Some (File text)
  ∧ names_ok m
  ∧ all_apart (store_entries h text)
  ∧ Forall (steady m (store_entries h text)) (store_entries h text)
  ∧ Forall (λ d, ¬ d `prefix_of` cwd h ++ ["package.json"]) (store_entries h text).

#[global] Instance not_link_dec o : Decision (not_link o).
Proof. destruct o as [[| |]|]; apply _. Defined.
#[global] Instance steady_dec m all d : Decision (steady m all d).
Proof. unfold steady. destruct (m !! d) as [[| |]|]; apply _. Defined.
#[global] Instance all_apart_dec l : Decision (all_apart l).
Proof. induction l; apply _. Defined.
#[global] Instance names_ok_dec m : Decision (names_ok m).
Proof. unfold names_ok. apply _. Defined.
#[global] Instance store_layout_dec h m text : Decision (store_layout h m text).
Proof. unfold store_layout. apply _. Defined.

(** ** What a run keeps, and what it leaves behind *)

(** The option object the script passes to [unlinkLocalDependencies]. *)
Definition cli_options (args : list string) : options :=
  [("silently", includes args "--silent");
   ("install", includes args "--no-install");
   ("dev", includes args "--dev")].

(** Every run of [c] leaves a file system related by [R] to the one it
    started in. *)
Definition preserves (R : fsmap → fsmap → Prop) {A} (c : M A) : Prop :=
  ∀ m, R m (state (c m)).

(** Nothing is lost from [m] to [m']: every directory and every link is
    still there, and every regular file is still a regular file. *)
Definition kept (m m' : fsmap) : Prop :=
  ∀ q n, m !! q = Some n →
    match n with
    | File _ => ∃ data, m' !! q = Some (File data)
    | _ => m' !! q = Some n
    end.

(** Every entry lies in the root or in a directory that exists. *)
Definition well_formed (m : fsmap) : Prop :=
  map_Forall (λ k _, k ≠ [] ∧ (removelast k = [] ∨ m !! removelast k = Some Dir)) m.

(** As [kept], for the directories and the regular files only. *)
Definition real_kept (m m' : fsmap) : Prop :=
  ∀ q n, m !! q = Some n → isSymbolicLink n = false →
    match n with
    | File _ => ∃ data, m' !! q = Some (File data)
    | _ => m' !! q = Some n
    end.

(** From a well-formed file system to a well-formed one that lost no
    directory and no regular file. *)
Definition safely (m m' : fsmap) : Prop :=
  well_formed m → well_formed m' ∧ real_kept m m'.

(** The dependencies a manifest text declares with a file-path specifier,
    in the order the run visits them. *)
Definition file_deps (h : host) (text : string) : list (string * json) :=
  match JSON_parse h text with
  | inl pkg =>
      match outcome (mergeDeps pkg ∅) with
      | Normal allDeps => List.filter (λ e, is_file_spec e.2) (Object_entries allDeps)
      | Throw _ => []
      end
  | inr _ => []
  end.

(** The directory the specifier of a dependency names. *)
Definition src_of (root : path) (e : string * json) : path :=
  match e.2 with
  | JStr v => resolve root (strip_file v)
  | _ => []
  end.

(** The source of the entry [e], when the entry is a link: a tree of
    directories and regular files that lies apart from every location in
    [all]. *)
Definition source_ready (room : nat) (root nm : path) (all : list path)
    (m : fsmap) (e : string * json) : Prop :=
  match m !! dest_of nm e with
  | Some (Symlink _) =>
      source_tree m (src_of root e) room ∧ Forall (apart (src_of root e)) all
  | _ => True
  end.

Definition sources_ready (h : host) (m : fsmap) (text : string) : Prop :=
  Forall (source_ready (stack_room h) (cwd h) (join (cwd h) "node_modules")
            (store_entries h text) m)
         (file_deps h text).

(** What a run puts below the entry [e]: the source when the entry was a
    link, and what was there otherwise. *)
Definition materialised (root nm : path) (m : fsmap) (e : string * json)
    (rel : path) : option inode :=
  match m !! dest_of nm e with
  | Some (Symlink _) => m !! (src_of root e ++ rel)
  | _ => m !! (dest_of nm e ++ rel)
  end.

#[global] Instance source_ready_dec room root nm all m e :
  Decision (source_ready room root nm all m e).
Proof. unfold source_ready. destruct (m !! dest_of nm e) as [[| |]|]; apply _. Defined.
#[global] Instance sources_ready_dec h m text : Decision (sources_ready h m text).
Proof. unfold sources_ready. apply _. Defined.

(** The console methods the program may call. *)
Definition known_level (e : event) : Prop :=
  match e with
  | Console level _ => level ∈ ["log"; "warn"; "error"]
  | _ => True
  end.

End Spec.
Export Spec.

(** ** Sample hosts and file systems *)

Module Samples.

Definition dquote : string := String (ascii_of_nat 34) EmptyString.
Definition quoted (s : string) : string := dquote +:+ s +:+ dquote.

(** A [JSON.parse] that knows the documents of the samples and rejects
    every other text. *)
Fixpoint parse_table (table : list (string * json)) (text : string) : json + string :=
  match table with
  | [] => inr "Unexpected token in JSON"
  | (t, v) :: rest => if decide (t = text) then inl v else parse_table rest text
  end.

(** An [npm install] that creates the dependency store of the package it
    runs in and succeeds. *)
Definition npm_ok (args : list string) (cwd : path) (io : stdio) (m : fsmap)
    : fsmap * option Z :=
  (<[cwd ++ ["node_modules"] := Dir]> m, Some 0%Z).

(** An [npm install] that changes nothing and fails. *)
Definition npm_fails (args : list string) (cwd : path) (io : stdio) (m : fsmap)
    : fsmap * option Z :=
  (m, Some 1%Z).

Definition project_root : path := ["fake"; "project"].
Definition store : path := ["fake"; "project"; "node_modules"].

(** The end-to-end scenario: one dependency [local-pkg], installed as a
    link to [../local-package]. *)
Definition local_manifest_text : string :=
  "{" +:+ quoted "dependencies" +:+ ":{" +:+ quoted "local-pkg" +:+ ":"
  +:+ quoted "file:../local-package" +:+ "}}".

Definition local_manifest : json :=
  JObj [("dependencies", JObj [("local-pkg", JStr "file:../local-package")])].

Definition empty_manifest_text : string := "{}".

Definition known_documents : list (string * json) :=
  [(local_manifest_text, local_manifest); (empty_manifest_text, JObj [])].

Definition local_host : host :=
  Host project_root (parse_table known_documents) npm_ok false 64.

Definition failing_npm_host : host :=
  Host project_root (parse_table known_documents) npm_fails false 64.

Definition local_fs : fsmap :=
  list_to_map [
    (["fake"], Dir);
    (["fake"; "project"], Dir);
    (["fake"; "project"; "package.json"], File local_manifest_text);
    (["fake"; "project"; "node_modules"], Dir);
    (["fake"; "project"; "node_modules"; "local-pkg"],
       Symlink ["fake"; "local-package"]);
    (["fake"; "local-package"], Dir);
    (["fake"; "local-package"; "index.js"], File "module.exports = 1;");
    (["fake"; "local-package"; "lib"], Dir);
    (["fake"; "local-package"; "lib"; "helper.js"], File "exports.help = 2;");
    (["fake"; "local-package"; "package.json"], File empty_manifest_text)
  ].


(** A project directory without a manifest. *)
Definition no_manifest_fs : fsmap :=
  list_to_map [ (["fake"], Dir); (["fake"; "project"], Dir) ].



(** Two dependencies whose installed links are chained: the link of [a]
    points inside the entry of [b], and the link of [b] points to an old
    directory that lacks the sub-directory [a] refers to. *)
Definition chain_manifest_text : string :=
  "{" +:+ quoted "dependencies" +:+ ":{" +:+ quoted "a" +:+ ":"
  +:+ quoted "file:../lib/a" +:+ "," +:+ quoted "b" +:+ ":"
  +:+ quoted "file:../lib/b" +:+ "}}".

Definition chain_manifest : json :=
  JObj [("dependencies",
         JObj [("a", JStr "file:../lib/a"); ("b", JStr "file:../lib/b")])].

Definition chain_host : host :=
  Host project_root (parse_table [(chain_manifest_text, chain_manifest)])
       npm_ok false 64.

Definition chain_fs : fsmap :=
  list_to_map [
    (["fake"], Dir);
    (["fake"; "project"], Dir);
    (["fake"; "project"; "package.json"], File chain_manifest_text);
    (["fake"; "project"; "node_modules"], Dir);
    (["fake"; "project"; "node_modules"; "a"],
       Symlink ["fake"; "project"; "node_modules"; "b"; "x"]);
    (["fake"; "project"; "node_modules"; "b"], Symlink ["fake"; "old-b"]);
    (["fake"; "old-b"], Dir);
    (["fake"; "lib"], Dir);
    (["fake"; "lib"; "a"], Dir);
    (["fake"; "lib"; "a"; "index.js"], File "module.exports = 'a';");
    (["fake"; "lib"; "b"], Dir);
    (["fake"; "lib"; "b"; "x"], Dir);
    (["fake"; "lib"; "b"; "x"; "index.js"], File "module.exports = 'x';")
  ].

(** A store entry [gone] linked to an existing package while the manifest
    points it at a directory that is missing. *)
Definition orphan_fs : fsmap :=
  list_to_map [
    (["fake"], Dir);
    (["fake"; "project"], Dir);
    (["fake"; "project"; "node_modules"], Dir);
    (["fake"; "project"; "node_modules"; "gone"], Symlink ["fake"; "local-package"]);
    (["fake"; "project"; "node_modules"; "local-pkg"],
       Symlink ["fake"; "local-package"]);
    (["fake"; "local-package"], Dir);
    (["fake"; "local-package"; "index.js"], File "module.exports = 1;")
  ].

(** A manifest whose text is the JSON literal [null]. *)
Definition null_host : host :=
  Host project_root (parse_table [("null", JNull); ("42", JNum 42)]) npm_ok false 64.

Definition null_manifest_fs : fsmap :=
  list_to_map [
    (["fake"], Dir);
    (["fake"; "project"], Dir);
    (["fake"; "project"; "package.json"], File "null")
  ].

(** A source tree that holds links: one to a regular file and one to a
    directory of the tree. *)
Definition linked_fs : fsmap :=
  list_to_map [
    (["s"], Dir);
    (["s"; "real.txt"], File "data");
    (["s"; "alias"], Symlink ["s"; "real.txt"]);
    (["s"; "sub"], Dir);
    (["s"; "sub"; "x"], File "x");
    (["s"; "sublink"], Symlink ["s"; "sub"])
  ].

(** A store entry whose link points to a directory that is gone. *)
Definition dangling_fs : fsmap :=
  list_to_map [
    (["fake"], Dir);
    (["fake"; "project"], Dir);
    (["fake"; "project"; "node_modules"], Dir);
    (["fake"; "project"; "node_modules"; "local-pkg"],
       Symlink ["fake"; "moved"; "local-package"]);
    (["fake"; "local-package"], Dir);
    (["fake"; "local-package"; "index.js"], File "module.exports = 1;")
  ].

End Samples.
Export Samples.

(** * Properties *)

(** ** Laws of the effect layer *)

Lemma result_eta {A : Type} (r : result A) :
  Result (outcome r) (state r) (trace r) = r.
Proof. by destruct r. Qed.

Section laws.
Context {A B : Type}.
Implicit Types (m : fsmap) (k : A → M B).

Lemma bind_ret (a : A) k m : bind (ret a) k m = k a m.
Proof. unfold bind, ret. simpl. apply result_eta. Qed.

Lemma bind_throw e k m : bind (throw e) k m = Result (Throw e) m [].
Proof. reflexivity. Qed.

Lemma bind_query (f : fsmap → A) k m : bind (query f) k m = k (f m) m.
Proof. unfold bind, query. simpl. apply result_eta. Qed.

Lemma bind_try_query_done (s : string) (p : path) (f : fsmap → attempt A) k m a :
  f m = Done a → bind (try_query s p f) k m = k a m.
Proof. intros E. unfold bind, try_query. rewrite E. simpl. apply result_eta. Qed.

Lemma bind_try_query_fail (s : string) (p : path) (f : fsmap → attempt A) k m e :
  f m = Fail e →
  bind (try_query s p f) k m = Result (Throw (SystemError e s p)) m [].
Proof. intros E. unfold bind, try_query. by rewrite E. Qed.

Lemma bind_normal (c : M A) k m a :
  outcome (c m) = Normal a →
  bind c k m =
  Result (outcome (k a (state (c m)))) (state (k a (state (c m))))
         (trace (c m) ++ trace (k a (state (c m)))).
Proof. intros E. unfold bind. by rewrite E. Qed.

Lemma bind_thrown (c : M A) k m e :
  outcome (c m) = Throw e →
  bind c k m = Result (Throw e) (state (c m)) (trace (c m)).
Proof. intros E. unfold bind. by rewrite E. Qed.
End laws.

Lemma bind_emit {B : Type} (ev : event) (k : unit → M B) (m : fsmap) :
  bind (emit ev) k m =
  Result (outcome (k tt m)) (state (k tt m)) (ev :: trace (k tt m)).
Proof. reflexivity. Qed.

Lemma bind_update {B : Type} (f : fsmap → fsmap) (k : unit → M B) (m : fsmap) :
  bind (update f) k m = k tt (f m).
Proof. unfold bind, update. simpl. apply result_eta. Qed.

Lemma bind_rm {B : Type} (p : path) (k : unit → M B) (m : fsmap) :
  bind (fs_rmSync p) k m
  = Result (outcome (k tt (rmSync m p))) (state (k tt (rmSync m p)))
           (RmCall p :: trace (k tt (rmSync m p))).
Proof. reflexivity. Qed.

Lemma outcome_log msg level silently m :
  outcome (log msg level silently m) = Normal tt.
Proof. unfold log. by destruct silently. Qed.

Lemma state_log msg level silently m : state (log msg level silently m) = m.
Proof. unfold log. by destruct silently. Qed.

Lemma trace_log msg level silently m :
  trace (log msg level silently m) = if silently then [] else [Console level msg].
Proof. unfold log. by destruct silently. Qed.

Lemma trace_log_quiet msg level silently m :
  quiet (trace (log msg level silently m)).
Proof. rewrite trace_log. destruct silently; repeat constructor. Qed.

Lemma bind_log {B : Type} msg level silently (k : unit → M B) m :
  bind (log msg level silently) k m =
  Result (outcome (k tt m)) (state (k tt m))
         (trace (log msg level silently m) ++ trace (k tt m)).
Proof.
  rewrite (bind_normal _ _ _ tt) by apply outcome_log. by rewrite state_log.
Qed.

(** ** Which events a computation can perform *)

Section emits.
Context (P : event → Prop).

Lemma emits_ret {A} (a : A) : emits P (ret a).
Proof. intros m. constructor. Qed.

Lemma emits_throw {A} e : emits P (@throw A e).
Proof. intros m. constructor. Qed.

Lemma emits_query {A} (f : fsmap → A) : emits P (query f).
Proof. intros m. constructor. Qed.

Lemma emits_update f : emits P (update f).
Proof. intros m. constructor. Qed.

Lemma emits_try_query {A} (s : string) (p : path) (f : fsmap → attempt A) :
  emits P (try_query s p f).
Proof. intros m. unfold try_query. destruct (f m); constructor. Qed.

Lemma emits_try_update (s : string) (p : path) f : emits P (try_update s p f).
Proof. intros m. unfold try_update. destruct (f m); constructor. Qed.

Lemma emits_emit ev : P ev → emits P (emit ev).
Proof. intros H m. by repeat constructor. Qed.

Lemma emits_bind {A B} (c : M A) (k : A → M B) :
  emits P c → (∀ a, emits P (k a)) → emits P (bind c k).
Proof.
  intros Hc Hk m. unfold bind. specialize (Hc m).
  destruct (outcome (c m)); simpl; [|done].
  apply Forall_app. split; [done|apply Hk].
Qed.

Lemma emits_try_catch {A} (c : M A) handler :
  emits P c → (∀ e, emits P (handler e)) → emits P (try_catch c handler).
Proof.
  intros Hc Hk m. unfold try_catch. specialize (Hc m).
  destruct (outcome (c m)); simpl; [done|].
  apply Forall_app. split; [done|apply Hk].
Qed.

Lemma emits_forEach {A} (l : list A) (f : A → M unit) :
  (∀ x, x ∈ l → emits P (f x)) → emits P (forEach l f).
Proof.
  induction l as [|x l IH]; intros Hf; simpl; [apply emits_ret|].
  apply emits_bind; [apply Hf; left|intros _; apply IH].
  intros y Hy. apply Hf. by right.
Qed.

Lemma emits_log msg level silently :
  P (Console level msg) → emits P (log msg level silently).
Proof.
  intros H. unfold log.
  destruct silently; simpl; [apply emits_ret|by apply emits_emit].
Qed.

Lemma emits_copy room :
  (∀ p, P (MkdirCall p)) → (∀ s d, P (CopyFileCall s d)) →
  ∀ src dest, emits P (copyRecursiveSync room src dest).
Proof.
  intros Hmk Hcp. induction room as [|room IH]; intros src dest; simpl.
  - apply emits_throw.
  - apply emits_bind; [apply emits_query|]. intros present.
    apply emits_bind.
    { destruct present; simpl; [apply emits_ret|].
      apply emits_bind; [by apply emits_emit|intros _; apply emits_try_update]. }
    intros _. apply emits_bind; [apply emits_try_query|]. intros files.
    apply emits_forEach. intros file _.
    apply emits_bind; [apply emits_try_query|]. intros st.
    destruct (isDirectory st); [apply IH|].
    apply emits_bind; [by apply emits_emit|intros _; apply emits_try_update].
Qed.

Lemma emits_spawn h args opts :
  P (SpawnCall "npm" args opts) → emits P (spawnSync_npm h args opts).
Proof.
  intros H m. unfold spawnSync_npm. destruct (npm h _ _ _ _).
  by repeat constructor.
Qed.

End emits.

(** ** Path resolution *)

Lemma walk_follow_nofollow hops m :
  ∀ todo cur q n,
    walk hops m true cur todo = Done q → node_at m q = Some n →
    ∃ q' n', walk hops m false cur todo = Done q' ∧ node_at m q' = Some n'.
Proof.
  assert (Hlink : ∀ cur c t, m !! (cur ++ [c]) = Some (Symlink t) →
            node_at m (cur ++ [c]) = Some (Symlink t)).
  { intros cur c t E. unfold node_at.
    destruct (cur ++ [c]) eqn:E'; [by destruct cur|done]. }
  induction hops as [|hops IH].
  - induction todo as [|c rest IHt]; intros cur q n; simpl.
    + intros [= <-] Hn. eauto.
    + destruct (decide (c = "")); [by apply IHt|].
      destruct (m !! (cur ++ [c])) as [[data| |t]|] eqn:E.
      * destruct rest; [|done]. intros [= <-] Hn. eauto.
      * apply IHt.
      * destruct rest; [|done]. intros _ _. eauto.
      * destruct rest; [|done]. intros [= <-] Hn. eauto.
  - induction todo as [|c rest IHt]; intros cur q n; simpl.
    + intros [= <-] Hn. eauto.
    + destruct (decide (c = "")); [by apply IHt|].
      destruct (m !! (cur ++ [c])) as [[data| |t]|] eqn:E.
      * destruct rest; [|done]. intros [= <-] Hn. eauto.
      * apply IHt.
      * destruct rest; [intros _ _; eauto|apply IH].
      * destruct rest; [|done]. intros [= <-] Hn. eauto.
Qed.

(** An entry that [existsSync] reports can be inspected by [lstatSync]. *)
Lemma exists_lstat m p :
  existsSync m p = true → ∃ n, lstatSync m p = Done n.
Proof.
  unfold existsSync, statSync, lstatSync, inspect, locate.
  destruct (walk MAXSYMLINKS m true [] p) as [q|] eqn:E; [|done].
  destruct (node_at m q) as [n|] eqn:En; [|done]. intros _.
  destruct (walk_follow_nofollow _ _ _ _ _ _ E En) as (q' & n' & -> & ->). eauto.
Qed.

(** ** The symlink gate *)


Lemma unlinkOne_absent h silent noInstall dev root nm name v m :
  existsSync m (join nm name) = false →
  unlinkOne h silent noInstall dev root nm (name, JStr v) m
  = log (warn_message name) "warn" silent m.
Proof.
  intros E. unfold unlinkOne, fs_existsSync. rewrite bind_query, E. reflexivity.
Qed.

Lemma unlinkOne_physical h silent noInstall dev root nm name v m :
  existsSync m (join nm name) = true →
  symlink_gate m (join nm name) = false →
  unlinkOne h silent noInstall dev root nm (name, JStr v) m
  = log (skip_message name) "log" silent m.
Proof.
  intros E G. unfold symlink_gate in G. rewrite E in G.
  destruct (exists_lstat _ _ E) as [n Hn]. rewrite Hn in G.
  unfold unlinkOne, fs_existsSync, fs_lstatSync. rewrite bind_query, E.
  cbn [negb].
  rewrite (bind_try_query_done _ _ _ _ _ n); [|exact Hn].
  destruct n; [reflexivity|reflexivity|discriminate G].
Qed.

Lemma unlinkOne_symlink h silent noInstall dev root nm name v m :
  symlink_gate m (join nm name) = true →
  unlinkOne h silent noInstall dev root nm (name, JStr v) m
  = bind (log (replace_message name v) "log" silent) (λ _,
      bind (fs_rmSync (join nm name)) (λ _,
        bind (copyRecursiveSync (stack_room h) (resolve root (strip_file v))
                (join nm name)) (λ _,
          if negb noInstall
          then installDependencies h (join nm name) dev silent
          else ret tt))) m.
Proof.
  intros G. unfold symlink_gate in G. apply andb_true_iff in G as [E G].
  destruct (lstatSync m (join nm name)) as [[| |t]|] eqn:Hn;
    [discriminate G|discriminate G| |discriminate G].
  unfold unlinkOne, fs_existsSync, fs_lstatSync. rewrite bind_query, E.
  cbn [negb].
  rewrite (bind_try_query_done _ _ _ _ _ (Symlink t)); [|exact Hn].
  reflexivity.
Qed.



(** ** Objects, spread and [Object.entries] *)



Lemma obj_get_None k (o : jsobj) : obj_get k o = None ↔ k ∉ o.*1.
Proof.
  induction o as [|[k' v'] o IH]; simpl.
  - split; [intros _; apply not_elem_of_nil|done].
  - rewrite not_elem_of_cons. destruct (decide (k' = k)) as [->|Hne].
    + split; [done|]. by intros [? _].
    + rewrite IH. split; [intros H; split; [congruence|done]|by intros [_ ?]].
Qed.

Lemma obj_get_Some k v (o : jsobj) :
  NoDup o.*1 → obj_get k o = Some v ↔ (k, v) ∈ o.
Proof.
  induction o as [|[k' v'] o IH]; simpl; intros Hnd.
  - split; [done|]. by intros ?%elem_of_nil.
  - apply NoDup_cons in Hnd as [Hk' Hnd]. rewrite elem_of_cons.
    destruct (decide (k' = k)) as [->|Hne].
    + split; [intros [= ->]; by left|].
      intros [[= ->]|Hin]; [done|]. destruct Hk'.
      apply list_elem_of_fmap. by exists (k, v).
    + rewrite (IH Hnd). split; [by right|]. intros [[= ? ?]|?]; [congruence|done].
Qed.







Lemma insert_index_perm n kv l : insert_index n kv l ≡ₚ (n, kv) :: l.
Proof.
  induction l as [|[m kv'] l IH]; simpl; [done|].
  destruct (n <=? m)%N; [done|]. rewrite IH. apply perm_swap.
Qed.

Lemma sort_index_perm l : sort_index l ≡ₚ l.
Proof.
  induction l as [|[n kv] l IH]; simpl; [done|].
  rewrite insert_index_perm. by rewrite IH.
Qed.

Lemma index_props_split o :
  (snd <$> index_props o) ++ filter (λ kv, array_index kv.1 = None) o ≡ₚ o.
Proof.
  induction o as [|kv o IH]; [done|].
  rewrite filter_cons. unfold index_props in *. cbn [omap list_omap].
  destruct (array_index kv.1) as [n|] eqn:E.
  - rewrite decide_False by done. cbn. by rewrite IH.
  - rewrite decide_True by done. cbn. rewrite <- Permutation_middle. by rewrite IH.
Qed.

Lemma own_order_perm o : own_order o ≡ₚ o.
Proof. unfold own_order. rewrite sort_index_perm. apply index_props_split. Qed.

Lemma own_order_NoDup o : NoDup o.*1 → NoDup (own_order o).*1.
Proof. intros H. by rewrite own_order_perm. Qed.

Lemma own_order_get k o : NoDup o.*1 → obj_get k (own_order o) = obj_get k o.
Proof.
  intros Hnd. destruct (obj_get k o) as [v|] eqn:E.
  - apply obj_get_Some; [by apply own_order_NoDup|].
    rewrite own_order_perm. by apply obj_get_Some.
  - apply obj_get_None. rewrite own_order_perm. by apply obj_get_None.
Qed.









(** ** The file-path filter *)

Lemma unlinkEntries_drop h silent noInstall dev root nm before name v after :
  is_file_spec v = false →
  unlinkEntries h silent noInstall dev root nm (before ++ (name, v) :: after)
  = unlinkEntries h silent noInstall dev root nm (before ++ after).
Proof.
  intros Hv. unfold unlinkEntries.
  rewrite !List.filter_app. cbn [List.filter snd]. by rewrite Hv.
Qed.

Lemma unlinkEntries_none h silent noInstall dev root nm entries m :
  Forall (λ e, is_file_spec e.2 = false) entries →
  unlinkEntries h silent noInstall dev root nm entries m = Result (Normal tt) m [].
Proof.
  intros Hall. unfold unlinkEntries.
  assert (List.filter (λ e : string * json, is_file_spec e.2) entries = []) as ->; [|done].
  induction Hall as [|e l He _ IH]; [done|]. cbn [List.filter]. by rewrite He.
Qed.

(** C9 (filter correctness).  A dependency whose specifier is a string that
    does not begin with [file:] is dropped before the callback runs: the run
    is the one that the same entries without it produce (same completion,
    same file system, same events), and a run in which no specifier is a
    file-path reference returns normally without any event and leaves the
    file system unchanged. *)
Theorem filter_skips_other_specifiers (h : host) (silent noInstall dev : bool)
    (root nm : path) (before after : list (string * json))
    (name v : string) :
  String.prefix "file:" v = false →
  unlinkEntries h silent noInstall dev root nm (before ++ (name, JStr v) :: after)
    = unlinkEntries h silent noInstall dev root nm (before ++ after)
  ∧ (∀ entries m,
       Forall (λ e, ∃ s, e.2 = JStr s ∧ String.prefix "file:" s = false) entries →
       unlinkEntries h silent noInstall dev root nm entries m
       = Result (Normal tt) m []).
Proof.
  intros Hv. split; [by apply unlinkEntries_drop|].
  intros entries m Hall. apply unlinkEntries_none.
  eapply Forall_impl; [exact Hall|]. by intros e (s & -> & Hs).
Qed.

Lemma filter_skips_other_specifiers_witness :
  String.prefix "file:" "^1.0.0" = false
  ∧ unlinkEntries local_host false false false project_root store
      ([] ++ ("regular", JStr "^1.0.0")
          :: [("local-pkg", JStr "file:../local-package")])
    = unlinkEntries local_host false false false project_root store
        ([] ++ [("local-pkg", JStr "file:../local-package")]).
Proof.
  split; [reflexivity|].
  apply (filter_skips_other_specifiers local_host false false false
           project_root store [] [("local-pkg", JStr "file:../local-package")]
           "regular" "^1.0.0").
  reflexivity.
Defined.

(** C10 (non-string specifiers).  A merged value that is not a string never
    reaches the callback (which would throw on it, having no [replace]
    method): the run is the one the same entries without it produce, so it
    neither throws on that entry nor changes anything for it. *)
Theorem non_string_specifier_is_skipped (h : host) (silent noInstall dev : bool)
    (root nm : path) (before after : list (string * json))
    (name : string) (v : json) :
  (∀ s, v ≠ JStr s) →
  is_file_spec v = false
  ∧ unlinkEntries h silent noInstall dev root nm (before ++ (name, v) :: after)
    = unlinkEntries h silent noInstall dev root nm (before ++ after)
  ∧ (∀ m, unlinkEntries h silent noInstall dev root nm [(name, v)] m
          = Result (Normal tt) m [])
  ∧ (∀ m, ∃ e, unlinkOne h silent noInstall dev root nm (name, v) m
               = Result (Throw e) m []).
Proof.
  intros Hv.
  assert (Hf : is_file_spec v = false).
  { destruct v; try reflexivity. by destruct (Hv s). }
  split_and!; [done|by apply unlinkEntries_drop| |].
  - intros m. apply unlinkEntries_none. by repeat constructor.
  - intros m. destruct v; try (eexists; reflexivity). by destruct (Hv s).
Qed.

Lemma non_string_specifier_is_skipped_witness :
  (∀ s, JObj [("version", JStr "1.0.0")] ≠ JStr s)
  ∧ unlinkEntries local_host false false false project_root store
      [("odd", JObj [("version", JStr "1.0.0")])] local_fs
    = Result (Normal tt) local_fs [].
Proof.
  split; [discriminate|].
  apply (non_string_specifier_is_skipped local_host false false false
           project_root store [] [] "odd" (JObj [("version", JStr "1.0.0")])).
  discriminate.
Defined.

(** ** The installer *)

Lemma bind_spawn {B : Type} (h : host) (args : list string) (opts : spawn_options)
    (k : option Z → M B) (m : fsmap) :
  bind (spawnSync_npm h args opts) k m
  = Result
      (outcome (k (snd (npm h args (spawn_cwd opts) (spawn_stdio opts) m))
                  (fst (npm h args (spawn_cwd opts) (spawn_stdio opts) m))))
      (state (k (snd (npm h args (spawn_cwd opts) (spawn_stdio opts) m))
                (fst (npm h args (spawn_cwd opts) (spawn_stdio opts) m))))
      (SpawnCall "npm" args opts
       :: trace (k (snd (npm h args (spawn_cwd opts) (spawn_stdio opts) m))
                   (fst (npm h args (spawn_cwd opts) (spawn_stdio opts) m)))).
Proof.
  unfold bind, spawnSync_npm. by destruct (npm h args _ _ m).
Qed.

Lemma install_no_manifest h dest dev silent m :
  existsSync m (join dest "package.json") = false →
  installDependencies h dest dev silent m
  = log ("[SKIP] No package.json in " +:+ render dest) "log" silent m.
Proof.
  intros E. unfold installDependencies, fs_existsSync.
  rewrite bind_query, E. reflexivity.
Qed.

Lemma install_store_present h dest dev silent m :
  existsSync m (join dest "package.json") = true →
  existsSync m (join dest "node_modules") = true →
  installDependencies h dest dev silent m
  = log ("[SKIP] Dependencies already present for " +:+ basename dest)
        "log" silent m.
Proof.
  intros E1 E2. unfold installDependencies, fs_existsSync.
  rewrite bind_query, E1. cbn [negb]. rewrite bind_query, E2. reflexivity.
Qed.

Lemma install_runs (h : host) (dest : path) (dev silent : bool) (m : fsmap) :
  existsSync m (join dest "package.json") = true →
  existsSync m (join dest "node_modules") = false →
  let run := npm h (install_args dev) dest (if silent then Ignore else Inherit) m in
  installDependencies h dest dev silent m
  = Result (Normal tt) (fst run)
      (trace (log ("[INSTALL] Running npm "
                   +:+ String.concat " " (install_args dev) +:+ " in "
                   +:+ basename dest) "log" silent m)
       ++ SpawnCall "npm" (install_args dev) (install_options h dest silent)
       :: (if bool_decide (snd run = Some 0%Z) then []
           else trace (log ("[ERROR] Failed to install dependencies for "
                            +:+ basename dest) "error" silent m))).
Proof.
  intros E1 E2 run. unfold installDependencies, fs_existsSync.
  rewrite bind_query, E1. cbn [negb]. rewrite bind_query, E2.
  replace (["install"; "--no-audit"; "--no-fund"]
           ++ (if negb dev then ["--production"] else []))
    with (install_args dev) by (by destruct dev).
  rewrite bind_log, bind_spawn. cbn [spawn_cwd spawn_stdio]. subst run.
  destruct (npm h (install_args dev) dest _ m) as [m' status].
  cbn [outcome state trace fst snd].
  destruct (bool_decide (status = Some 0%Z)); cbn [negb].
  - reflexivity.
  - rewrite outcome_log, state_log, !trace_log. reflexivity.
Qed.

Lemma install_returns h dest dev silent m :
  outcome (installDependencies h dest dev silent m) = Normal tt.
Proof.
  destruct (existsSync m (join dest "package.json")) eqn:E1.
  - destruct (existsSync m (join dest "node_modules")) eqn:E2.
    + rewrite install_store_present by done. apply outcome_log.
    + by rewrite install_runs.
  - rewrite install_no_manifest by done. apply outcome_log.
Qed.

Lemma forEach_cons_normal {A} (f : A → M unit) x rest m :
  outcome (f x m) = Normal tt →
  forEach (x :: rest) f m
  = Result (outcome (forEach rest f (state (f x m))))
           (state (forEach rest f (state (f x m))))
           (trace (f x m) ++ trace (forEach rest f (state (f x m)))).
Proof. intros E. cbn [forEach]. by rewrite (bind_normal _ _ _ tt). Qed.

(** Once the copy has returned, the callback returns normally whatever the
    install step does. *)
Lemma unlinkOne_replaced h silent noInstall dev root nm name v m :
  symlink_gate m (join nm name) = true →
  let dest := join nm name in
  let copied := copyRecursiveSync (stack_room h) (resolve root (strip_file v))
                  dest (rmSync m dest) in
  outcome copied = Normal tt →
  let installed :=
    (if negb noInstall then installDependencies h dest dev silent else ret tt)
      (state copied) in
  unlinkOne h silent noInstall dev root nm (name, JStr v) m
  = Result (Normal tt) (state installed)
      (trace (log (replace_message name v) "log" silent m)
       ++ RmCall dest :: trace copied ++ trace installed).
Proof.
  intros G dest copied Hc installed.
  rewrite unlinkOne_symlink by done. fold dest.
  rewrite bind_log, bind_rm. cbn [outcome state trace].
  rewrite (bind_normal _ _ _ tt) by exact Hc. fold copied. fold installed.
  cbn [outcome state trace].
  f_equal. subst installed. destruct noInstall; [reflexivity|apply install_returns].
Qed.

Lemma emits_unlinkOne_no_install P h silent dev root nm entry :
  (∀ level msg, P (Console level msg)) → (∀ p, P (RmCall p)) →
  (∀ p, P (MkdirCall p)) → (∀ s d, P (CopyFileCall s d)) →
  emits P (unlinkOne h silent true dev root nm entry).
Proof.
  intros Hc Hr Hm Hf. destruct entry as [name v]. unfold unlinkOne.
  destruct v; try apply emits_throw.
  apply emits_bind; [apply emits_query|]. intros found.
  destruct found; cbn [negb]; [|by apply emits_log].
  apply emits_bind; [apply emits_try_query|]. intros st.
  destruct (isSymbolicLink st); cbn [negb]; [|by apply emits_log].
  apply emits_bind; [by apply emits_log|]. intros _.
  apply emits_bind.
  { apply emits_bind; [by apply emits_emit|intros _; apply emits_update]. }
  intros _. apply emits_bind; [by apply emits_copy|]. intros _. apply emits_ret.
Qed.

Lemma emits_getProp P pkg name : emits P (getProp pkg name).
Proof. destruct pkg; first [apply emits_throw|apply emits_ret]. Qed.

Lemma emits_mergeDeps P pkg : emits P (mergeDeps pkg).
Proof.
  unfold mergeDeps. repeat (apply emits_bind; [apply emits_getProp|intros ?]).
  apply emits_ret.
Qed.

(** Whatever the callback may emit, the whole run may emit. *)
Lemma emits_unlink P h o :
  (∀ silent noInstall dev root nm entry,
     noInstall = default false (option_get "noInstall" o) →
     emits P (unlinkOne h silent noInstall dev root nm entry)) →
  emits P (unlinkLocalDependencies h o).
Proof.
  intros Hone. unfold unlinkLocalDependencies.
  apply emits_bind; [apply emits_try_query|]. intros text.
  apply emits_bind.
  { destruct (JSON_parse h text); [apply emits_ret|apply emits_throw]. }
  intros pkg. apply emits_bind; [apply emits_mergeDeps|]. intros allDeps.
  unfold unlinkEntries. apply emits_forEach. intros entry _. by apply Hone.
Qed.

(** C5 (install command wiring).  When the destination holds a manifest and
    no dependency store, the installer starts exactly one process: [npm]
    with the arguments install, --no-audit, --no-fund, followed by
    --production exactly when [dev] is false, in the working directory
    [dest].  The callback reaches the installer, after a successful copy,
    with its own store entry and its own [dev] and [silent]; and a run with
    [noInstall] set starts no process at all. *)
Theorem install_command_wiring (h : host) (dev silent : bool) :
  (∀ dest m,
     existsSync m (join dest "package.json") = true →
     existsSync m (join dest "node_modules") = false →
     List.filter is_spawn (trace (installDependencies h dest dev silent m))
     = [SpawnCall "npm" (install_args dev) (install_options h dest silent)])
  ∧ (∀ root nm name v m,
       symlink_gate m (join nm name) = true →
       let dest := join nm name in
       let copied := copyRecursiveSync (stack_room h)
                       (resolve root (strip_file v)) dest (rmSync m dest) in
       outcome copied = Normal tt →
       trace (unlinkOne h silent false dev root nm (name, JStr v) m)
       = trace (log (replace_message name v) "log" silent m)
         ++ RmCall dest :: trace copied
         ++ trace (installDependencies h dest dev silent (state copied)))
  ∧ (∀ o m, option_get "noInstall" o = Some true →
            Forall (λ e, is_spawn e = false)
                   (trace (unlinkLocalDependencies h o m)))
  ∧ install_args true = ["install"; "--no-audit"; "--no-fund"]
  ∧ install_args false = ["install"; "--no-audit"; "--no-fund"; "--production"]
  ∧ spawn_cwd (install_options h [] silent) = [].
Proof.
  split_and!; try reflexivity.
  - intros dest m E1 E2. rewrite install_runs by done. cbn [trace].
    rewrite List.filter_app, !trace_log. cbn [List.filter is_spawn].
    destruct silent; cbn [List.filter is_spawn app];
      by destruct (bool_decide _).
  - intros root nm name v m G dest copied Hc.
    by rewrite (unlinkOne_replaced h silent false dev root nm name v m G Hc).
  - intros o m Ho. apply emits_unlink.
    intros s n d root nm entry ->. rewrite Ho. cbn [default from_option].
    by apply emits_unlinkOne_no_install.
Qed.

Lemma install_command_wiring_witness :
  existsSync local_fs (join ["fake"; "local-package"] "package.json") = true
  ∧ existsSync local_fs (join ["fake"; "local-package"] "node_modules") = false
  ∧ List.filter is_spawn
      (trace (installDependencies local_host ["fake"; "local-package"]
                false false local_fs))
    = [SpawnCall "npm" ["install"; "--no-audit"; "--no-fund"; "--production"]
         (SpawnOptions ["fake"; "local-package"] Inherit false)].
Proof.
  split; [vm_compute; reflexivity|]. split; [vm_compute; reflexivity|].
  apply (install_command_wiring local_host false false); vm_compute; reflexivity.
Defined.

(** C6 (installer self-containment).  The installer always returns
    normally: without a manifest in the destination it only logs; with a
    dependency store already there it only logs; and when the command exits
    with a non-zero status it logs the error after the process has run.  So
    a callback whose copy succeeded returns normally, and the entries after
    it are processed from the state it leaves. *)
Theorem installer_is_self_contained (h : host) (dest : path) (dev silent : bool)
    (m : fsmap) :
  let run := npm h (install_args dev) dest (if silent then Ignore else Inherit) m in
  outcome (installDependencies h dest dev silent m) = Normal tt
  ∧ (existsSync m (join dest "package.json") = false →
       installDependencies h dest dev silent m
       = log ("[SKIP] No package.json in " +:+ render dest) "log" silent m)
  ∧ (existsSync m (join dest "package.json") = true →
     existsSync m (join dest "node_modules") = true →
       installDependencies h dest dev silent m
       = log ("[SKIP] Dependencies already present for " +:+ basename dest)
             "log" silent m)
  ∧ (existsSync m (join dest "package.json") = true →
     existsSync m (join dest "node_modules") = false →
     snd run ≠ Some 0%Z →
       installDependencies h dest dev silent m
       = Result (Normal tt) (fst run)
           (trace (log ("[INSTALL] Running npm "
                        +:+ String.concat " " (install_args dev) +:+ " in "
                        +:+ basename dest) "log" silent m)
            ++ SpawnCall "npm" (install_args dev) (install_options h dest silent)
            :: trace (log ("[ERROR] Failed to install dependencies for "
                           +:+ basename dest) "error" silent m)))
  ∧ (∀ noInstall root nm name v rest m0,
       is_file_spec (JStr v) = true →
       symlink_gate m0 (join nm name) = true →
       outcome (copyRecursiveSync (stack_room h) (resolve root (strip_file v))
                  (join nm name) (rmSync m0 (join nm name))) = Normal tt →
       let first := unlinkOne h silent noInstall dev root nm (name, JStr v) m0 in
       let others := unlinkEntries h silent noInstall dev root nm rest (state first) in
       outcome first = Normal tt
       ∧ unlinkEntries h silent noInstall dev root nm ((name, JStr v) :: rest) m0
         = Result (outcome others) (state others) (trace first ++ trace others)).
Proof.
  intros run. split_and!.
  - apply install_returns.
  - apply install_no_manifest.
  - apply install_store_present.
  - intros E1 E2 Hst. rewrite install_runs by done. fold run.
    by rewrite bool_decide_eq_false_2.
  - intros noInstall root nm name v rest m0 Hv G Hc first others.
    assert (Hfirst : outcome first = Normal tt).
    { subst first. by rewrite (unlinkOne_replaced _ _ _ _ _ _ _ _ _ G Hc). }
    split; [exact Hfirst|].
    unfold unlinkEntries. cbn [List.filter snd]. rewrite Hv.
    by rewrite forEach_cons_normal.
Qed.

Lemma installer_is_self_contained_witness :
  existsSync local_fs (join ["fake"; "local-package"] "package.json") = true
  ∧ trace (installDependencies failing_npm_host ["fake"; "local-package"]
             false true local_fs)
    = [SpawnCall "npm" ["install"; "--no-audit"; "--no-fund"; "--production"]
         (SpawnOptions ["fake"; "local-package"] Ignore false)]
  ∧ outcome (installDependencies failing_npm_host ["fake"; "local-package"]
               false true local_fs) = Normal tt.
Proof.
  split; [vm_compute; reflexivity|].
  pose proof (installer_is_self_contained failing_npm_host
                ["fake"; "local-package"] false true local_fs) as (Hret & _ & _ & Hfail & _).
  split; [|exact Hret].
  rewrite Hfail; [reflexivity|vm_compute; reflexivity|vm_compute; reflexivity|].
  vm_compute. discriminate.
Defined.

(** ** The command line *)

Lemma main_without_help h args m :
  includes args "--help" = false → includes args "-h" = false →
  main h args m
  = try_catch
      (bind (unlinkLocalDependencies h
               [("silently", includes args "--silent");
                ("install", includes args "--no-install");
                ("dev", includes args "--dev")])
         (λ _, bind (log "Local dependencies unlinked successfully." "log"
                         (includes args "--silent"))
                 (λ _, ret 0%Z)))
      (λ error,
         bind (log ("Error unlinking local dependencies: "
                    +:+ error_message error) "error" (includes args "--silent"))
           (λ _, ret 1%Z)) m.
Proof. intros H1 H2. unfold main. by rewrite H1, H2. Qed.

Lemma unlink_manifest_missing h o m e :
  readFileSync m (join (cwd h) "package.json") = Fail e →
  unlinkLocalDependencies h o m
  = Result (Throw (SystemError e "open" (join (cwd h) "package.json"))) m [].
Proof.
  intros E. unfold unlinkLocalDependencies, fs_readFileSync.
  by rewrite (bind_try_query_fail _ _ _ _ _ e).
Qed.

Lemma unlink_manifest_malformed h o m text msg :
  readFileSync m (join (cwd h) "package.json") = Done text →
  JSON_parse h text = inr msg →
  unlinkLocalDependencies h o m = Result (Throw (SyntaxError msg)) m [].
Proof.
  intros E Hp. unfold unlinkLocalDependencies, fs_readFileSync.
  rewrite (bind_try_query_done _ _ _ _ _ text) by exact E.
  rewrite Hp. reflexivity.
Qed.

(** C3 (CLI flag wiring), evaluated on the code.  The script passes the
    flags under the names [silently] and [install], which the function does
    not read: a call with them is the call with the [dev] flag alone.  So
    with --no-install the install command still runs, and with --silent the
    replacement is still reported on the console. *)
Theorem cli_flags_do_not_reach_the_options :
  (∀ h silently install dev,
     unlinkLocalDependencies h
       [("silently", silently); ("install", install); ("dev", dev)]
     = unlinkLocalDependencies h [("dev", dev)])
  ∧ SpawnCall "npm" ["install"; "--no-audit"; "--no-fund"; "--production"]
      (SpawnOptions (join store "local-pkg") Inherit false)
      ∈ trace (main local_host ["--no-install"] local_fs)
  ∧ Console "log" (replace_message "local-pkg" "file:../local-package")
      ∈ trace (main local_host ["--silent"] local_fs).
Proof.
  split; [reflexivity|].
  split; apply (bool_decide_unpack _); vm_compute; exact I.
Qed.





(** ** Paths made of plain components *)

Lemma ends_with_slash_segments s :
  ends_with_slash s = true → (2 ≤ List.length (segments s))%nat.
Proof.
  induction s as [|c s IH]; [done|]. cbn [ends_with_slash segments].
  destruct s as [|c' s'].
  - intros ->. simpl. reflexivity.
  - intros H. specialize (IH H).
    destruct (Ascii.eqb c "/"); [cbn [List.length]; lia|].
    destruct (segments (String c' s')); cbn [List.length] in *; lia.
Qed.

Lemma plain_no_slash c : plain c → ends_with_slash c = false.
Proof.
  intros (_ & _ & _ & Hseg). destruct (ends_with_slash c) eqn:E; [|done].
  apply ends_with_slash_segments in E. rewrite Hseg in E. simpl in E. lia.
Qed.

Lemma normalizeString_plain acc l :
  Forall plain l → normalizeString acc l = acc ++ l.
Proof.
  intros Hl. revert acc. induction Hl as [|c l (H1 & H2 & H3 & _) _ IH]; intros acc.
  - by rewrite app_nil_r.
  - cbn [normalizeString]. rewrite decide_False by (intros [?|?]; done).
    rewrite decide_False by done. rewrite IH. by rewrite <- app_assoc.
Qed.

Lemma join_plain base c : Forall plain base → plain c → join base c = base ++ [c].
Proof.
  intros Hb Hc. unfold join.
  destruct Hc as (H1 & H2 & H3 & Hseg). rewrite Hseg.
  rewrite normalizeString_plain by (apply Forall_app; split; [done|by repeat constructor]).
  rewrite decide_False by done.
  rewrite plain_no_slash by done. reflexivity.
Qed.

Lemma plain_nonempty c : plain c → c ≠ "".
Proof. by intros (? & _). Qed.

(** ** Resolution along real directories *)


Lemma walk_nil hops m follow cur : walk hops m follow cur [] = Done cur.
Proof. by destruct hops. Qed.

Lemma walk_cons hops m follow cur c rest :
  walk hops m follow cur (c :: rest)
  = if decide (c = "") then walk hops m follow cur rest
    else match m !! (cur ++ [c]) with
         | None => match rest with [] => Done (cur ++ [c]) | _ => Fail ENOENT end
         | Some Dir => walk hops m follow (cur ++ [c]) rest
         | Some (File _) =>
             match rest with [] => Done (cur ++ [c]) | _ => Fail ENOTDIR end
         | Some (Symlink t) =>
             if is_nil rest && negb follow then Done (cur ++ [c])
             else match hops with
                  | O => Fail ELOOP
                  | S hops' => walk hops' m follow [] (t ++ rest)
                  end
         end.
Proof. by destruct hops. Qed.

Lemma walk_dirs hops m follow mid : ∀ cur rest,
  Forall (λ c, c ≠ "") mid →
  (∀ k, k `prefix_of` mid → k ≠ [] → m !! (cur ++ k) = Some Dir) →
  walk hops m follow cur (mid ++ rest) = walk hops m follow (cur ++ mid) rest.
Proof.
  induction mid as [|c mid IH]; intros cur rest Hne Hd.
  - by rewrite app_nil_r.
  - apply Forall_cons in Hne as [Hc Hne]. cbn [app]. rewrite walk_cons.
    rewrite decide_False by done.
    rewrite (Hd [c]); [|by apply prefix_cons, prefix_nil|done].
    rewrite IH; [by rewrite <- app_assoc|done|].
    intros k Hk Hk'. rewrite <- app_assoc. apply Hd; [by apply prefix_cons|done].
Qed.

Lemma real_dirs_app m p k : real_dirs m p → k `prefix_of` p → real_dirs m k.
Proof. intros H Hk q Hq. apply H. by etrans. Qed.

Lemma locate_dir m follow p :
  Forall (λ c, c ≠ "") p → real_dirs m p → locate m follow p = Done p.
Proof.
  intros Hne Hd. unfold locate.
  rewrite <- (app_nil_r p) at 1. rewrite walk_dirs; [by rewrite walk_nil|done|done].
Qed.

Lemma locate_child m follow p c :
  Forall (λ c, c ≠ "") p → c ≠ "" → real_dirs m p →
  (∀ t, m !! (p ++ [c]) ≠ Some (Symlink t)) →
  locate m follow (p ++ [c]) = Done (p ++ [c]).
Proof.
  intros Hne Hc Hd Hn. unfold locate. rewrite walk_dirs by done.
  rewrite walk_cons, decide_False by done. cbn [app].
  destruct (m !! (p ++ [c])) as [[| |t]|] eqn:E;
    [done|apply walk_nil|by destruct (Hn t)|done].
Qed.

Lemma node_at_lookup m p n : m !! p = Some n → p ≠ [] → node_at m p = Some n.
Proof. by destruct p. Qed.

Lemma node_at_snoc m p c : node_at m (p ++ [c]) = m !! (p ++ [c]).
Proof. by destruct p. Qed.

Lemma node_at_dir m p : real_dirs m p → node_at m p = Some Dir.
Proof. intros H. destruct p; [done|]. by apply H. Qed.

(** ** The [fs] calls on resolved paths *)

Lemma inspect_child m follow p c n :
  Forall (λ c, c ≠ "") p → c ≠ "" → real_dirs m p →
  m !! (p ++ [c]) = Some n → isSymbolicLink n = false →
  inspect m follow (p ++ [c]) = Done n.
Proof.
  intros Hne Hc Hd Hn Hl. unfold inspect.
  rewrite locate_child; [|done..|].
  - by rewrite node_at_snoc, Hn.
  - intros t. rewrite Hn. intros [= ->]. done.
Qed.

Lemma walk_absent hops m follow todo : ∀ cur,
  todo ≠ [] → Forall (λ c, c ≠ "") todo →
  (∀ k, k `prefix_of` todo → k ≠ [] →
        m !! (cur ++ k) = Some Dir ∨ m !! (cur ++ k) = None) →
  m !! (cur ++ todo) = None →
  walk hops m follow cur todo = Done (cur ++ todo)
  ∨ ∃ e, walk hops m follow cur todo = Fail e.
Proof.
  induction todo as [|c rest IH]; intros cur Hnil Hne Hk Hnone; [done|].
  apply Forall_cons in Hne as [Hc Hne]. rewrite walk_cons, decide_False by done.
  destruct (Hk [c]) as [E|E]; [by apply prefix_cons, prefix_nil|done|..]; rewrite E.
  - destruct rest as [|c' rest']; [congruence|].
    replace (cur ++ c :: c' :: rest') with ((cur ++ [c]) ++ c' :: rest')
      by (by rewrite <- app_assoc).
    apply IH; [done|done| |by rewrite <- app_assoc].
    intros k Hpre Hk'. rewrite <- app_assoc. apply Hk; [by apply prefix_cons|done].
  - destruct rest; [by left|right; eauto].
Qed.

Lemma exists_absent m dest :
  dest ≠ [] → Forall (λ c, c ≠ "") dest →
  (∀ q, q `prefix_of` dest → q ≠ [] → m !! q = Some Dir ∨ m !! q = None) →
  m !! dest = None →
  existsSync m dest = false.
Proof.
  intros Hnil Hne Hq Hnone. unfold existsSync, statSync, inspect, locate.
  destruct (walk_absent MAXSYMLINKS m true dest [] Hnil Hne Hq Hnone) as [->|[e ->]];
    [|done].
  cbn [app]. destruct dest; [done|]. cbn [node_at]. by rewrite Hnone.
Qed.

Lemma mkdirp_spec todo : ∀ m cur,
  Forall (λ c, c ≠ "") todo →
  (∀ k, k `prefix_of` todo → k ≠ [] →
        m !! (cur ++ k) = Some Dir ∨ m !! (cur ++ k) = None) →
  ∃ m', mkdirp m cur todo = Done m'
        ∧ (∀ k, k `prefix_of` todo → k ≠ [] → m' !! (cur ++ k) = Some Dir)
        ∧ (∀ q, (∀ k, k `prefix_of` todo → k ≠ [] → q ≠ cur ++ k) →
                m' !! q = m !! q).
Proof.
  induction todo as [|c rest IH]; intros m cur Hne Hk.
  - exists m. split_and!; [done| |done].
    intros k Hpre Hk'. apply prefix_nil_inv in Hpre. done.
  - apply Forall_cons in Hne as [Hc Hne]. cbn [mkdirp]. rewrite decide_False by done.
    assert (Hstep : ∀ m1, m1 !! (cur ++ [c]) = Some Dir →
              (∀ q, q ≠ cur ++ [c] → m1 !! q = m !! q) →
              ∃ m', mkdirp m1 (cur ++ [c]) rest = Done m'
                ∧ (∀ k, k `prefix_of` c :: rest → k ≠ [] → m' !! (cur ++ k) = Some Dir)
                ∧ (∀ q, (∀ k, k `prefix_of` c :: rest → k ≠ [] → q ≠ cur ++ k) →
                        m' !! q = m !! q)).
    { intros m1 Hhere Hother.
      destruct (IH m1 (cur ++ [c]) Hne) as (m' & Hrun & Hdirs & Hframe).
      { intros k Hpre Hk'. rewrite <- app_assoc. cbn [app].
        rewrite Hother.
        - apply Hk; [by apply prefix_cons|done].
        - intros Heq. apply app_inv_head in Heq. destruct k; [done|discriminate]. }
      exists m'. split_and!; [done| |].
      - intros k Hpre Hk'. destruct k as [|c' k]; [done|].
        assert (c' = c) as -> by (by apply prefix_cons_inv_1 in Hpre).
        apply prefix_cons_inv_2 in Hpre. destruct k as [|c'' k].
        + rewrite Hframe; [done|].
          intros k2 _ Hk2 Heq. apply (f_equal length) in Heq.
          rewrite !length_app in Heq. cbn in Heq. destruct k2; [done|cbn in Heq; lia].
        + specialize (Hdirs (c'' :: k) Hpre). rewrite <- app_assoc in Hdirs.
          by apply Hdirs.
      - intros q Hq. rewrite Hframe.
        + apply Hother. apply (Hq [c]); [by apply prefix_cons, prefix_nil|done].
        + intros k Hpre Hk' ->. rewrite <- app_assoc in Hq.
          apply (Hq (c :: k)); [by apply prefix_cons|done|done]. }
    destruct (Hk [c]) as [E|E]; [by apply prefix_cons, prefix_nil|done|..]; rewrite E.
    + apply Hstep; done.
    + apply Hstep; [apply lookup_insert_eq|].
      intros q Hq. by rewrite lookup_insert_ne.
Qed.

Lemma mkdirSync_spec m dest :
  Forall (λ c, c ≠ "") dest →
  (∀ q, q `prefix_of` dest → q ≠ [] → m !! q = Some Dir ∨ m !! q = None) →
  ∃ m', mkdirSync m dest = Done m'
        ∧ real_dirs m' dest
        ∧ (∀ q, (q = [] ∨ ¬ q `prefix_of` dest) → m' !! q = m !! q).
Proof.
  intros Hne Hq. destruct (mkdirp_spec dest m [] Hne Hq) as (m' & Hrun & Hd & Hf).
  exists m'. split_and!; [done|exact Hd|].
  intros q Hcase. apply Hf. intros k Hpre Hk ->. cbn [app] in Hcase.
  destruct Hcase; done.
Qed.

Lemma child_name_spec q k c : child_name q k = Some c ↔ k = q ++ [c].
Proof.
  revert k. induction q as [|a q IH]; intros k.
  - destruct k as [|b [|b' k]]; cbn; split; try done; by intros [= ->].
  - destruct k as [|b k]; cbn; [split; done|].
    destruct (decide (a = b)) as [->|Hne].
    + rewrite IH. split; [by intros ->|by intros [= ->]].
    + split; [done|]. intros [= -> _]. done.
Qed.

Lemma readdirSync_spec m p :
  Forall (λ c, c ≠ "") p → real_dirs m p →
  ∃ files, readdirSync m p = Done files
           ∧ NoDup files
           ∧ (∀ c, c ∈ files ↔ is_Some (m !! (p ++ [c]))).
Proof.
  intros Hne Hd. unfold readdirSync. rewrite locate_dir, node_at_dir by done.
  eexists. split_and!; [reflexivity| |].
  - assert (Hnd := NoDup_fst_map_to_list m).
    induction (map_to_list m) as [|[k n] l IH]; [constructor|].
    cbn [omap list_omap fst]. cbn [fmap list_fmap fst] in Hnd.
    apply NoDup_cons in Hnd as [Hk Hnd].
    destruct (child_name p k) as [c|] eqn:E; [|by apply IH].
    apply NoDup_cons. split; [|by apply IH].
    intros Hin. apply list_elem_of_omap in Hin as ([k' n'] & Hin & E').
    apply child_name_spec in E, E'. cbn in E'. subst.
    apply Hk. apply list_elem_of_fmap. by exists (p ++ [c], n').
  - intros c. rewrite list_elem_of_omap. split.
    + intros ([k n] & Hin & E). apply child_name_spec in E. cbn in E. subst.
      apply elem_of_map_to_list in Hin. eauto.
    + intros [n Hn]. exists (p ++ [c], n).
      split; [by apply elem_of_map_to_list|by apply child_name_spec].
Qed.

Lemma readFileSync_child m p c data :
  Forall (λ c, c ≠ "") p → c ≠ "" → real_dirs m p →
  m !! (p ++ [c]) = Some (File data) →
  readFileSync m (p ++ [c]) = Done data.
Proof.
  intros Hne Hc Hd Hn. unfold readFileSync.
  rewrite locate_child; [|done..|].
  - by rewrite node_at_snoc, Hn.
  - intros t. by rewrite Hn.
Qed.

Lemma copyFileSync_fresh m sp sc dp dc data :
  Forall (λ c, c ≠ "") sp → sc ≠ "" → real_dirs m sp →
  m !! (sp ++ [sc]) = Some (File data) →
  Forall (λ c, c ≠ "") dp → dc ≠ "" → real_dirs m dp →
  m !! (dp ++ [dc]) = None →
  copyFileSync m (sp ++ [sc]) (dp ++ [dc]) = Done (<[dp ++ [dc] := File data]> m).
Proof.
  intros ? ? ? Hs ? ? ? Hd. unfold copyFileSync.
  rewrite (readFileSync_child _ _ _ data) by done.
  rewrite locate_child; [|done..|].
  - by rewrite node_at_snoc, Hd.
  - intros t. by rewrite Hd.
Qed.

(** ** The order of the events of a copy *)

Lemma dirs_first_mono t : ∀ made made',
  made ⊆ made' → dirs_first made t = true → dirs_first made' t = true.
Proof.
  induction t as [|ev t IH]; intros made made' Hsub; [done|].
  destruct ev; cbn [dirs_first]; try by apply IH.
  - apply IH. intros x. rewrite !elem_of_cons. intros [?|?]; [by left|right; by apply Hsub].
  - rewrite !andb_true_iff, !bool_decide_eq_true.
    intros [Hin Hrest]. split; [by apply Hsub|by eapply IH].
Qed.

Lemma dirs_first_app t1 : ∀ made t2,
  dirs_first made t1 = true →
  (∀ made', made ⊆ made' → dirs_first made' t2 = true) →
  dirs_first made (t1 ++ t2) = true.
Proof.
  induction t1 as [|ev t1 IH]; intros made t2 H1 H2; [by apply H2|].
  destruct ev; cbn [dirs_first app] in *; try by apply IH.
  - apply IH; [done|]. intros made' Hsub. apply H2.
    intros x Hx. apply Hsub. by right.
  - apply andb_true_iff in H1 as [Hd H1]. rewrite Hd. by apply IH.
Qed.


(** ** The recursive copy *)

Lemma bind_mkdir_done {B : Type} (p : path) (k : unit → M B) (m m' : fsmap) :
  mkdirSync m p = Done m' →
  bind (fs_mkdirSync p) k m
  = Result (outcome (k tt m')) (state (k tt m')) (MkdirCall p :: trace (k tt m')).
Proof.
  intros E. unfold fs_mkdirSync, bind, emit, try_update. cbn [outcome state trace].
  rewrite E. reflexivity.
Qed.

Lemma copyFile_done (s d : path) (m m' : fsmap) :
  copyFileSync m s d = Done m' →
  fs_copyFileSync s d m = Result (Normal tt) m' [CopyFileCall s d].
Proof.
  intros E. unfold fs_copyFileSync, bind, emit, try_update. cbn [outcome state trace].
  rewrite E. reflexivity.
Qed.

Lemma copyRecursiveSync_S room src dest m :
  copyRecursiveSync (S room) src dest m
  = bind (fs_existsSync dest) (λ present,
      bind (if negb present then fs_mkdirSync dest else ret tt) (λ _,
        bind (fs_readdirSync src) (λ files,
          forEach files (λ file,
            bind (fs_statSync (join src file)) (λ stat,
              if isDirectory stat
              then copyRecursiveSync room (join src file) (join dest file)
              else fs_copyFileSync (join src file) (join dest file)))))) m.
Proof. reflexivity. Qed.

Lemma prefix_snoc_inv (q p : path) c :
  q `prefix_of` p ++ [c] → q `prefix_of` p ∨ q = p ++ [c].
Proof.
  intros [k Hk]. destruct k as [|x k _] using rev_ind.
  - right. by rewrite app_nil_r in Hk.
  - left. rewrite app_assoc in Hk. apply app_inj_tail in Hk as [-> _].
    by apply prefix_app_r.
Qed.

Lemma prefix_drop (p q : path) : p `prefix_of` q → q = p ++ drop (length p) q.
Proof. intros [k ->]. by rewrite drop_app_length. Qed.

Lemma apart_nonempty src dest : apart src dest → src ≠ [] ∧ dest ≠ [].
Proof.
  intros [H1 H2]. split; intros ->; [apply H1|apply H2]; apply prefix_nil.
Qed.

Lemma apart_under src dest r : apart src dest → ¬ dest `prefix_of` src ++ r.
Proof.
  intros [H1 H2] Hp.
  destruct (prefix_weak_total src dest (src ++ r)) as [?|?];
    [by apply prefix_app_r|done|done|done].
Qed.

Lemma apart_snoc src dest c : apart src dest → apart (src ++ [c]) (dest ++ [c]).
Proof.
  intros [H1 H2]. split; intros Hp.
  - apply prefix_app_l in Hp. apply prefix_snoc_inv in Hp as [?| ->]; [done|].
    apply H2. by apply prefix_app_r.
  - apply prefix_app_l in Hp. apply prefix_snoc_inv in Hp as [?| ->]; [done|].
    apply H1. by apply prefix_app_r.
Qed.

(** Below a name that is not a directory the tree holds nothing. *)
Lemma below_non_dir m src room c :
  tree_below m src room → m !! (src ++ [c]) ≠ Some Dir →
  ∀ r, r ≠ [] → m !! (src ++ c :: r) = None.
Proof.
  intros Htree Hc r. induction r as [|x r IH] using rev_ind; [done|]. intros _.
  destruct (m !! (src ++ c :: r ++ [x])) as [n|] eqn:E; [|done]. exfalso.
  destruct (Htree _ _ E) as (_ & _ & Hparent & _).
  - by apply prefix_app_r.
  - intros Heq. apply (f_equal length) in Heq. rewrite !length_app in Heq.
    cbn in Heq. lia.
  - replace (src ++ c :: r ++ [x]) with ((src ++ c :: r) ++ [x]) in Hparent
      by (by rewrite <- app_assoc).
    rewrite removelast_last in Hparent.
    destruct r as [|y r]; [done|]. rewrite IH in Hparent; done.
Qed.

Lemma plain_components p : Forall plain p → Forall (λ c, c ≠ "") p.
Proof. intros H. eapply Forall_impl; [exact H|]. by intros c (? & _). Qed.

Section copy_loop.
Context (room : nat) (src dest : path) (m m1 : fsmap).
Hypothesis Hrec : ∀ src' dest' m0,
  copy_ready m0 src' dest' room → copy_done m0 src' dest' room.
Hypothesis Hsrc : Forall plain src.
Hypothesis Hdest : Forall plain dest.
Hypothesis Hapart : apart src dest.
Hypothesis Htree : tree_below m src (S room).
Hypothesis Hm1_src : ∀ r, m1 !! (src ++ r) = m !! (src ++ r).
Hypothesis Hm1_srcdirs : real_dirs m1 src.
Hypothesis Hm1_dest : real_dirs m1 dest.

Local Abbreviation entry := (λ file : string,
  bind (fs_statSync (join src file)) (λ stat,
    if isDirectory stat
    then copyRecursiveSync room (join src file) (join dest file)
    else fs_copyFileSync (join src file) (join dest file))).

Lemma inv_under_src mi seen r :
  loop_inv m m1 src dest mi seen → mi !! (src ++ r) = m !! (src ++ r).
Proof.
  intros (I1 & _). rewrite I1; [apply Hm1_src|by apply apart_under].
Qed.

Lemma inv_real_src mi seen : loop_inv m m1 src dest mi seen → real_dirs mi src.
Proof.
  intros (I1 & _) q Hq Hne. rewrite I1; [by apply Hm1_srcdirs|].
  intros Hd. destruct Hapart as [_ H2]. apply H2. by etrans.
Qed.

Lemma inv_real_dest mi seen : loop_inv m m1 src dest mi seen → real_dirs mi dest.
Proof.
  intros (I1 & I2 & _) q Hq Hne.
  destruct (decide (q = dest)) as [->|Hqd]; [done|].
  rewrite I1; [by apply Hm1_dest|].
  intros Hd. apply Hqd. by apply (anti_symm prefix).
Qed.

Lemma copy_entry_step mi seen c n :
  loop_inv m m1 src dest mi seen → c ∉ seen → m !! (src ++ [c]) = Some n →
  ∃ m' t, entry c mi = Result (Normal tt) m' t
          ∧ loop_inv m m1 src dest m' (seen ++ [c])
          ∧ (∀ made, dest ∈ made → dirs_first made t = true).
Proof.
  intros Hinv Hc Hn.
  pose proof (inv_real_src _ _ Hinv) as Hrs.
  pose proof (inv_real_dest _ _ Hinv) as Hrd.
  pose proof (apart_nonempty _ _ Hapart) as [Hsne Hdne].
  destruct (Htree _ _ Hn) as (Hplain & Hlink & _ & Hlen).
  { by apply prefix_app_r. }
  { intros Heq. apply (f_equal length) in Heq. rewrite length_app in Heq. cbn in Heq. lia. }
  assert (Hpc : plain c).
  { apply Forall_app in Hplain as [_ Hpc]. by inversion Hpc. }
  assert (Hcne : c ≠ "") by (by destruct Hpc).
  rewrite !join_plain by done.
  assert (Hmi_c : mi !! (src ++ [c]) = Some n) by (by rewrite (inv_under_src _ seen)).
  unfold fs_statSync.
  rewrite (bind_try_query_done _ _ _ _ _ n);
    [|by apply inspect_child; [apply plain_components|..]].
  destruct Hinv as (I1 & I2 & I3 & I4).
  assert (Hfresh : ∀ c' r, c' ≠ c → ¬ (dest ++ [c]) `prefix_of` dest ++ c' :: r).
  { intros c' r Hne Hp. apply prefix_app_inv in Hp.
    apply prefix_cons_inv_1 in Hp. congruence. }
  assert (Hnotanc : ∀ c' r, c' ≠ c → ¬ dest ++ c' :: r `prefix_of` dest ++ [c]).
  { intros c' r Hne Hp. apply prefix_app_inv in Hp.
    apply prefix_cons_inv_1 in Hp. congruence. }
  destruct n as [data| |t]; [| |done]; cbn [isDirectory].
  - (* a regular file *)
    assert (Hcopy : copyFileSync mi (src ++ [c]) (dest ++ [c])
                    = Done (<[dest ++ [c] := File data]> mi)).
    { apply copyFileSync_fresh; try done; try by apply plain_components.
      apply (I4 c []). done. }
    rewrite (copyFile_done _ _ _ _ Hcopy). do 2 eexists. split; [reflexivity|].
    split.
    + split_and!.
      * intros q Hq. rewrite lookup_insert_ne; [by apply I1|].
        intros <-. apply Hq. by apply prefix_app_r.
      * rewrite lookup_insert_ne; [done|].
        intros Heq. apply (f_equal length) in Heq. rewrite length_app in Heq.
        cbn in Heq. lia.
      * intros c' r Hin. apply elem_of_app in Hin as [Hin|Hin].
        -- rewrite lookup_insert_ne; [by apply I3|].
           intros Heq. apply app_inv_head in Heq. injection Heq as -> _. done.
        -- apply list_elem_of_singleton in Hin as ->. destruct r as [|x r].
           ++ by rewrite lookup_insert_eq.
           ++ rewrite lookup_insert_ne.
              ** rewrite (I4 c (x :: r) Hc). symmetry.
                 eapply below_non_dir; [exact Htree| |done]. by rewrite Hn.
              ** intros Heq. apply app_inv_head in Heq. discriminate.
      * intros c' r Hin. apply not_elem_of_app in Hin as [Hin Hne].
        rewrite lookup_insert_ne; [by apply I4|].
        intros Heq. apply app_inv_head in Heq. injection Heq as -> _.
        apply Hne. by left.
    + intros made Hmade. cbn [dirs_first]. rewrite removelast_last.
      rewrite bool_decide_eq_true_2 by done. reflexivity.
  - (* a directory *)
    destruct (Hrec (src ++ [c]) (dest ++ [c]) mi) as (m' & t & Hrun & Hg & Ht).
    { split_and!.
      - done.
      - apply Forall_app. split; [done|by apply Forall_singleton].
      - by apply apart_snoc.
      - rewrite length_app in Hlen. cbn in Hlen. lia.
      - intros q Hq Hne. apply prefix_snoc_inv in Hq as [Hq| ->]; [by apply Hrs|done].
      - intros k n' Hk Hpre Hkne.
        destruct Hpre as [r ->]. rewrite <- app_assoc in Hk.
        rewrite (inv_under_src _ seen) in Hk by done.
        destruct (Htree _ _ Hk) as (Hp' & Hl' & Hpar & Hlen').
        { by apply prefix_app_r. }
        { intros Heq. apply (f_equal length) in Heq. rewrite !length_app in Heq.
          cbn in Heq. lia. }
        split_and!; [by rewrite <- app_assoc|done| |].
        + destruct r as [|x r _] using rev_ind; [by rewrite app_nil_r in Hkne|].
          rewrite app_assoc, removelast_last.
          rewrite !app_assoc, removelast_last in Hpar.
          rewrite <- !app_assoc. rewrite <- !app_assoc in Hpar.
          by rewrite (inv_under_src _ seen).
        + rewrite !length_app in *. cbn in *. lia.
      - intros q Hq Hne. apply prefix_snoc_inv in Hq as [Hq| ->].
        + left. by apply Hrd.
        + right. by apply (I4 c []).
      - intros q [r ->]. rewrite <- app_assoc. by apply I4. }
    rewrite Hrun. do 2 eexists. split; [reflexivity|]. split.
    + split_and!.
      * intros q Hq. rewrite Hg. unfold grafted.
        rewrite decide_False.
        2:{ intros Hp. apply Hq. apply prefix_app_l in Hp. done. }
        case_decide as Hanc; [|by apply I1].
        destruct Hanc as [Hanc Hqne]. symmetry. apply Hm1_dest; [|done].
        apply prefix_snoc_inv in Hanc as [?| ->]; [done|].
        destruct Hq. by apply prefix_app_r.
      * rewrite Hg. unfold grafted. rewrite decide_False by apply prefix_snoc_not.
        rewrite decide_True; [done|]. split; [by apply prefix_app_r|done].
      * intros c' r Hin. rewrite Hg. unfold grafted.
        apply elem_of_app in Hin as [Hin|Hin].
        -- assert (c' ≠ c) by congruence.
           rewrite decide_False by (by apply Hfresh).
           rewrite decide_False; [by apply I3|].
           intros [Hp _]. by apply Hnotanc in Hp.
        -- apply list_elem_of_singleton in Hin as ->.
           rewrite decide_True.
           2:{ exists r. by rewrite <- app_assoc. }
           replace (dest ++ c :: r) with ((dest ++ [c]) ++ r) by (by rewrite <- app_assoc).
           rewrite drop_app_length. rewrite <- app_assoc.
           by rewrite (inv_under_src _ seen).
      * intros c' r Hin. apply not_elem_of_app in Hin as [Hin Hne].
        assert (c' ≠ c) by (intros ->; apply Hne; by left).
        rewrite Hg. unfold grafted.
        rewrite decide_False by (by apply Hfresh).
        rewrite decide_False; [by apply I4|].
        intros [Hp _]. by apply Hnotanc in Hp.
    + intros made Hmade. cbn [dirs_first]. apply Ht. by left.
Qed.

Lemma copy_loop todo : ∀ seen mi,
  NoDup todo → (∀ c, c ∈ todo → c ∉ seen) →
  (∀ c, c ∈ todo → is_Some (m !! (src ++ [c]))) →
  loop_inv m m1 src dest mi seen →
  ∃ m' t, forEach todo entry mi = Result (Normal tt) m' t
          ∧ loop_inv m m1 src dest m' (seen ++ todo)
          ∧ (∀ made, dest ∈ made → dirs_first made t = true).
Proof.
  induction todo as [|c todo IH]; intros seen mi Hnd Hnew Hsome Hinv.
  - exists mi, []. rewrite app_nil_r. done.
  - apply NoDup_cons in Hnd as [Hc Hnd].
    destruct (Hsome c) as [n Hn]; [by left|].
    destruct (copy_entry_step mi seen c n Hinv) as (m2 & t2 & Hrun2 & Hinv2 & Ht2);
      [apply Hnew; by left|done|].
    destruct (IH (seen ++ [c]) m2 Hnd) as (m3 & t3 & Hrun3 & Hinv3 & Ht3); [| |done|].
    { intros c' Hin Hseen. apply elem_of_app in Hseen as [Hseen|Hseen].
      - apply (Hnew c'); [by right|done].
      - apply list_elem_of_singleton in Hseen as ->. done. }
    { intros c' Hin. apply Hsome. by right. }
    exists m3, (t2 ++ t3). split_and!.
    + rewrite forEach_cons_normal by (by rewrite Hrun2).
      rewrite Hrun2. cbn [state trace]. by rewrite Hrun3.
    + by rewrite <- app_assoc in Hinv3.
    + intros made Hmade. apply dirs_first_app; [by apply Ht2|].
      intros made' Hsub. apply Ht3. by apply Hsub.
Qed.
End copy_loop.

Lemma copy_correct room : ∀ src dest m,
  copy_ready m src dest room → copy_done m src dest room.
Proof.
  induction room as [|room IH];
    intros src dest m (Hsrc & Hdest & Hap & Hroom & Hrs & Htree & Hanc & Hfree);
    [lia|].
  destruct (apart_nonempty _ _ Hap) as [Hsne Hdne].
  pose proof (plain_components _ Hsrc) as Hsrc'.
  pose proof (plain_components _ Hdest) as Hdest'.
  unfold copy_done. rewrite copyRecursiveSync_S.
  unfold fs_existsSync. rewrite bind_query.
  rewrite exists_absent by (try done; by apply Hfree).
  cbn [negb].
  destruct (mkdirSync_spec m dest Hdest' Hanc) as (m1 & Hmk & Hm1d & Hm1f).
  rewrite (bind_mkdir_done _ _ _ m1 Hmk). cbn [outcome state trace].
  assert (Hm1_src : ∀ r, m1 !! (src ++ r) = m !! (src ++ r)).
  { intros r. apply Hm1f. right. intros Hp. destruct Hap as [H1 _].
    apply H1. by apply prefix_app_l in Hp. }
  assert (Hm1s : real_dirs m1 src).
  { intros q Hq Hne. destruct (decide (q `prefix_of` dest)); [by apply Hm1d|].
    rewrite Hm1f by (by right). by apply Hrs. }
  destruct (readdirSync_spec m1 src Hsrc' Hm1s) as (files & Hrd & Hnd & Hfiles).
  unfold fs_readdirSync. rewrite (bind_try_query_done _ _ _ _ _ files Hrd).
  destruct (copy_loop room src dest m m1 IH Hsrc Hdest Hap Htree Hm1_src Hm1s Hm1d
              files [] m1 Hnd) as (m' & t & Hrun & Hinv & Ht).
  { intros c _. apply not_elem_of_nil. }
  { intros c Hc. apply Hfiles in Hc. by rewrite Hm1_src in Hc. }
  { split_and!.
    - done.
    - by apply Hm1d.
    - intros c r Hin. by apply elem_of_nil in Hin.
    - intros c r _. rewrite Hm1f.
      + apply Hfree. by apply prefix_app_r.
      + right. intros Hp. apply prefix_length in Hp. rewrite length_app in Hp.
        cbn in Hp. lia. }
  rewrite Hrun. cbn [outcome state trace app]. exists m', t.
  split; [reflexivity|]. split; [|exact Ht].
  destruct Hinv as (I1 & I2 & I3 & I4). cbn [app] in I3, I4.
  intros q. unfold grafted. case_decide as Hq.
  - destruct Hq as [r ->]. rewrite drop_app_length. destruct r as [|c r].
    + rewrite !app_nil_r, I2. symmetry. by apply Hrs.
    + destruct (decide (c ∈ files)) as [Hin|Hin]; [by apply I3|].
      rewrite I4 by done. symmetry.
      assert (Hnone : m !! (src ++ [c]) = None).
      { rewrite <- Hm1_src. apply eq_None_not_Some. by rewrite <- Hfiles. }
      destruct r as [|x r]; [done|].
      eapply below_non_dir; [exact Htree|by rewrite Hnone|done].
  - rewrite I1 by done. case_decide as Hanc'.
    + destruct Hanc'. by apply Hm1d.
    + apply Hm1f. destruct (decide (q = [])); [by left|right].
      intros Hp. apply Hanc'. done.
Qed.

Lemma elem_of_ancestors (q p : path) :
  q ∈ ancestors p ↔ q `prefix_of` p ∧ q ≠ [].
Proof.
  unfold ancestors. rewrite list_elem_of_fmap. split.
  - intros (n & -> & Hn). apply elem_of_seq in Hn. split; [apply prefix_take|].
    intros Heq. apply (f_equal length) in Heq. rewrite length_take in Heq.
    cbn in Heq. lia.
  - intros [[k ->] Hne]. exists (length q). split.
    + by rewrite take_app_length.
    + apply elem_of_seq. rewrite length_app. destruct q; [done|cbn; lia].
Qed.





(** ** Idempotence *)

(** ** Store entries in real directories *)

Lemma real_dirs_ancestors m p :
  real_dirs m p ↔ Forall (λ q, m !! q = Some Dir) (ancestors p).
Proof.
  rewrite Forall_forall. unfold real_dirs. split.
  - intros H q Hq. apply elem_of_ancestors in Hq as [? ?]. by apply H.
  - intros H q Hq Hne. apply H. by apply elem_of_ancestors.
Qed.

Lemma locate_entry m p c :
  Forall (λ c, c ≠ "") p → c ≠ "" → real_dirs m p →
  locate m false (p ++ [c]) = Done (p ++ [c]).
Proof.
  intros Hne Hc Hd. unfold locate. rewrite walk_dirs by done.
  rewrite walk_cons, decide_False by done. cbn [app].
  destruct (m !! (p ++ [c])) as [[| |t]|]; [done|apply walk_nil|done|done].
Qed.

Lemma lstat_entry m p c :
  Forall (λ c, c ≠ "") p → c ≠ "" → real_dirs m p →
  lstatSync m (p ++ [c])
  = match m !! (p ++ [c]) with Some n => Done n | None => Fail ENOENT end.
Proof.
  intros Hne Hc Hd. unfold lstatSync, inspect.
  by rewrite locate_entry, node_at_snoc.
Qed.

Lemma exists_entry_link m p c t :
  Forall (λ c, c ≠ "") p → c ≠ "" → real_dirs m p →
  m !! (p ++ [c]) = Some (Symlink t) →
  Forall (λ c, c ≠ "") t → real_dirs m t →
  existsSync m (p ++ [c]) = true.
Proof.
  intros Hne Hc Hd Hl Ht Htd. unfold existsSync, statSync, inspect, locate.
  rewrite walk_dirs by done. rewrite walk_cons, decide_False by done.
  cbn [app]. rewrite Hl. cbn [is_nil negb andb].
  change MAXSYMLINKS with (S 39). cbv iota.
  rewrite walk_dirs, walk_nil by done. cbn [app].
  by rewrite node_at_dir.
Qed.

Lemma exists_entry_plain m p c n :
  Forall (λ c, c ≠ "") p → c ≠ "" → real_dirs m p →
  m !! (p ++ [c]) = Some n → isSymbolicLink n = false →
  existsSync m (p ++ [c]) = true.
Proof.
  intros. unfold existsSync, statSync. by rewrite (inspect_child _ _ _ _ n).
Qed.

Lemma rmSync_entry m p c q :
  Forall (λ c, c ≠ "") p → c ≠ "" → real_dirs m p →
  rmSync m (p ++ [c]) !! q
  = if decide ((p ++ [c]) `prefix_of` q) then None else m !! q.
Proof.
  intros Hne Hc Hd. unfold rmSync. rewrite locate_entry by done.
  case_decide as Hq.
  - apply map_lookup_filter_None. right. intros n _ Hn. by apply Hn.
  - destruct (m !! q) as [n|] eqn:E.
    + by apply map_lookup_filter_Some.
    + apply map_lookup_filter_None. by left.
Qed.

Lemma symlink_gate_settled m p c :
  Forall (λ c, c ≠ "") p → c ≠ "" → real_dirs m p →
  not_link (m !! (p ++ [c])) →
  symlink_gate m (p ++ [c]) = false.
Proof.
  intros Hne Hc Hd Hn. unfold symlink_gate. rewrite lstat_entry by done.
  destruct (m !! (p ++ [c])) as [[| |t]|]; try apply andb_false_r. done.
Qed.

Lemma symlink_gate_link m p c t :
  Forall (λ c, c ≠ "") p → c ≠ "" → real_dirs m p →
  m !! (p ++ [c]) = Some (Symlink t) →
  Forall (λ c, c ≠ "") t → real_dirs m t →
  symlink_gate m (p ++ [c]) = true.
Proof.
  intros Hne Hc Hd Hl Ht Htd. unfold symlink_gate.
  rewrite (exists_entry_link _ _ _ t) by done.
  by rewrite lstat_entry, Hl.
Qed.

(** ** What a copy can touch *)

Lemma readdir_names m p files :
  readdirSync m p = Done files →
  NoDup files ∧ (names_ok m → Forall plain files).
Proof.
  unfold readdirSync. destruct (locate m true p) as [q|]; [|done].
  destruct (node_at m q) as [[| |]|]; try done. intros [= <-]. split.
  - assert (Hnd := NoDup_fst_map_to_list m).
    induction (map_to_list m) as [|[k n] l IH]; [constructor|].
    cbn [omap list_omap fst]. cbn [fmap list_fmap fst] in Hnd.
    apply NoDup_cons in Hnd as [Hk Hnd].
    destruct (child_name q k) as [c|] eqn:E; [|by apply IH].
    apply NoDup_cons. split; [|by apply IH].
    intros Hin. apply list_elem_of_omap in Hin as ([k' n'] & Hin & E').
    apply child_name_spec in E, E'. cbn in E'. subst.
    apply Hk. apply list_elem_of_fmap. by exists (q ++ [c], n').
  - intros Hok. apply Forall_forall. intros c Hc.
    apply list_elem_of_omap in Hc as ([k n] & Hin & E).
    apply child_name_spec in E. cbn in E. subst.
    apply elem_of_map_to_list in Hin. apply Hok in Hin.
    apply Forall_app in Hin as [_ Hin]. by inversion Hin.
Qed.

Lemma copyFileSync_into m s p c m' :
  Forall (λ c, c ≠ "") p → c ≠ "" → real_dirs m p →
  m !! (p ++ [c]) = None →
  copyFileSync m s (p ++ [c]) = Done m' →
  ∃ data, m' = <[p ++ [c] := File data]> m.
Proof.
  intros Hne Hc Hd Hnone. unfold copyFileSync.
  destruct (readFileSync m s) as [data|]; [|done].
  rewrite locate_child; [|done..|by rewrite Hnone].
  rewrite node_at_snoc, Hnone. intros [= <-]. by exists data.
Qed.

Lemma forEach_cons_state {A} (f : A → M unit) x rest m :
  state (forEach (x :: rest) f m)
  = match outcome (f x m) with
    | Normal _ => state (forEach rest f (state (f x m)))
    | Throw _ => state (f x m)
    end.
Proof. cbn [forEach]. unfold bind. by destruct (outcome (f x m)). Qed.

Lemma names_ok_insert m k n : names_ok m → Forall plain k → names_ok (<[k := n]> m).
Proof. intros Hm Hk. by apply map_Forall_insert_2. Qed.

Lemma prefix_removelast (q d : path) :
  q `prefix_of` d → q ≠ d → q `prefix_of` removelast d.
Proof.
  intros Hq Hne. destruct d as [|c d _] using rev_ind.
  - apply prefix_nil_inv in Hq. done.
  - rewrite removelast_last. apply prefix_snoc_inv in Hq as [?|?]; done.
Qed.

Lemma snoc_removelast (d : path) :
  d ≠ [] → ∃ p c, d = p ++ [c] ∧ removelast d = p.
Proof.
  intros Hne. destruct d as [|c d _] using rev_ind; [done|].
  exists d, c. by rewrite removelast_last.
Qed.

Lemma frame_inv_real_dest m1 dest mi seen :
  real_dirs m1 dest → frame_inv m1 dest mi seen → real_dirs mi dest.
Proof.
  intros Hd (I1 & I2 & _) q Hq Hne.
  destruct (decide (q = dest)) as [->|Hqd]; [done|].
  rewrite I1; [by apply Hd|].
  intros Hp. apply Hqd. by apply (anti_symm prefix).
Qed.

Lemma frame_inv_names m1 dest mi seen :
  names_ok m1 → frame_inv m1 dest mi seen → names_ok mi.
Proof.
  intros Hok (I1 & _ & I3 & _) k n Hk.
  destruct (decide (dest `prefix_of` k)) as [Hp|Hp].
  - by destruct (I3 k n Hk Hp).
  - rewrite I1 in Hk by done. by apply (Hok k n).
Qed.

Section frame_loop.
Context (room : nat) (src dest : path) (m1 : fsmap).
Hypothesis Hrec : ∀ src' dest' m0,
  Forall plain dest' → dest' ≠ [] → real_dirs m0 (removelast dest') →
  (∀ q, dest' `prefix_of` q → m0 !! q = None) → names_ok m0 →
  copy_framed m0 dest' (copyRecursiveSync room src' dest' m0).
Hypothesis Hdest : Forall plain dest.
Hypothesis Hm1_dest : real_dirs m1 dest.
Hypothesis Hm1_names : names_ok m1.

Local Abbreviation entry := (λ file : string,
  bind (fs_statSync (join src file)) (λ stat,
    if isDirectory stat
    then copyRecursiveSync room (join src file) (join dest file)
    else fs_copyFileSync (join src file) (join dest file))).

Lemma frame_entry_step mi seen c :
  frame_inv m1 dest mi seen → c ∉ seen → plain c →
  frame_inv m1 dest (state (entry c mi)) (seen ++ [c]).
Proof.
  intros Hinv Hc Hpc.
  pose proof (frame_inv_real_dest _ _ _ _ Hm1_dest Hinv) as Hrd.
  pose proof (frame_inv_names _ _ _ _ Hm1_names Hinv) as Hnames.
  pose proof (plain_components _ Hdest) as Hdest'.
  assert (Hcne : c ≠ "") by (by destruct Hpc).
  assert (Hweaken : frame_inv m1 dest mi (seen ++ [c])).
  { destruct Hinv as (I1 & I2 & I3 & I4). split_and!; [done..|].
    intros c' r Hin. apply I4. intros Hs. apply Hin, elem_of_app. by left. }
  destruct Hinv as (I1 & I2 & I3 & I4).
  assert (Hfresh : ∀ c' r, c' ≠ c → ¬ (dest ++ [c]) `prefix_of` dest ++ c' :: r).
  { intros c' r Hne Hp. apply prefix_app_inv in Hp.
    apply prefix_cons_inv_1 in Hp. congruence. }
  rewrite (join_plain dest c) by done.
  unfold fs_statSync, bind at 1, try_query.
  destruct (statSync mi (join src c)) as [st|e]; cbn [outcome state trace]; [|done].
  destruct (isDirectory st).
  - destruct (Hrec (join src c) (dest ++ [c]) mi) as (F1 & F2 & _).
    { apply Forall_app. split; [done|by apply Forall_singleton]. }
    { by destruct dest. }
    { by rewrite removelast_last. }
    { intros q [r ->]. rewrite <- app_assoc. by apply I4. }
    { done. }
    split_and!.
    + intros q Hq. rewrite F1; [by apply I1|].
      intros Hp. apply Hq. by apply prefix_app_l in Hp.
    + rewrite F1; [done|]. apply prefix_snoc_not.
    + intros k n Hk Hp.
      destruct (decide ((dest ++ [c]) `prefix_of` k)) as [Hp'|Hp'].
      * by apply (F2 k n).
      * rewrite F1 in Hk by done. by apply (I3 k n).
    + intros c' r Hin. apply not_elem_of_app in Hin as [Hin Hne].
      assert (c' ≠ c) by (intros ->; apply Hne; by left).
      rewrite F1 by (by apply Hfresh). by apply I4.
  - unfold fs_copyFileSync, bind, emit, try_update. cbn [outcome state trace].
    destruct (copyFileSync mi (join src c) (dest ++ [c])) as [m'|e] eqn:E;
      cbn [state]; [|done].
    apply copyFileSync_into in E as [data ->]; [|done..|by apply (I4 c [])].
    split_and!.
    + intros q Hq. rewrite lookup_insert_ne; [by apply I1|].
      intros <-. apply Hq. by apply prefix_app_r.
    + rewrite lookup_insert_ne; [done|].
      intros Heq. apply (f_equal length) in Heq. rewrite length_app in Heq.
      cbn in Heq. lia.
    + intros k n Hk Hp. destruct (decide (k = dest ++ [c])) as [->|Hne].
      * rewrite lookup_insert_eq in Hk. injection Hk as <-. split; [done|].
        apply Forall_app. split; [done|by apply Forall_singleton].
      * rewrite lookup_insert_ne in Hk by done. by apply (I3 k n).
    + intros c' r Hin. apply not_elem_of_app in Hin as [Hin Hne].
      rewrite lookup_insert_ne; [by apply I4|].
      intros Heq. apply app_inv_head in Heq. injection Heq as -> _.
      apply Hne. by left.
Qed.

Lemma frame_loop todo : ∀ seen mi,
  NoDup todo → (∀ c, c ∈ todo → c ∉ seen) → Forall plain todo →
  frame_inv m1 dest mi seen →
  ∃ seen', frame_inv m1 dest (state (forEach todo entry mi)) seen'.
Proof.
  induction todo as [|c todo IH]; intros seen mi Hnd Hnew Hplain Hinv.
  - by exists seen.
  - apply NoDup_cons in Hnd as [Hc Hnd]. apply Forall_cons in Hplain as [Hpc Hplain].
    pose proof (frame_entry_step mi seen c Hinv) as Hstep.
    rewrite forEach_cons_state.
    destruct (outcome (entry c mi)).
    + apply (IH (seen ++ [c])); [done| |done|].
      * intros c' Hin Hseen. apply elem_of_app in Hseen as [Hseen|Hseen].
        -- apply (Hnew c'); [by right|done].
        -- apply list_elem_of_singleton in Hseen as ->. done.
      * apply Hstep; [|done]. apply Hnew. by left.
    + exists (seen ++ [c]). apply Hstep; [|done]. apply Hnew. by left.
Qed.
End frame_loop.

Lemma copy_frame room : ∀ src dest m,
  Forall plain dest → dest ≠ [] → real_dirs m (removelast dest) →
  (∀ q, dest `prefix_of` q → m !! q = None) → names_ok m →
  copy_framed m dest (copyRecursiveSync room src dest m).
Proof.
  induction room as [|room IH]; intros src dest m Hdest Hne Hpar Hfree Hnames.
  - cbn [copyRecursiveSync]. unfold throw. split_and!; cbn [outcome state]; [done| |done].
    intros k n Hk Hp. by rewrite Hfree in Hk.
  - pose proof (plain_components _ Hdest) as Hdest'.
    assert (Hanc : ∀ q, q `prefix_of` dest → q ≠ [] →
               m !! q = Some Dir ∨ m !! q = None).
    { intros q Hq Hqne. destruct (decide (q = dest)) as [->|Hqd].
      - right. by apply Hfree.
      - left. apply Hpar; [by apply prefix_removelast|done]. }
    rewrite copyRecursiveSync_S. unfold fs_existsSync. rewrite bind_query.
    rewrite exists_absent by (try done; by apply Hfree). cbn [negb].
    destruct (mkdirSync_spec m dest Hdest' Hanc) as (m1 & Hmk & Hm1d & Hm1f).
    rewrite (bind_mkdir_done _ _ _ m1 Hmk). cbn [outcome state trace].
    assert (Hm1 : ∀ q, q ≠ dest → m1 !! q = m !! q).
    { intros q Hq. destruct (decide (q `prefix_of` dest ∧ q ≠ [])) as [[Hp Hqne]|Hn].
      - rewrite (Hm1d q Hp Hqne). symmetry.
        apply Hpar; [by apply prefix_removelast|done].
      - apply Hm1f. destruct (decide (q = [])); [by left|right].
        intros Hp. by apply Hn. }
    assert (Hm1_names : names_ok m1).
    { intros k n Hk. destruct (decide (k = dest)) as [->|Hkd]; [done|].
      rewrite Hm1 in Hk by done. by apply (Hnames k n). }
    assert (Hinv0 : frame_inv m1 dest m1 []).
    { split_and!.
      - done.
      - by apply Hm1d.
      - intros k n Hk Hp. destruct (decide (k = dest)) as [->|Hkd].
        + rewrite (Hm1d dest) in Hk by done. by injection Hk as <-.
        + rewrite Hm1 in Hk by done. by rewrite Hfree in Hk.
      - intros c r _. rewrite Hm1.
        + apply Hfree. by apply prefix_app_r.
        + intros Heq. apply (f_equal length) in Heq. rewrite length_app in Heq.
          cbn in Heq. lia. }
    assert (Hdone : ∀ mf seen, frame_inv m1 dest mf seen →
              ∀ o t, copy_framed m dest (Result o mf t)).
    { intros mf seen (I1 & I2 & I3 & I4) o t. split_and!; cbn [outcome state].
      - intros q Hq. rewrite I1 by done. apply Hm1. by intros ->.
      - done.
      - done. }
    unfold fs_readdirSync.
    destruct (readdirSync m1 src) as [files|e] eqn:Hrd.
    + rewrite (bind_try_query_done _ _ _ _ _ files Hrd).
      destruct (readdir_names _ _ _ Hrd) as [Hnd Hpl].
      destruct (frame_loop room src dest m1 IH Hdest Hm1d Hm1_names files [] m1 Hnd)
        as [seen' Hinv'].
      { intros c _. apply not_elem_of_nil. }
      { by apply Hpl. }
      { done. }
      by eapply Hdone.
    + rewrite (bind_try_query_fail _ _ _ _ _ e Hrd). cbn [outcome state trace].
      by eapply Hdone.
Qed.

(** ** What one dependency can touch *)

Lemma copy_framed_names m dest r :
  names_ok m → copy_framed m dest r → names_ok (state r).
Proof.
  intros Hok (F1 & F2 & _) k n Hk.
  destruct (decide (dest `prefix_of` k)) as [Hp|Hp].
  - by destruct (F2 k n Hk Hp).
  - rewrite F1 in Hk by done. by apply (Hok k n).
Qed.

Lemma install_frame h d dev silent m :
  npm_confined h →
  (∀ q, ¬ d `prefix_of` q ∨ q = d →
        state (installDependencies h d dev silent m) !! q = m !! q)
  ∧ (names_ok m → Forall plain d →
     names_ok (state (installDependencies h d dev silent m))).
Proof.
  intros Hnpm.
  destruct (existsSync m (join d "package.json")) eqn:E1.
  - destruct (existsSync m (join d "node_modules")) eqn:E2.
    + rewrite install_store_present by done. by rewrite state_log.
    + rewrite install_runs by done. cbn [state]. apply Hnpm.
  - rewrite install_no_manifest by done. by rewrite state_log.
Qed.

Lemma exists_entry_none m p c :
  Forall (λ c, c ≠ "") p → c ≠ "" → real_dirs m p →
  m !! (p ++ [c]) = None → existsSync m (p ++ [c]) = false.
Proof.
  intros Hne Hc Hd Hnone. apply exists_absent; [by destruct p| |  |done].
  - apply Forall_app. split; [done|by apply Forall_singleton].
  - intros q Hq Hqne. apply prefix_snoc_inv in Hq as [Hq| ->]; [left|by right].
    by apply Hd.
Qed.

Lemma unlinkOne_frame h silent noInstall dev root nm name v all mi :
  npm_confined h → names_ok mi → steady mi all (join nm name) →
  let r := unlinkOne h silent noInstall dev root nm (name, JStr v) mi in
  (∀ q, ¬ join nm name `prefix_of` q → state r !! q = mi !! q)
  ∧ names_ok (state r)
  ∧ (outcome r = Normal tt → not_link (state r !! join nm name)).
Proof.
  intros Hnpm Hnames (Hpl & Hne & Hpar & Hnode) r.
  apply real_dirs_ancestors in Hpar.
  destruct (snoc_removelast _ Hne) as (p & c & Hd & Hp). rewrite Hp in Hpar.
  assert (Forall (λ c, c ≠ "") p ∧ c ≠ "") as [Hpne Hcne].
  { apply plain_components in Hpl. rewrite Hd in Hpl.
    apply Forall_app in Hpl as [? Hc]. split; [done|by inversion Hc]. }
  destruct (mi !! join nm name) as [n|] eqn:En.
  - destruct (isSymbolicLink n) eqn:El.
    + (* a link: the entry is replaced *)
      destruct n as [| |t]; try discriminate. destruct Hnode as (Ht & Htd & Hout).
      apply real_dirs_ancestors in Htd.
      assert (G : symlink_gate mi (join nm name) = true).
      { rewrite Hd. rewrite Hd in En. by apply (symlink_gate_link _ _ _ t). }
      subst r. rewrite unlinkOne_symlink by done.
      rewrite bind_log, bind_rm. cbn [outcome state trace].
      set (mrm := rmSync mi (join nm name)).
      assert (Hrm : ∀ q, mrm !! q
                = if decide (join nm name `prefix_of` q) then None else mi !! q).
      { intros q. subst mrm. rewrite Hd. by apply rmSync_entry. }
      assert (Hrm_names : names_ok mrm).
      { intros k n Hk. rewrite Hrm in Hk. case_decide; [done|]. by apply (Hnames k n). }
      set (copied := copyRecursiveSync (stack_room h) (resolve root (strip_file v))
                       (join nm name) mrm).
      assert (Hcf : copy_framed mrm (join nm name) copied).
      { apply copy_frame; try done.
        - rewrite Hp. intros q Hq Hqne. rewrite Hrm, decide_False; [by apply Hpar|].
          intros Hpre. rewrite Hd in Hpre.
          assert (p ++ [c] `prefix_of` p) by (by etrans).
          by eapply prefix_snoc_not.
        - intros q Hq. by rewrite Hrm, decide_True. }
      pose proof (copy_framed_names _ _ _ Hrm_names Hcf) as Hcn.
      destruct Hcf as (F1 & F2 & F3).
      assert (Hout1 : ∀ q, ¬ join nm name `prefix_of` q → state copied !! q = mi !! q).
      { intros q Hq. by rewrite F1, Hrm, decide_False. }
      destruct (outcome copied) as [[]|e] eqn:Ho.
      * rewrite (bind_normal _ _ _ tt) by exact Ho. fold copied. cbn [outcome state trace].
        destruct noInstall; cbn [negb].
        -- cbn [ret outcome state]. split_and!; [done|done|].
           intros _. by rewrite F3.
        -- destruct (install_frame h (join nm name) dev silent (state copied) Hnpm)
             as [Hif Hin].
           split_and!.
           ++ intros q Hq. rewrite Hif by (by left). by apply Hout1.
           ++ by apply Hin.
           ++ intros _. rewrite Hif by (by right). by rewrite F3.
      * rewrite (bind_thrown _ _ _ e) by exact Ho. fold copied. cbn [outcome state trace].
        split_and!; [done|done|discriminate].
    + (* a real entry: the call only logs *)
      subst r. rewrite unlinkOne_physical.
      * rewrite state_log, En. split_and!; [done|done|].
        intros _. by destruct n.
      * rewrite Hd. rewrite Hd in En. by apply (exists_entry_plain _ _ _ n).
      * rewrite Hd. rewrite Hd in En. apply symlink_gate_settled; try done.
        rewrite En. by destruct n.
  - subst r. rewrite unlinkOne_absent.
    + rewrite state_log, En. done.
    + rewrite Hd. rewrite Hd in En. by apply exists_entry_none.
Qed.

(** ** A run over separate store entries *)

Lemma steady_frame m m' all d d' :
  steady m all d' → (∀ q, ¬ d `prefix_of` q → m' !! q = m !! q) →
  apart d d' → d ∈ all → steady m' all d'.
Proof.
  intros (Hpl & Hne & Hpar & Hnode) Hframe [Hdd' Hd'd] Hin.
  assert (Hkeep : ∀ p, ¬ d `prefix_of` p →
            Forall (λ q, m !! q = Some Dir) (ancestors p) →
            Forall (λ q, m' !! q = Some Dir) (ancestors p)).
  { intros p Hp Hall. apply Forall_forall. intros q Hq.
    rewrite Forall_forall in Hall. rewrite Hframe; [by apply Hall|].
    apply elem_of_ancestors in Hq as [Hq _]. intros Hdq. apply Hp. by etrans. }
  split_and!; [done|done| |].
  - apply Hkeep; [|done]. intros Hp. apply Hdd'.
    etrans; [exact Hp|]. destruct (snoc_removelast _ Hne) as (p & c & -> & ->).
    by apply prefix_app_r.
  - rewrite Hframe by done. destruct (m !! d') as [[| |t]|]; try done.
    destruct Hnode as (Ht & Htd & Hout). split_and!; [done| |done].
    apply Hkeep; [|done]. rewrite Forall_forall in Hout. by apply Hout.
Qed.

Lemma run_settles h silent noInstall dev root nm all :
  npm_confined h → ∀ l mi,
  Forall (λ e, ∃ v, e.2 = JStr v) l →
  all_apart (dest_of nm <$> l) → (∀ e, e ∈ l → dest_of nm e ∈ all) →
  Forall (steady mi all) (dest_of nm <$> l) → names_ok mi →
  outcome (forEach l (unlinkOne h silent noInstall dev root nm) mi) = Normal tt →
  (∀ q, (∀ e, e ∈ l → ¬ dest_of nm e `prefix_of` q) →
        state (forEach l (unlinkOne h silent noInstall dev root nm) mi) !! q = mi !! q)
  ∧ names_ok (state (forEach l (unlinkOne h silent noInstall dev root nm) mi))
  ∧ (∀ e, e ∈ l →
       not_link (state (forEach l (unlinkOne h silent noInstall dev root nm) mi)
                 !! dest_of nm e)).
Proof.
  intros Hnpm. induction l as [|[name v] l IH]; intros mi Hstr Hap Hall Hst Hnames Hout.
  - split_and!; [done|done|]. intros e Hin. by apply elem_of_nil in Hin.
  - apply Forall_cons in Hstr as [[s Hs] Hstr]. cbn in Hs. subst v.
    cbn [fmap list_fmap] in Hap, Hst. destruct Hap as [Hap1 Hap].
    apply Forall_cons in Hst as [Hst1 Hst].
    destruct (unlinkOne_frame h silent noInstall dev root nm name s all mi Hnpm Hnames Hst1)
      as (F1 & Fn & Fl).
    set (r1 := unlinkOne h silent noInstall dev root nm (name, JStr s) mi) in *.
    assert (Ho1 : outcome r1 = Normal tt).
    { destruct (outcome r1) as [[]|e] eqn:E; [done|].
      cbn [forEach] in Hout. by rewrite (bind_thrown _ _ _ e) in Hout. }
    rewrite forEach_cons_normal in Hout |- * by exact Ho1.
    fold r1 in Hout |- *. cbn [outcome state] in Hout |- *.
    rewrite Forall_forall in Hap1.
    destruct (IH (state r1)) as (G1 & Gn & Gl); [done|done| | |done|done|].
    { intros e Hin. apply Hall. by right. }
    { apply Forall_forall. intros d' Hd'. rewrite Forall_forall in Hst.
      apply (steady_frame mi _ all (join nm name)); [by apply Hst|exact F1| |].
      - by apply Hap1.
      - apply (Hall (name, JStr s)). by left. }
    split_and!.
    + intros q Hq. rewrite G1.
      * apply F1. apply (Hq (name, JStr s)). by left.
      * intros e Hin. apply Hq. by right.
    + done.
    + intros e Hin. apply elem_of_cons in Hin as [->|Hin]; [|by apply Gl].
      rewrite G1; [by apply Fl|].
      intros e Hin. unfold dest_of at 2. cbn [fst].
      assert (apart (join nm name) (dest_of nm e)) as [_ Hx]; [|done].
      apply Hap1. apply list_elem_of_fmap. by exists e.
Qed.

Lemma run_quiet h silent noInstall dev root nm : ∀ l m,
  Forall (λ e, ∃ v, e.2 = JStr v) l →
  (∀ e, e ∈ l → symlink_gate m (dest_of nm e) = false) →
  ∃ t, forEach l (unlinkOne h silent noInstall dev root nm) m
       = Result (Normal tt) m t ∧ quiet t.
Proof.
  induction l as [|[name v] l IH]; intros m Hstr Hgate.
  - exists []. split; [done|constructor].
  - apply Forall_cons in Hstr as [[s Hs] Hstr]. cbn in Hs. subst v.
    destruct (IH m Hstr) as (t & Hrun & Hq).
    { intros e Hin. apply Hgate. by right. }
    assert (G : symlink_gate m (join nm name) = false).
    { apply (Hgate (name, JStr s)). by left. }
    assert (∃ msg level,
              unlinkOne h silent noInstall dev root nm (name, JStr s) m
              = log msg level silent m) as (msg & level & Hlog).
    { destruct (existsSync m (join nm name)) eqn:E.
      - do 2 eexists. by apply unlinkOne_physical.
      - do 2 eexists. by apply unlinkOne_absent. }
    assert (Ho : outcome (unlinkOne h silent noInstall dev root nm (name, JStr s) m)
                 = Normal tt) by (rewrite Hlog; apply outcome_log).
    assert (Hst : state (unlinkOne h silent noInstall dev root nm (name, JStr s) m) = m)
      by (rewrite Hlog; apply state_log).
    assert (Hqt : quiet (trace (unlinkOne h silent noInstall dev root nm
                                  (name, JStr s) m)))
      by (rewrite Hlog; apply trace_log_quiet).
    eexists. rewrite forEach_cons_normal by exact Ho. rewrite Hst, Hrun.
    cbn [outcome state trace]. split; [reflexivity|].
    apply Forall_app. by split.
Qed.

(** ** A second run *)

Lemma plain_package_json : plain "package.json".
Proof. by repeat split. Qed.

Lemma plain_node_modules : plain "node_modules".
Proof. by repeat split. Qed.

Lemma mergeDeps_pure pkg m :
  mergeDeps pkg m = Result (outcome (mergeDeps pkg ∅)) m [].
Proof. by destruct pkg. Qed.

Lemma unlink_loaded (h : host) (o : options) (m : fsmap) text pkg allDeps :
  readFileSync m (join (cwd h) "package.json") = Done text →
  JSON_parse h text = inl pkg →
  outcome (mergeDeps pkg ∅) = Normal allDeps →
  unlinkLocalDependencies h o m
  = unlinkEntries h (default false (option_get "silent" o))
      (default false (option_get "noInstall" o))
      (default false (option_get "dev" o))
      (cwd h) (join (cwd h) "node_modules") (Object_entries allDeps) m.
Proof.
  intros Hread Hparse Hmerge. unfold unlinkLocalDependencies, fs_readFileSync.
  rewrite (bind_try_query_done _ _ _ _ _ text) by exact Hread.
  rewrite Hparse, bind_ret.
  rewrite (bind_normal _ _ _ allDeps) by (by rewrite mergeDeps_pure).
  rewrite mergeDeps_pure. cbn [outcome state trace app]. apply result_eta.
Qed.

Lemma all_apart_elem ds d d' :
  all_apart ds → d ∈ ds → d' ∈ ds → d = d' ∨ apart d d'.
Proof.
  induction ds as [|x ds IH]; intros Hap Hd Hd'; [by apply elem_of_nil in Hd|].
  destruct Hap as [Hx Hap]. rewrite Forall_forall in Hx.
  apply elem_of_cons in Hd as [->|Hd]; apply elem_of_cons in Hd' as [->|Hd'].
  - by left.
  - right. by apply Hx.
  - right. destruct (Hx _ Hd) as [? ?]. by split.
  - by apply IH.
Qed.

Lemma filter_file_specs (entries : list (string * json)) :
  Forall (λ e, ∃ v, e.2 = JStr v) (List.filter (λ e, is_file_spec e.2) entries).
Proof.
  apply Forall_forall. intros [name v] Hin. apply list_elem_of_In in Hin.
  apply List.filter_In in Hin as [_ Hv]. cbn in *. destruct v; try done. by eexists.
Qed.

(** C8 (idempotence), as amended.  In a project laid out as
    [store_layout] says (proper names; the root a real directory holding the
    manifest as a regular file outside every store entry; the store entries
    of the file-path dependencies separate and not nested; every entry that
    is a link pointing, through real directories, to an existing directory
    outside all entries) and with an install command that only changes what
    lies below its working directory, a run that returns normally leaves a
    state on which a second run with the same options returns normally,
    changes nothing and performs no removal, no directory creation, no copy
    and no install: no store entry is a link any more, so the symlink gate
    skips each of them. *)
Theorem second_run_is_quiet (h : host) (o : options) (m : fsmap) (text : string) :
  npm_confined h → store_layout h m text →
  outcome (unlinkLocalDependencies h o m) = Normal tt →
  outcome (unlinkLocalDependencies h o (state (unlinkLocalDependencies h o m)))
    = Normal tt
  ∧ state (unlinkLocalDependencies h o (state (unlinkLocalDependencies h o m)))
    = state (unlinkLocalDependencies h o m)
  ∧ quiet (trace (unlinkLocalDependencies h o
                    (state (unlinkLocalDependencies h o m))))
  ∧ Forall (λ d, not_link (state (unlinkLocalDependencies h o m) !! d))
           (store_entries h text).
Proof.
  intros Hnpm (Hroot & Hrd & Hman & Hnames & Hap & Hst & Hout) Hfirst.
  apply real_dirs_ancestors in Hrd.
  pose proof (plain_components _ Hroot) as Hroot'.
  assert (Hread : ∀ m', m' !! (cwd h ++ ["package.json"]) = Some (File text) →
            real_dirs m' (cwd h) →
            readFileSync m' (join (cwd h) "package.json") = Done text).
  { intros m' Hm' Hd'. rewrite join_plain by (done || apply plain_package_json).
    by apply readFileSync_child. }
  pose proof (Hread m Hman Hrd) as Hread0.
  unfold store_entries in Hap, Hst, Hout |- *.
  destruct (JSON_parse h text) as [pkg|msg] eqn:Hparse.
  2:{ rewrite (unlink_manifest_malformed _ _ _ text msg) in Hfirst by done.
      discriminate. }
  destruct (outcome (mergeDeps pkg ∅)) as [allDeps|e] eqn:Hmerge.
  2:{ exfalso. revert Hfirst. unfold unlinkLocalDependencies, fs_readFileSync.
      rewrite (bind_try_query_done _ _ _ _ _ text) by exact Hread0.
      rewrite Hparse, bind_ret.
      rewrite (bind_thrown _ _ _ e) by (by rewrite mergeDeps_pure). done. }
  rewrite (unlink_loaded h o m text pkg allDeps) in Hfirst |- * by done.
  unfold unlinkEntries in Hfirst |- *.
  rewrite (join_plain (cwd h) "node_modules") in *
    by (done || apply plain_node_modules).
  set (nm := cwd h ++ ["node_modules"]) in *.
  set (l := List.filter (λ e : string * json, is_file_spec e.2)
              (Object_entries allDeps)) in *.
  set (step := unlinkOne h (default false (option_get "silent" o))
                 (default false (option_get "noInstall" o))
                 (default false (option_get "dev" o)) (cwd h) nm) in *.
  pose proof (filter_file_specs (Object_entries allDeps)) as Hstr. fold l in Hstr.
  destruct (run_settles h (default false (option_get "silent" o))
              (default false (option_get "noInstall" o))
              (default false (option_get "dev" o)) (cwd h) nm
              (dest_of nm <$> l) Hnpm l m Hstr Hap)
    as (G1 & Gn & Gl); [|done|done|exact Hfirst|].
  { intros e He. apply list_elem_of_fmap. by exists e. }
  fold step in G1, Gn, Gl.
  set (mf := state (forEach l step m)) in *.
  rewrite Forall_forall in Hout, Hst.
  assert (Hdest_in : ∀ e, e ∈ l → dest_of nm e ∈ dest_of nm <$> l).
  { intros e He. apply list_elem_of_fmap. by exists e. }
  assert (Hmf_man : mf !! (cwd h ++ ["package.json"]) = Some (File text)).
  { rewrite G1; [done|]. intros e He. by apply Hout, Hdest_in. }
  assert (Hmf_root : real_dirs mf (cwd h)).
  { intros q Hq Hne. rewrite G1; [by apply Hrd|].
    intros e He Hp. apply (Hout _ (Hdest_in e He)).
    etrans; [exact Hp|]. by apply prefix_app_r. }
  assert (Hgate : ∀ e, e ∈ l → symlink_gate mf (dest_of nm e) = false).
  { intros e He. destruct (Hst _ (Hdest_in e He)) as (Hpl & Hne & Hpar & _).
    apply real_dirs_ancestors in Hpar.
    destruct (snoc_removelast _ Hne) as (p & c & Hd & Hp). rewrite Hp in Hpar.
    apply plain_components in Hpl. rewrite Hd in Hpl |- *.
    apply Forall_app in Hpl as [Hpl Hc].
    apply symlink_gate_settled; [done|by inversion Hc| |].
    - intros q Hq Hqne. rewrite G1; [by apply Hpar|].
      intros e' He' Hp'.
      destruct (all_apart_elem _ _ _ Hap (Hdest_in e' He') (Hdest_in e He))
        as [Heq|[Hx _]].
      + rewrite Heq, Hd in Hp'.
        assert (p ++ [c] `prefix_of` p) by (by etrans).
        by eapply prefix_snoc_not.
      + apply Hx. rewrite Hd. etrans; [exact Hp'|]. etrans; [exact Hq|].
        by apply prefix_app_r.
    - rewrite <- Hd. by apply Gl. }
  rewrite (unlink_loaded h o mf text pkg allDeps) by (try done; by apply Hread).
  unfold unlinkEntries.
  rewrite (join_plain (cwd h) "node_modules") by (done || apply plain_node_modules).
  fold nm l step.
  destruct (run_quiet h (default false (option_get "silent" o))
              (default false (option_get "noInstall" o))
              (default false (option_get "dev" o)) (cwd h) nm l mf Hstr Hgate)
    as (t & Hrun & Hq).
  fold step in Hrun. rewrite Hrun. cbn [outcome state trace].
  split_and!; [done|done|done|].
  apply Forall_forall. intros d Hd.
  apply list_elem_of_fmap in Hd as (e & -> & He). by apply Gl.
Qed.

(** The sample installer only creates the dependency store of the package
    it runs in. *)
Lemma npm_ok_confined root parse w room :
  npm_confined (Host root parse npm_ok w room).
Proof.
  intros args cwd io m. cbn [npm npm_ok fst]. split.
  - intros q Hq. apply lookup_insert_ne. intros <-.
    destruct Hq as [Hq|Hq].
    + apply Hq. by apply prefix_app_r.
    + apply (f_equal List.length) in Hq. rewrite length_app in Hq.
      cbn [List.length] in Hq. lia.
  - intros Hm Hc. apply names_ok_insert; [done|].
    apply Forall_app. split; [done|].
    apply Forall_singleton, plain_node_modules.
Qed.

Lemma second_run_is_quiet_witness :
  store_layout local_host local_fs local_manifest_text
  ∧ outcome (unlinkLocalDependencies local_host [] local_fs) = Normal tt
  ∧ ¬ quiet (trace (unlinkLocalDependencies local_host [] local_fs))
  ∧ quiet (trace (unlinkLocalDependencies local_host []
                    (state (unlinkLocalDependencies local_host [] local_fs)))).
Proof.
  assert (Hl : store_layout local_host local_fs local_manifest_text)
    by (apply (bool_decide_unpack _); vm_compute; exact I).
  assert (Ho : outcome (unlinkLocalDependencies local_host [] local_fs) = Normal tt)
    by (vm_compute; reflexivity).
  split; [exact Hl|]. split; [exact Ho|]. split.
  - intros Hq. apply (bool_decide_pack _) in Hq. vm_compute in Hq. exact Hq.
  - destruct (second_run_is_quiet local_host [] local_fs local_manifest_text
                (npm_ok_confined _ _ _ _) Hl Ho) as (_ & _ & Hq & _).
    exact Hq.
Defined.

(** Without these provisions a second run can still replace an entry: the
    link [a] points into the entry [b], at a directory that exists only once
    [b] has been replaced by its copy.  The first run finds [a] dangling and
    skips it; the second run finds it resolvable, removes it and copies. *)
Lemma second_run_replaces_late_link :
  outcome (unlinkLocalDependencies chain_host [] chain_fs) = Normal tt
  ∧ outcome (unlinkLocalDependencies chain_host []
               (state (unlinkLocalDependencies chain_host [] chain_fs)))
    = Normal tt
  ∧ RmCall (store ++ ["a"])
    ∈ trace (unlinkLocalDependencies chain_host []
               (state (unlinkLocalDependencies chain_host [] chain_fs)))
  ∧ ¬ quiet (trace (unlinkLocalDependencies chain_host []
                      (state (unlinkLocalDependencies chain_host [] chain_fs)))).
Proof.
  split; [vm_compute; reflexivity|]. split; [vm_compute; reflexivity|]. split.
  - apply (bool_decide_unpack _). vm_compute. exact I.
  - intros Hq. apply (bool_decide_pack _) in Hq. vm_compute in Hq. exact Hq.
Qed.

(** * Further properties of the code *)

(** ** The command line, continued *)

Lemma cli_options_read h silently install dev :
  unlinkLocalDependencies h
    [("silently", silently); ("install", install); ("dev", dev)]
  = unlinkLocalDependencies h [("dev", dev)].
Proof. reflexivity. Qed.

(** X1 (help first).  When --help or -h is among the arguments, the script
    prints the usage text on the console and exits with status 0, whatever
    the other arguments are (--silent included) and whatever the project
    holds: the manifest is not read and the file system is left as it is. *)
Theorem help_is_handled_first (h : host) (args : list string) (m : fsmap) :
  "--help" ∈ args ∨ "-h" ∈ args →
  main h args m = Result (Normal 0%Z) m [Console "log" usage].
Proof.
  intros Hh. unfold main, includes.
  assert (E : bool_decide ("--help" ∈ args) || bool_decide ("-h" ∈ args) = true).
  { apply orb_true_iff. destruct Hh; [left|right]; by apply bool_decide_eq_true. }
  rewrite E. reflexivity.
Qed.

Lemma help_is_handled_first_witness :
  main local_host ["--silent"; "-h"] no_manifest_fs
  = Result (Normal 0%Z) no_manifest_fs [Console "log" usage].
Proof.
  apply (help_is_handled_first local_host ["--silent"; "-h"] no_manifest_fs).
  right. apply (bool_decide_unpack _). vm_compute. exact I.
Defined.

(** X2 (recognised flags).  The script looks at its arguments only through
    [includes], and the library reads none of the options passed under the
    names [silently] and [install]: two argument lists that agree on the
    presence of --help, -h, --silent and --dev give the same run.  Unknown
    arguments, repetitions, the order of the arguments and --no-install make
    no difference. *)
Theorem only_known_flags_matter (h : host) (args args' : list string) :
  Forall (λ flag, flag ∈ args ↔ flag ∈ args') ["--help"; "-h"; "--silent"; "--dev"] →
  main h args = main h args'.
Proof.
  intros H.
  assert (Hi : ∀ flag, flag ∈ ["--help"; "-h"; "--silent"; "--dev"] →
                 includes args flag = includes args' flag).
  { intros flag Hin. rewrite Forall_forall in H. apply bool_decide_ext. by apply H. }
  unfold main.
  rewrite !cli_options_read.
  rewrite (Hi "--help"), (Hi "-h"), (Hi "--silent"), (Hi "--dev");
    [reflexivity|set_solver..].
Qed.

Lemma only_known_flags_matter_witness :
  main local_host ["--dev"; "--verbose"; "--no-install"; "--dev"]
  = main local_host ["--dev"].
Proof.
  apply (only_known_flags_matter local_host
           ["--dev"; "--verbose"; "--no-install"; "--dev"] ["--dev"]).
  apply (bool_decide_unpack _). vm_compute. exact I.
Defined.

(** X3 (silent failure).  With --silent (and no help flag), a run of the
    library that throws makes the script exit with status 1 without writing
    the error message: the script adds nothing to what the library did. *)
Theorem silent_failure_prints_no_error (h : host) (args : list string) (m : fsmap)
    (e : error) :
  "--help" ∉ args → "-h" ∉ args → "--silent" ∈ args →
  outcome (unlinkLocalDependencies h (cli_options args) m) = Throw e →
  main h args m
  = Result (Normal 1%Z)
      (state (unlinkLocalDependencies h (cli_options args) m))
      (trace (unlinkLocalDependencies h (cli_options args) m)).
Proof.
  intros H1 H2 Hs He.
  rewrite main_without_help by (by apply bool_decide_eq_false).
  fold (cli_options args).
  unfold includes. rewrite (bool_decide_eq_true_2 _ Hs).
  unfold try_catch. rewrite (bind_thrown _ _ _ e) by exact He.
  cbn [outcome state trace]. rewrite bind_log. cbn. by rewrite app_nil_r.
Qed.

Lemma silent_failure_prints_no_error_witness :
  main local_host ["--silent"] no_manifest_fs
  = Result (Normal 1%Z) no_manifest_fs [].
Proof.
  apply (silent_failure_prints_no_error local_host ["--silent"] no_manifest_fs
           (SystemError ENOENT "open" ["fake"; "project"; "package.json"]));
    (apply (bool_decide_unpack _); vm_compute; exact I) || (vm_compute; reflexivity).
Defined.

(** ** The specifier prefix *)

Lemma substring_all s : String.substring 0 (String.length s) s = s.
Proof. induction s as [|c s IH]; [done|]. cbn. by rewrite IH. Qed.

Lemma prefix_split s1 : ∀ s2, String.prefix s1 s2 = true → ∃ r, s2 = s1 +:+ r.
Proof.
  induction s1 as [|a s1 IH]; intros s2 H; [by exists s2|].
  destruct s2 as [|b s2]; [discriminate H|]. cbn in H.
  destruct (ascii_dec a b) as [->|]; [|discriminate H].
  destruct (IH _ H) as [r ->]. by exists r.
Qed.

Lemma prefix_app s1 s : String.prefix s1 (s1 +:+ s) = true.
Proof.
  induction s1 as [|a s1 IH]; [by destruct s|].
  change (String.prefix (String a s1) (String a (s1 +:+ s)) = true).
  cbn [String.prefix]. by destruct (ascii_dec a a).
Qed.

Lemma strip_file_app s : strip_file ("file:" +:+ s) = s.
Proof.
  unfold strip_file. rewrite prefix_app.
  change ("file:" +:+ s) with (String "f" (String "i" (String "l" (String "e" (String ":" s))))).
  cbn [String.length Nat.sub String.substring].
  rewrite Nat.sub_0_r. apply substring_all.
Qed.

(** X4 (specifier prefix).  The filter and the replacement agree on the
    prefix: a specifier [file:s] passes the filter and is stripped to [s]
    (only the leading prefix is removed); every specifier that passes the
    filter is [file:] followed by its stripped form; and a string that does
    not pass is left as it is by the replacement. *)
Theorem file_prefix_round_trip (s : string) :
  is_file_spec (JStr ("file:" +:+ s)) = true
  ∧ strip_file ("file:" +:+ s) = s
  ∧ (∀ v, is_file_spec (JStr v) = true → "file:" +:+ strip_file v = v)
  ∧ (∀ v, is_file_spec (JStr v) = false → strip_file v = v).
Proof.
  split; [|split; [|split]].
  - apply prefix_app.
  - apply strip_file_app.
  - intros v Hv. destruct (prefix_split _ _ Hv) as [r ->].
    by rewrite strip_file_app.
  - intros v Hv. cbn in Hv. unfold strip_file. by rewrite Hv.
Qed.

Lemma file_prefix_round_trip_witness :
  is_file_spec (JStr "file:../local-package") = true
  ∧ "file:" +:+ strip_file "file:../local-package" = "file:../local-package".
Proof.
  split; [reflexivity|].
  destruct (file_prefix_round_trip "") as (_ & _ & Hback & _).
  apply Hback. reflexivity.
Defined.

(** ** Errors during a run *)

Lemma forEach_app_thrown {A} (f : A → M unit) (l l' : list A) e : ∀ m,
  outcome (forEach l f m) = Throw e → forEach (l ++ l') f m = forEach l f m.
Proof.
  induction l as [|x l IH]; intros m H; [discriminate H|].
  cbn [app forEach] in H |- *.
  destruct (outcome (f x m)) as [[]|e'] eqn:E.
  - rewrite (bind_normal _ _ _ tt) in H by exact E.
    rewrite (bind_normal _ _ _ tt) by exact E.
    cbn [outcome] in H. by rewrite (IH _ H), (bind_normal _ _ _ tt) by exact E.
  - by rewrite !(bind_thrown _ _ _ e') by exact E.
Qed.

(** X5 (first failure aborts).  When the loop over some entries throws,
    the entries after them are never visited: the loop over a longer list
    is the same run, with the same error, the same file system and the same
    events.  Nothing is rolled back and nothing more is attempted. *)
Theorem failure_aborts_the_run (h : host) (silent noInstall dev : bool)
    (root nm : path) (entries rest : list (string * json)) (m : fsmap) (e : error) :
  outcome (unlinkEntries h silent noInstall dev root nm entries m) = Throw e →
  unlinkEntries h silent noInstall dev root nm (entries ++ rest) m
  = unlinkEntries h silent noInstall dev root nm entries m.
Proof.
  unfold unlinkEntries. intros H. rewrite List.filter_app.
  by apply (forEach_app_thrown _ _ _ e).
Qed.

Lemma failure_aborts_the_run_witness :
  unlinkEntries local_host false false false project_root store
    ([("gone", JStr "file:../missing")]
     ++ [("local-pkg", JStr "file:../local-package")]) orphan_fs
  = unlinkEntries local_host false false false project_root store
      [("gone", JStr "file:../missing")] orphan_fs.
Proof.
  apply (failure_aborts_the_run local_host false false false project_root store
           [("gone", JStr "file:../missing")]
           [("local-pkg", JStr "file:../local-package")] orphan_fs
           (SystemError ENOENT "scandir" ["fake"; "missing"])).
  vm_compute. reflexivity.
Defined.

(** ** Manifests that are not objects *)

(** X6 (manifest that is not an object).  When the manifest parses to
    [null], reading its first dependency group throws a [TypeError] before
    anything is touched; when it parses to any other value that is not an
    object (a number, a string, a boolean, an array), it declares nothing
    and the run returns normally without any event. *)
Theorem manifest_that_is_no_object (h : host) (o : options) (m : fsmap)
    (text : string) (v : json) :
  readFileSync m (join (cwd h) "package.json") = Done text →
  JSON_parse h text = inl v →
  (∀ ms, v ≠ JObj ms) →
  unlinkLocalDependencies h o m
  = match v with
    | JNull => Result (Throw (TypeError
                 "Cannot read properties of null (reading 'dependencies')")) m []
    | _ => Result (Normal tt) m []
    end.
Proof.
  intros Hr Hp Hno. unfold unlinkLocalDependencies, fs_readFileSync.
  rewrite (bind_try_query_done _ _ _ _ _ text) by exact Hr.
  rewrite Hp, bind_ret.
  destruct v as [| | | | |ms]; try reflexivity.
  by destruct (Hno ms).
Qed.

Lemma manifest_that_is_no_object_witness :
  unlinkLocalDependencies null_host [] null_manifest_fs
  = Result (Throw (TypeError
             "Cannot read properties of null (reading 'dependencies')"))
      null_manifest_fs [].
Proof.
  apply (manifest_that_is_no_object null_host [] null_manifest_fs "null" JNull).
  - vm_compute. reflexivity.
  - vm_compute. reflexivity.
  - intros ms. discriminate.
Defined.

(** ** The shape of a run *)

(** A run either throws before the first entry, leaving everything as it
    was, or is the loop over the entries of the merged groups. *)
Lemma unlink_cases (h : host) (o : options) (m : fsmap) :
  (∃ e, unlinkLocalDependencies h o m = Result (Throw e) m [])
  ∨ (∃ text pkg allDeps,
       readFileSync m (join (cwd h) "package.json") = Done text
       ∧ JSON_parse h text = inl pkg
       ∧ outcome (mergeDeps pkg ∅) = Normal allDeps
       ∧ unlinkLocalDependencies h o m
         = unlinkEntries h (default false (option_get "silent" o))
             (default false (option_get "noInstall" o))
             (default false (option_get "dev" o))
             (cwd h) (join (cwd h) "node_modules") (Object_entries allDeps) m).
Proof.
  destruct (readFileSync m (join (cwd h) "package.json")) as [text|e] eqn:Hr.
  2:{ left. eexists. by apply unlink_manifest_missing. }
  destruct (JSON_parse h text) as [pkg|msg] eqn:Hp.
  2:{ left. eexists. by eapply unlink_manifest_malformed. }
  destruct (outcome (mergeDeps pkg ∅)) as [allDeps|e] eqn:Hm.
  - right. exists text, pkg, allDeps. split_and!; try done.
    by eapply unlink_loaded.
  - left. exists e. unfold unlinkLocalDependencies, fs_readFileSync.
    rewrite (bind_try_query_done _ _ _ _ _ text) by exact Hr.
    rewrite Hp, bind_ret.
    rewrite (bind_thrown _ _ _ e) by (by rewrite mergeDeps_pure).
    by rewrite mergeDeps_pure.
Qed.

(** ** What a run can emit *)

Section emits_at.
Context (P : event → Prop).

Lemma emits_log_at msg level silently :
  (silently = false → P (Console level msg)) → emits P (log msg level silently).
Proof.
  intros H. unfold log.
  destruct silently; cbn [negb]; [apply emits_ret|by apply emits_emit, H].
Qed.

Lemma emits_install_at h dest dev silent :
  (silent = false → ∀ level msg, P (Console level msg)) →
  P (SpawnCall "npm" (install_args dev) (install_options h dest silent)) →
  emits P (installDependencies h dest dev silent).
Proof.
  intros Hc Hs. unfold installDependencies.
  apply emits_bind; [apply emits_query|]. intros hasPkg.
  destruct hasPkg; cbn [negb]; [|apply emits_log_at; auto].
  apply emits_bind; [apply emits_query|]. intros hasNm.
  destruct hasNm; [apply emits_log_at; auto|].
  apply emits_bind; [apply emits_log_at; auto|]. intros _.
  apply emits_bind.
  { apply emits_spawn. unfold install_args, install_options in Hs.
    by destruct dev. }
  intros status.
  destruct (negb _); [apply emits_log_at; auto|apply emits_ret].
Qed.

Lemma emits_unlinkOne_at h silent noInstall dev root nm name v :
  (silent = false → ∀ level msg, P (Console level msg)) →
  P (RmCall (join nm name)) →
  (∀ p, P (MkdirCall p)) → (∀ s d, P (CopyFileCall s d)) →
  (noInstall = false →
   P (SpawnCall "npm" (install_args dev) (install_options h (join nm name) silent))) →
  emits P (unlinkOne h silent noInstall dev root nm (name, JStr v)).
Proof.
  intros Hc Hr Hm Hf Hs. unfold unlinkOne.
  apply emits_bind; [apply emits_query|]. intros found.
  destruct found; cbn [negb]; [|apply emits_log_at; auto].
  apply emits_bind; [apply emits_try_query|]. intros st.
  destruct (isSymbolicLink st); cbn [negb]; [|apply emits_log_at; auto].
  apply emits_bind; [apply emits_log_at; auto|]. intros _.
  apply emits_bind.
  { apply emits_bind; [by apply emits_emit|intros _; apply emits_update]. }
  intros _. apply emits_bind; [by apply emits_copy|]. intros _.
  destruct noInstall; cbn [negb]; [apply emits_ret|].
  apply emits_install_at; auto.
Qed.

Lemma emits_unlinkEntries_at h silent noInstall dev root nm entries :
  (∀ name v, (name, JStr v) ∈ entries → is_file_spec (JStr v) = true →
             emits P (unlinkOne h silent noInstall dev root nm (name, JStr v))) →
  emits P (unlinkEntries h silent noInstall dev root nm entries).
Proof.
  intros H. unfold unlinkEntries. apply emits_forEach. intros [name v] Hin.
  apply list_elem_of_In, List.filter_In in Hin as [Hin Hv]. cbn in Hv.
  destruct v; try discriminate Hv. apply H; [by apply list_elem_of_In|done].
Qed.

Lemma emits_unlink_at h o :
  (∀ text pkg allDeps name v,
     JSON_parse h text = inl pkg → outcome (mergeDeps pkg ∅) = Normal allDeps →
     (name, JStr v) ∈ Object_entries allDeps → is_file_spec (JStr v) = true →
     emits P (unlinkOne h (default false (option_get "silent" o))
                (default false (option_get "noInstall" o))
                (default false (option_get "dev" o))
                (cwd h) (join (cwd h) "node_modules") (name, JStr v))) →
  emits P (unlinkLocalDependencies h o).
Proof.
  intros H m.
  destruct (unlink_cases h o m) as [[e ->]|(text & pkg & allDeps & _ & Hp & Hm & ->)];
    [constructor|].
  apply emits_unlinkEntries_at. intros name v Hin Hv. by eapply H.
Qed.
End emits_at.

(** X7 (silent run).  A run of the library with [silent: true] writes
    nothing on the console, neither a report nor an error of the installer,
    and every process it starts has its standard streams ignored. *)
Theorem silent_run_prints_nothing (h : host) (o : options) (m : fsmap) :
  option_get "silent" o = Some true →
  Forall (λ e, match e with
               | Console _ _ => False
               | SpawnCall _ _ opts => spawn_stdio opts = Ignore
               | _ => True
               end)
         (trace (unlinkLocalDependencies h o m)).
Proof.
  intros Hs. apply emits_unlink_at. intros text pkg allDeps name v _ _ _ _.
  rewrite Hs. cbn [default].
  apply emits_unlinkOne_at; done.
Qed.

Lemma silent_run_prints_nothing_witness :
  trace (unlinkLocalDependencies local_host [("silent", true)] local_fs) ≠ []
  ∧ Forall (λ e, match e with
                 | Console _ _ => False
                 | SpawnCall _ _ opts => spawn_stdio opts = Ignore
                 | _ => True
                 end)
      (trace (unlinkLocalDependencies local_host [("silent", true)] local_fs)).
Proof.
  split; [vm_compute; discriminate|].
  apply (silent_run_prints_nothing local_host [("silent", true)] local_fs).
  reflexivity.
Defined.

(** X8 (what a run addresses).  Every removal of a run is that of the store
    entry of a dependency the manifest declares with a file-path specifier,
    and every process it starts is [npm] with the install arguments for the
    [dev] option, in such a store entry, with the stdio mode for the
    [silent] option and a shell exactly on win32; with [noInstall] set there
    is none. *)
Theorem run_acts_on_declared_entries (h : host) (o : options) (m : fsmap)
    (text : string) :
  readFileSync m (join (cwd h) "package.json") = Done text →
  Forall (λ e, match e with
               | RmCall p => p ∈ store_entries h text
               | SpawnCall cmd args opts =>
                   option_get "noInstall" o ≠ Some true
                   ∧ cmd = "npm"
                   ∧ args = install_args (default false (option_get "dev" o))
                   ∧ spawn_cwd opts ∈ store_entries h text
                   ∧ spawn_stdio opts
                     = (if default false (option_get "silent" o)
                        then Ignore else Inherit)
                   ∧ spawn_shell opts = win32 h
               | _ => True
               end)
         (trace (unlinkLocalDependencies h o m)).
Proof.
  intros Hr.
  destruct (unlink_cases h o m) as [[e ->]|(text' & pkg & allDeps & Hr' & Hp & Hm & ->)];
    [constructor|].
  rewrite Hr in Hr'. injection Hr' as <-.
  unfold store_entries. rewrite Hp, Hm.
  apply emits_unlinkEntries_at. intros name v Hin Hv.
  assert (Hd : join (join (cwd h) "node_modules") name
               ∈ dest_of (join (cwd h) "node_modules")
                   <$> List.filter (λ e : string * json, is_file_spec e.2)
                         (Object_entries allDeps)).
  { apply list_elem_of_fmap. exists (name, JStr v). split; [done|].
    apply list_elem_of_In, List.filter_In. split; [by apply list_elem_of_In|done]. }
  apply emits_unlinkOne_at; try done.
  intros Hn. split_and!; try done.
  destruct (option_get "noInstall" o) as [[]|]; [discriminate Hn|done|done].
Qed.

Lemma run_acts_on_declared_entries_witness :
  store_entries local_host local_manifest_text = [store ++ ["local-pkg"]]
  ∧ Forall (λ e, match e with
                 | RmCall p => p ∈ store_entries local_host local_manifest_text
                 | SpawnCall cmd args opts =>
                     option_get "noInstall" [] ≠ Some true
                     ∧ cmd = "npm"
                     ∧ args = install_args (default false (option_get "dev" []))
                     ∧ spawn_cwd opts ∈ store_entries local_host local_manifest_text
                     ∧ spawn_stdio opts
                       = (if default false (option_get "silent" [])
                          then Ignore else Inherit)
                     ∧ spawn_shell opts = win32 local_host
                 | _ => True
                 end)
      (trace (unlinkLocalDependencies local_host [] local_fs)).
Proof.
  split; [vm_compute; reflexivity|].
  apply (run_acts_on_declared_entries local_host [] local_fs local_manifest_text).
  vm_compute. reflexivity.
Defined.

(** ** What a computation keeps *)

Section preserves.
Context (R : fsmap → fsmap → Prop).
Hypothesis R_refl : ∀ m, R m m.
Hypothesis R_trans : ∀ a b c, R a b → R b c → R a c.

Lemma preserves_ret {A} (a : A) : preserves R (ret a).
Proof. intros m. apply R_refl. Qed.

Lemma preserves_throw {A} e : preserves R (@throw A e).
Proof. intros m. apply R_refl. Qed.

Lemma preserves_query {A} (f : fsmap → A) : preserves R (query f).
Proof. intros m. apply R_refl. Qed.

Lemma preserves_emit ev : preserves R (emit ev).
Proof. intros m. apply R_refl. Qed.

Lemma preserves_try_query {A} (s : string) (p : path) (f : fsmap → attempt A) :
  preserves R (try_query s p f).
Proof. intros m. unfold try_query. destruct (f m); apply R_refl. Qed.

Lemma preserves_try_update (s : string) (p : path) (f : fsmap → attempt fsmap) :
  (∀ m m', f m = Done m' → R m m') → preserves R (try_update s p f).
Proof.
  intros H m. unfold try_update. destruct (f m) eqn:E; [by apply H|apply R_refl].
Qed.

Lemma preserves_log msg level silently : preserves R (log msg level silently).
Proof. intros m. rewrite state_log. apply R_refl. Qed.

Lemma preserves_bind {A B} (c : M A) (k : A → M B) :
  preserves R c → (∀ a, preserves R (k a)) → preserves R (bind c k).
Proof.
  intros Hc Hk m. unfold bind. specialize (Hc m).
  destruct (outcome (c m)); cbn [state]; [|done].
  eapply R_trans; [exact Hc|apply Hk].
Qed.

Lemma preserves_forEach {A} (l : list A) (f : A → M unit) :
  (∀ x, preserves R (f x)) → preserves R (forEach l f).
Proof.
  intros Hf. induction l as [|x l IH]; cbn [forEach]; [apply preserves_ret|].
  apply preserves_bind; [apply Hf|intros _; apply IH].
Qed.

Lemma preserves_copy room :
  (∀ p m m', mkdirSync m p = Done m' → R m m') →
  (∀ s d m m', copyFileSync m s d = Done m' → R m m') →
  ∀ src dest, preserves R (copyRecursiveSync room src dest).
Proof.
  intros Hmk Hcp. induction room as [|room IH]; intros src dest;
    cbn [copyRecursiveSync]; [apply preserves_throw|].
  apply preserves_bind; [apply preserves_query|]. intros present.
  apply preserves_bind.
  { destruct present; cbn [negb]; [apply preserves_ret|].
    apply preserves_bind; [apply preserves_emit|]. intros _.
    apply preserves_try_update. apply Hmk. }
  intros _. apply preserves_bind; [apply preserves_try_query|]. intros files.
  apply preserves_forEach. intros file.
  apply preserves_bind; [apply preserves_try_query|]. intros st.
  destruct (isDirectory st); [apply IH|].
  apply preserves_bind; [apply preserves_emit|]. intros _.
  apply preserves_try_update. apply Hcp.
Qed.
End preserves.

Lemma kept_refl m : kept m m.
Proof. intros q [d| |t] H; eauto. Qed.

Lemma kept_trans a b c : kept a b → kept b c → kept a c.
Proof.
  intros Hab Hbc q n Hq. specialize (Hab q n Hq).
  destruct n as [d| |t].
  - destruct Hab as [d' Hb]. apply (Hbc q (File d') Hb).
  - apply (Hbc q Dir Hab).
  - apply (Hbc q (Symlink t) Hab).
Qed.

Lemma kept_insert m k n :
  match m !! k with
  | None => True
  | Some (File _) => ∃ data, n = File data
  | Some _ => False
  end →
  kept m (<[k := n]> m).
Proof.
  intros Hk q n' Hq. destruct (decide (k = q)) as [->|Hne].
  - rewrite Hq in Hk. rewrite lookup_insert_eq.
    destruct n'; [|done..]. destruct Hk as [d ->]. eauto.
  - rewrite lookup_insert_ne by done. by apply kept_refl.
Qed.

Lemma mkdirp_kept todo : ∀ m cur m', mkdirp m cur todo = Done m' → kept m m'.
Proof.
  induction todo as [|c rest IH]; intros m cur m' H; cbn [mkdirp] in H.
  - injection H as <-. apply kept_refl.
  - destruct (decide (c = "")); [by eapply IH|].
    destruct (m !! (cur ++ [c])) as [[d| |t]|] eqn:E.
    + discriminate H.
    + by eapply IH.
    + destruct (locate m true t) as [q|]; [|discriminate H].
      destruct (node_at m q) as [[| |]|]; try discriminate H. by eapply IH.
    + eapply kept_trans; [|by eapply IH].
      apply kept_insert. by rewrite E.
Qed.

Lemma copyFileSync_kept m s d m' : copyFileSync m s d = Done m' → kept m m'.
Proof.
  unfold copyFileSync. intros H.
  destruct (readFileSync m s) as [data|]; [|discriminate H].
  destruct (locate m true d) as [q|]; [|discriminate H].
  destruct q as [|c q]; [discriminate H|]. cbn [node_at] in H.
  destruct (m !! (c :: q)) as [[d0| |t]|] eqn:E; try discriminate H;
    injection H as <-; apply kept_insert; rewrite E; eauto.
Qed.

(** X9 (the copy only adds).  Whatever the source and the destination are
    and however the copy ends, it removes nothing: every directory and every
    link that existed is still there unchanged, and every regular file is
    still a regular file (its contents may have been overwritten). *)
Theorem copy_never_removes (room : nat) (src dest : path) (m : fsmap) :
  kept m (state (copyRecursiveSync room src dest m)).
Proof.
  apply (preserves_copy kept kept_refl kept_trans).
  - intros p m0 m' H. by eapply mkdirp_kept.
  - intros s d m0 m' H. by eapply copyFileSync_kept.
Qed.

(** ** Only links are removed *)

Lemma removelast_snoc (p : path) c : removelast (p ++ [c]) = p.
Proof. apply removelast_last. Qed.

Lemma well_formed_ancestors m k n :
  well_formed m → m !! k = Some n →
  ∀ q, q `prefix_of` k → q ≠ [] → q ≠ k → m !! q = Some Dir.
Proof.
  intros Hwf. revert n. induction k as [|c p IH] using rev_ind; intros n Hk q Hq Hne Hqk.
  - apply prefix_nil_inv in Hq. done.
  - destruct (Hwf _ _ Hk) as [_ Hp]. rewrite removelast_snoc in Hp.
    apply prefix_snoc_inv in Hq as [Hq|Hq]; [|done].
    destruct Hp as [->|Hp]; [by apply prefix_nil_inv in Hq|].
    destruct (decide (q = p)) as [->|Hqp]; [done|]. by eapply IH.
Qed.

Lemma well_formed_insert m k n :
  well_formed m → k ≠ [] → (removelast k = [] ∨ m !! removelast k = Some Dir) →
  m !! k ≠ Some Dir →
  well_formed (<[k := n]> m).
Proof.
  intros Hwf Hk Hp Hnd k' n' Hk'.
  assert (Hkp : removelast k ≠ k).
  { destruct (snoc_removelast k Hk) as (p & c & -> & ->).
    intros E. apply (f_equal List.length) in E. rewrite length_app in E.
    cbn [List.length] in E. lia. }
  destruct (decide (k = k')) as [<-|Hne].
  - split; [done|]. destruct Hp as [Hp|Hp]; [by left|right].
    by rewrite lookup_insert_ne.
  - rewrite lookup_insert_ne in Hk' by done.
    destruct (Hwf _ _ Hk') as [? Hp']. split; [done|].
    destruct Hp' as [Hp'|Hp']; [by left|right].
    rewrite lookup_insert_ne; [done|]. intros E. by rewrite E in Hnd.
Qed.

Lemma well_formed_filter m q :
  well_formed m →
  well_formed (filter (λ kv : path * inode, ¬ q `prefix_of` kv.1) m).
Proof.
  intros Hwf k n Hk. apply map_lookup_filter_Some in Hk as [Hk Hq]. cbn in Hq.
  destruct (Hwf _ _ Hk) as [Hne Hp]. split; [done|].
  destruct Hp as [Hp|Hp]; [by left|right].
  apply map_lookup_filter_Some. split; [done|]. cbn. intros Hq'. apply Hq.
  destruct (snoc_removelast k Hne) as (p & c & -> & Hr). rewrite Hr in Hq'.
  by apply prefix_app_r.
Qed.

Lemma walk_parent m follow : ∀ hops todo cur q,
  cur = [] ∨ m !! cur = Some Dir →
  walk hops m follow cur todo = Done q →
  q = [] ∨ q = cur ∨ removelast q = [] ∨ m !! removelast q = Some Dir.
Proof.
  induction hops as [|hops IHh]; induction todo as [|c rest IHt];
    intros cur q Hcur H; rewrite ?walk_nil, ?walk_cons in H;
    try (injection H as <-; by auto).
  - destruct (decide (c = "")); [by eapply IHt|].
    destruct (m !! (cur ++ [c])) as [[d| |t]|] eqn:E.
    + destruct rest; [|discriminate H]. injection H as <-.
      rewrite removelast_snoc. destruct Hcur; auto.
    + destruct (IHt (cur ++ [c]) q (or_intror E) H) as [?|[->|?]]; auto.
      rewrite removelast_snoc. destruct Hcur; auto.
    + destruct (is_nil rest && negb follow); [|discriminate H].
      injection H as <-. rewrite removelast_snoc. destruct Hcur; auto.
    + destruct rest; [|discriminate H]. injection H as <-.
      rewrite removelast_snoc. destruct Hcur; auto.
  - destruct (decide (c = "")); [by eapply IHt|].
    destruct (m !! (cur ++ [c])) as [[d| |t]|] eqn:E.
    + destruct rest; [|discriminate H]. injection H as <-.
      rewrite removelast_snoc. destruct Hcur; auto.
    + destruct (IHt (cur ++ [c]) q (or_intror E) H) as [?|[->|?]]; auto.
      rewrite removelast_snoc. destruct Hcur; auto.
    + destruct (is_nil rest && negb follow).
      * injection H as <-. rewrite removelast_snoc. destruct Hcur; auto.
      * destruct (IHh (t ++ rest) [] q (or_introl eq_refl) H) as [?|[?|?]]; auto.
    + destruct rest; [|discriminate H]. injection H as <-.
      rewrite removelast_snoc. destruct Hcur; auto.
Qed.

Lemma mkdirp_well_formed todo : ∀ m cur m',
  cur = [] ∨ m !! cur = Some Dir → well_formed m →
  mkdirp m cur todo = Done m' → well_formed m'.
Proof.
  induction todo as [|c rest IH]; intros m cur m' Hcur Hwf H; cbn [mkdirp] in H.
  - by injection H as <-.
  - destruct (decide (c = "")); [by eapply IH|].
    destruct (m !! (cur ++ [c])) as [[d| |t]|] eqn:E.
    + discriminate H.
    + eapply IH; [|done|exact H]. by right.
    + destruct (locate m true t) as [q|]; [|discriminate H].
      destruct (node_at m q) as [[| |]|] eqn:En; try discriminate H.
      eapply IH; [|done|exact H].
      destruct q; [by left|by right].
    + eapply IH; [| |exact H].
      * right. apply lookup_insert_eq.
      * apply well_formed_insert; [done|by destruct cur| |by rewrite E].
        rewrite removelast_snoc. destruct Hcur; auto.
Qed.

Lemma copyFileSync_well_formed m s d m' :
  well_formed m → copyFileSync m s d = Done m' → well_formed m'.
Proof.
  unfold copyFileSync. intros Hwf H.
  destruct (readFileSync m s) as [data|]; [|discriminate H].
  destruct (locate m true d) as [q|] eqn:El; [|discriminate H].
  destruct (walk_parent m true _ _ [] q (or_introl eq_refl) El) as [->|[->|Hp]];
    [discriminate H|discriminate H|].
  destruct q as [|c q]; [discriminate H|]. cbn [node_at] in H.
  destruct (m !! (c :: q)) as [[d0| |t]|] eqn:E; try discriminate H;
    injection H as <-; apply well_formed_insert; try done; by rewrite E.
Qed.

Lemma kept_real_kept m m' : kept m m' → real_kept m m'.
Proof. intros H q n Hq _. by apply H. Qed.

Lemma safely_refl m : safely m m.
Proof. intros Hwf. split; [done|]. apply kept_real_kept, kept_refl. Qed.

Lemma safely_trans a b c : safely a b → safely b c → safely a c.
Proof.
  intros Hab Hbc Hwf. destruct (Hab Hwf) as [Hb Kab].
  destruct (Hbc Hb) as [Hc Kbc]. split; [done|].
  intros q n Hq Hn. specialize (Kab q n Hq Hn). destruct n as [d| |t].
  - destruct Kab as [d' Hb']. by apply (Kbc q (File d') Hb').
  - by apply (Kbc q Dir Kab).
  - discriminate Hn.
Qed.

Lemma copy_safely room src dest : preserves safely (copyRecursiveSync room src dest).
Proof.
  apply (preserves_copy safely safely_refl safely_trans).
  - intros p m m' H Hwf. split.
    + eapply mkdirp_well_formed; [|done|exact H]. by left.
    + eapply kept_real_kept, mkdirp_kept, H.
  - intros s d m m' H Hwf. split.
    + by eapply copyFileSync_well_formed.
    + by eapply kept_real_kept, copyFileSync_kept.
Qed.

(** Removing a store entry that passed the gate removes a link and nothing
    else. *)
Lemma rmSync_safely m dest :
  symlink_gate m dest = true → safely m (rmSync m dest).
Proof.
  intros G Hwf. unfold symlink_gate in G. apply andb_true_iff in G as [_ G].
  unfold lstatSync, inspect in G. unfold rmSync.
  destruct (locate m false dest) as [q|]; [|discriminate G].
  destruct (node_at m q) as [[| |t]|] eqn:En; try discriminate G.
  split; [by apply well_formed_filter|].
  intros k n Hk Hn.
  assert (Hk' : filter (λ kv : path * inode, ¬ q `prefix_of` kv.1) m !! k = Some n).
  { apply map_lookup_filter_Some. split; [done|]. cbn. intros Hq.
    destruct q as [|c q]; [discriminate En|]. cbn [node_at] in En.
    destruct (decide (c :: q = k)) as [<-|Hne].
    - rewrite En in Hk. injection Hk as <-. discriminate Hn.
    - by rewrite (well_formed_ancestors m k n Hwf Hk (c :: q)) in En. }
  destruct n; eauto.
Qed.

Lemma unlinkOne_safely h silent dev root nm entry :
  preserves safely (unlinkOne h silent true dev root nm entry).
Proof.
  destruct entry as [name v]. intros m.
  destruct v as [| | |v| |]; try apply safely_refl.
  destruct (symlink_gate m (join nm name)) eqn:G.
  - rewrite unlinkOne_symlink by done.
    rewrite bind_log, bind_rm. cbn [state negb].
    eapply safely_trans; [by apply rmSync_safely|].
    apply (preserves_bind safely safely_trans); [apply copy_safely|].
    intros _. apply (preserves_ret safely safely_refl).
  - destruct (existsSync m (join nm name)) eqn:E.
    + rewrite unlinkOne_physical by done. rewrite state_log. apply safely_refl.
    + rewrite unlinkOne_absent by done. rewrite state_log. apply safely_refl.
Qed.

(** X10 (only links are removed).  On a well-formed file system, a run with
    [noInstall] set loses no directory and no regular file: the recursive
    removal is only reached for an entry that is a symbolic link, so every
    directory that existed is still a directory and every regular file is
    still a regular file, however the run ends. *)
Theorem run_removes_only_links (h : host) (o : options) (m : fsmap) :
  well_formed m → option_get "noInstall" o = Some true →
  real_kept m (state (unlinkLocalDependencies h o m)).
Proof.
  intros Hwf Hn.
  destruct (unlink_cases h o m) as [[e ->]|(text & pkg & allDeps & _ & _ & _ & ->)].
  - apply kept_real_kept, kept_refl.
  - rewrite Hn. cbn [default]. unfold unlinkEntries.
    apply (preserves_forEach safely safely_refl safely_trans); [|done].
    intros entry. apply unlinkOne_safely.
Qed.

Lemma run_removes_only_links_witness :
  well_formed local_fs
  ∧ state (unlinkLocalDependencies local_host [("noInstall", true)] local_fs)
    ≠ local_fs
  ∧ real_kept local_fs
      (state (unlinkLocalDependencies local_host [("noInstall", true)] local_fs)).
Proof.
  assert (Hwf : well_formed local_fs)
    by (apply (bool_decide_unpack _); vm_compute; exact I).
  split; [exact Hwf|]. split.
  - intros E. apply (f_equal (λ m : fsmap, m !! (store ++ ["local-pkg"]))) in E.
    vm_compute in E. discriminate E.
  - apply (run_removes_only_links local_host [("noInstall", true)] local_fs Hwf).
    reflexivity.
Defined.

(** ** The copy, whatever the source holds *)

(** X11 (the copy stays below its destination).  When nothing exists at or
    below [dest] and [dest] lies in real directories, the copy changes
    nothing outside [dest], whatever the source holds and however the copy
    ends (a missing source, links, a source nested too deep); nothing it
    creates below [dest] is a symbolic link, since links in the source are
    followed; and when it returns normally [dest] is a directory. *)
Theorem copy_stays_below_destination (room : nat) (src dest : path) (m : fsmap) :
  Forall plain dest → dest ≠ [] →
  Forall (λ q, m !! q = Some Dir) (ancestors (removelast dest)) →
  map_Forall (λ k _, ¬ dest `prefix_of` k) m → names_ok m →
  (∀ q, ¬ dest `prefix_of` q →
        state (copyRecursiveSync room src dest m) !! q = m !! q)
  ∧ (∀ k n, state (copyRecursiveSync room src dest m) !! k = Some n →
            dest `prefix_of` k → isSymbolicLink n = false)
  ∧ (outcome (copyRecursiveSync room src dest m) = Normal tt →
     state (copyRecursiveSync room src dest m) !! dest = Some Dir).
Proof.
  intros Hpl Hne Hpar Hfresh Hnames. apply real_dirs_ancestors in Hpar.
  destruct (copy_frame room src dest m) as (F1 & F2 & F3); try done.
  { intros q Hq. destruct (m !! q) as [n|] eqn:E; [|done].
    by destruct (Hfresh q n E). }
  split_and!; [done| |done].
  intros k n Hk Hd. by destruct (F2 k n Hk Hd).
Qed.

Lemma copy_stays_below_destination_witness :
  outcome (copyRecursiveSync 8 ["s"] ["d"] linked_fs) = Normal tt
  ∧ state (copyRecursiveSync 8 ["s"] ["d"] linked_fs) !! ["d"; "alias"]
    = Some (File "data")
  ∧ (∀ q, ¬ ["d"] `prefix_of` q →
          state (copyRecursiveSync 8 ["s"] ["d"] linked_fs) !! q = linked_fs !! q)
  ∧ (∀ k n, state (copyRecursiveSync 8 ["s"] ["d"] linked_fs) !! k = Some n →
            ["d"] `prefix_of` k → isSymbolicLink n = false).
Proof.
  split; [vm_compute; reflexivity|]. split; [vm_compute; reflexivity|].
  destruct (copy_stays_below_destination 8 ["s"] ["d"] linked_fs)
    as (F1 & F2 & _);
    try (apply (bool_decide_unpack _); vm_compute; exact I).
  split; [exact F1|exact F2].
Defined.

(** ** A source that cannot be listed *)

Lemma mkdirSync_entry m (p : path) c :
  Forall (λ c, c ≠ "") p → c ≠ "" → real_dirs m p → m !! (p ++ [c]) = None →
  mkdirSync m (p ++ [c]) = Done (<[p ++ [c] := Dir]> m).
Proof.
  intros Hp Hc Hd Hn.
  destruct (mkdirSync_spec m (p ++ [c])) as (m' & -> & Hreal & Hrest).
  { apply Forall_app. split; [done|by apply Forall_singleton]. }
  { intros q Hq Hqne. apply prefix_snoc_inv in Hq as [Hq| ->]; [left|by right].
    by apply Hd. }
  f_equal. apply map_eq. intros q.
  destruct (decide (q = p ++ [c])) as [->|Hne].
  - rewrite lookup_insert_eq. apply Hreal; [done|by destruct p].
  - rewrite lookup_insert_ne by done.
    destruct (decide (q = [])) as [Hq0|Hqne]; [apply Hrest; by left|].
    destruct (decide (q `prefix_of` p ++ [c])) as [Hq|Hq];
      [|apply Hrest; by right].
    rewrite (Hreal q Hq Hqne).
    apply prefix_snoc_inv in Hq as [Hq|?]; [|done]. symmetry. by apply Hd.
Qed.

Lemma copy_unlistable room src dest m m' e :
  existsSync m dest = false → mkdirSync m dest = Done m' →
  readdirSync m' src = Fail e →
  copyRecursiveSync (S room) src dest m
  = Result (Throw (SystemError e "scandir" src)) m' [MkdirCall dest].
Proof.
  intros Hex Hmk Hls. rewrite copyRecursiveSync_S.
  unfold fs_existsSync. rewrite bind_query, Hex. cbn [negb].
  rewrite (bind_mkdir_done _ _ _ m') by exact Hmk.
  unfold fs_readdirSync. rewrite (bind_try_query_fail _ _ _ _ _ e) by exact Hls.
  reflexivity.
Qed.

(** X12 (source that cannot be listed).  When the store entry is a link that
    passes the gate but the directory its specifier names cannot be listed
    (it is missing, or is not a directory), the callback throws the error
    of [readdirSync] after the link has been removed and an empty directory
    created in its place: the file system is left with that empty directory,
    and the events are the report, the removal and the directory creation. *)
Theorem missing_source_leaves_empty_directory (h : host)
    (silent noInstall dev : bool) (root nm : path) (name v : string) (m : fsmap)
    (e : errno) :
  Forall plain nm → plain name →
  Forall (λ q, m !! q = Some Dir) (ancestors nm) →
  symlink_gate m (nm ++ [name]) = true →
  stack_room h ≠ 0 →
  readdirSync (<[nm ++ [name] := Dir]> (rmSync m (nm ++ [name])))
    (resolve root (strip_file v)) = Fail e →
  unlinkOne h silent noInstall dev root nm (name, JStr v) m
  = Result (Throw (SystemError e "scandir" (resolve root (strip_file v))))
      (<[nm ++ [name] := Dir]> (rmSync m (nm ++ [name])))
      (trace (log (replace_message name v) "log" silent m)
       ++ [RmCall (nm ++ [name]); MkdirCall (nm ++ [name])])
  ∧ (∀ q, (<[nm ++ [name] := Dir]> (rmSync m (nm ++ [name]))) !! q
          = if decide (q = nm ++ [name]) then Some Dir
            else if decide (nm ++ [name] `prefix_of` q) then None
            else m !! q).
Proof.
  intros Hnm Hname Hpar G Hroom Hls. apply real_dirs_ancestors in Hpar.
  pose proof (plain_components _ Hnm) as Hnm'.
  pose proof (plain_nonempty _ Hname) as Hname'.
  assert (Hrm : ∀ q, rmSync m (nm ++ [name]) !! q
            = if decide (nm ++ [name] `prefix_of` q) then None else m !! q).
  { intros q. by apply rmSync_entry. }
  assert (Hreal : real_dirs (rmSync m (nm ++ [name])) nm).
  { intros q Hq Hqne. rewrite Hrm, decide_False; [by apply Hpar|].
    intros Hpre. assert (nm ++ [name] `prefix_of` nm) by (by etrans).
    by eapply prefix_snoc_not. }
  assert (Hgone : rmSync m (nm ++ [name]) !! (nm ++ [name]) = None)
    by (by rewrite Hrm, decide_True).
  split.
  - destruct (stack_room h) as [|room] eqn:Er; [done|].
    pose proof (copy_unlistable room (resolve root (strip_file v)) (nm ++ [name])
                  (rmSync m (nm ++ [name])) _ e
                  (exists_entry_none _ _ _ Hnm' Hname' Hreal Hgone)
                  (mkdirSync_entry _ _ _ Hnm' Hname' Hreal Hgone) Hls) as Hcopy.
    rewrite <- (join_plain nm name) in * by done.
    rewrite unlinkOne_symlink by done.
    rewrite bind_log, bind_rm. cbn [outcome state trace].
    rewrite Er.
    rewrite (bind_thrown _ _ _ (SystemError e "scandir" (resolve root (strip_file v))))
      by (by rewrite Hcopy).
    rewrite Hcopy. reflexivity.
  - intros q. destruct (decide (q = nm ++ [name])) as [->|Hne].
    + apply lookup_insert_eq.
    + rewrite lookup_insert_ne by done. apply Hrm.
Qed.

Lemma missing_source_leaves_empty_directory_witness :
  symlink_gate orphan_fs (store ++ ["gone"]) = true
  ∧ unlinkOne local_host false false false project_root store
      ("gone", JStr "file:../missing") orphan_fs
    = Result (Throw (SystemError ENOENT "scandir" ["fake"; "missing"]))
        (<[store ++ ["gone"] := Dir]> (rmSync orphan_fs (store ++ ["gone"])))
        ([Console "log"
            "[REPLACE] gone: replacing symlink with copy from ../missing"]
         ++ [RmCall (store ++ ["gone"]); MkdirCall (store ++ ["gone"])]).
Proof.
  assert (G : symlink_gate orphan_fs (store ++ ["gone"]) = true)
    by (vm_compute; reflexivity).
  split; [exact G|].
  destruct (missing_source_leaves_empty_directory local_host false false false
              project_root store "gone" "file:../missing" orphan_fs ENOENT)
    as [Hrun _];
    [apply (bool_decide_unpack _); vm_compute; exact I
    |apply (bool_decide_unpack _); vm_compute; exact I
    |apply (bool_decide_unpack _); vm_compute; exact I
    |exact G
    |discriminate
    |vm_compute; reflexivity
    |exact Hrun].
Defined.

(** ** What a run leaves alone *)

Lemma run_frame h silent noInstall dev root nm all :
  npm_confined h → ∀ l mi,
  Forall (λ e, ∃ v, e.2 = JStr v) l →
  all_apart (dest_of nm <$> l) → (∀ e, e ∈ l → dest_of nm e ∈ all) →
  Forall (steady mi all) (dest_of nm <$> l) → names_ok mi →
  (∀ q, (∀ e, e ∈ l → ¬ dest_of nm e `prefix_of` q) →
        state (forEach l (unlinkOne h silent noInstall dev root nm) mi) !! q = mi !! q)
  ∧ names_ok (state (forEach l (unlinkOne h silent noInstall dev root nm) mi)).
Proof.
  intros Hnpm. induction l as [|[name v] l IH]; intros mi Hstr Hap Hall Hst Hnames.
  - split; done.
  - apply Forall_cons in Hstr as [[s Hs] Hstr]. cbn in Hs. subst v.
    cbn [fmap list_fmap] in Hap, Hst. destruct Hap as [Hap1 Hap].
    apply Forall_cons in Hst as [Hst1 Hst].
    destruct (unlinkOne_frame h silent noInstall dev root nm name s all mi Hnpm Hnames Hst1)
      as (F1 & Fn & _).
    rewrite forEach_cons_state.
    set (r1 := unlinkOne h silent noInstall dev root nm (name, JStr s) mi) in *.
    destruct (outcome r1) as [[]|e] eqn:Ho1.
    + rewrite Forall_forall in Hap1.
      destruct (IH (state r1)) as (G1 & Gn); [done|done| | |done|].
      { intros e Hin. apply Hall. by right. }
      { apply Forall_forall. intros d' Hd'. rewrite Forall_forall in Hst.
        apply (steady_frame mi _ all (join nm name)); [by apply Hst|exact F1| |].
        - by apply Hap1.
        - apply (Hall (name, JStr s)). by left. }
      split; [|done].
      intros q Hq. rewrite G1.
      * apply F1. apply (Hq (name, JStr s)). by left.
      * intros e Hin. apply Hq. by right.
    + split; [|done]. intros q Hq. apply F1. apply (Hq (name, JStr s)). by left.
Qed.

(** X13 (a run leaves the rest alone).  In a project laid out as
    [store_layout] says and with an install command that only changes what
    lies below its working directory, a run changes nothing outside the
    store entries of the file-path dependencies, however it ends: the
    manifest, the sources of the dependencies and the other store entries
    are as before. *)
Theorem run_changes_only_store_entries (h : host) (o : options) (m : fsmap)
    (text : string) (q : path) :
  npm_confined h → store_layout h m text →
  Forall (λ d, ¬ d `prefix_of` q) (store_entries h text) →
  state (unlinkLocalDependencies h o m) !! q = m !! q.
Proof.
  intros Hnpm (Hroot & Hrd & Hman & Hnames & Hap & Hst & _) Hq.
  destruct (unlink_cases h o m) as [[e ->]|(text' & pkg & allDeps & Hr & Hp & Hm & ->)];
    [done|].
  apply real_dirs_ancestors in Hrd.
  assert (text' = text) as ->.
  { rewrite join_plain in Hr by (done || apply plain_package_json).
    rewrite (readFileSync_child m (cwd h) "package.json" text) in Hr;
      [by injection Hr|by apply plain_components|done|done|done]. }
  unfold store_entries in Hap, Hst, Hq. rewrite Hp, Hm in Hap, Hst, Hq.
  unfold unlinkEntries.
  destruct (run_frame h (default false (option_get "silent" o))
              (default false (option_get "noInstall" o))
              (default false (option_get "dev" o)) (cwd h)
              (join (cwd h) "node_modules") _ Hnpm _ m
              (filter_file_specs (Object_entries allDeps)) Hap
              (λ e He, proj2 (list_elem_of_fmap _ _ _) (ex_intro _ e (conj eq_refl He)))
              Hst Hnames) as [Hframe _].
  apply Hframe. intros e He. rewrite Forall_forall in Hq. apply Hq.
  apply list_elem_of_fmap. by exists e.
Qed.

Lemma run_changes_only_store_entries_witness :
  state (unlinkLocalDependencies local_host [] local_fs)
    !! (store ++ ["local-pkg"; "index.js"]) = Some (File "module.exports = 1;")
  ∧ state (unlinkLocalDependencies local_host [] local_fs)
      !! ["fake"; "local-package"; "index.js"]
    = local_fs !! ["fake"; "local-package"; "index.js"].
Proof.
  split; [vm_compute; reflexivity|].
  apply (run_changes_only_store_entries local_host [] local_fs local_manifest_text).
  - apply npm_ok_confined.
  - apply (bool_decide_unpack _). vm_compute. exact I.
  - apply (bool_decide_unpack _). vm_compute. exact I.
Defined.

(** ** Replacing one link *)

(** Once the entry is removed, the copy finds a fresh destination. *)
Lemma replace_copied room (src nm : path) name m :
  Forall plain nm → plain name → real_dirs m nm →
  source_tree m src room → apart src (nm ++ [name]) →
  ∃ m' t,
    copyRecursiveSync room src (nm ++ [name]) (rmSync m (nm ++ [name]))
    = Result (Normal tt) m' t
    ∧ Forall (λ e, is_spawn e = false) t
    ∧ (∀ rel, m' !! ((nm ++ [name]) ++ rel) = m !! (src ++ rel))
    ∧ (∀ q, ¬ (nm ++ [name]) `prefix_of` q → m' !! q = m !! q).
Proof.
  intros Hnm Hname Hpar (Hsrc & Hroom & Hsd & Htree) Hap.
  apply real_dirs_ancestors in Hsd.
  pose proof (plain_components _ Hnm) as Hnm'.
  pose proof (plain_nonempty _ Hname) as Hname'.
  set (dest := nm ++ [name]) in *.
  assert (Hrm : ∀ q, rmSync m dest !! q
            = if decide (dest `prefix_of` q) then None else m !! q).
  { intros q. by apply rmSync_entry. }
  assert (Hout : ∀ r, rmSync m dest !! (src ++ r) = m !! (src ++ r)).
  { intros r. rewrite Hrm, decide_False; [done|]. by apply apart_under. }
  assert (Hready : copy_ready (rmSync m dest) src dest room).
  { split_and!; try done.
    - apply Forall_app. split; [done|by apply Forall_singleton].
    - intros q Hq Hqne. rewrite Hrm, decide_False; [by apply Hsd|].
      intros Hpre. destruct Hap as [_ Hds]. apply Hds. by etrans.
    - intros k n Hk [r ->] Hne. rewrite Hout in Hk.
      destruct (Htree _ _ Hk) as (? & ? & Hp & ?); [by exists r|done|].
      split_and!; try done.
      destruct r as [|c r _] using rev_ind; [by rewrite app_nil_r in Hne|].
      rewrite app_assoc, removelast_last in Hp |- *. by rewrite Hout.
    - intros q Hq Hqne. apply prefix_snoc_inv in Hq as [Hq| ->].
      + left. rewrite Hrm, decide_False; [by apply Hpar|].
        intros Hpre. assert (nm ++ [name] `prefix_of` nm) by (by etrans).
        by eapply prefix_snoc_not.
      + right. by rewrite Hrm, decide_True.
    - intros q Hq. by rewrite Hrm, decide_True. }
  destruct (copy_correct room src dest _ Hready) as (m' & t & Hrun & Hgraft & _).
  exists m', (MkdirCall dest :: t). split; [exact Hrun|]. split_and!.
  - pose proof (emits_copy (λ e, is_spawn e = false) room
                  (λ _, eq_refl) (λ _ _, eq_refl) src dest (rmSync m dest)) as He.
    by rewrite Hrun in He.
  - intros rel. rewrite Hgraft. unfold grafted.
    rewrite decide_True by (by exists rel).
    by rewrite drop_app_length, Hout.
  - intros q Hq. rewrite Hgraft. unfold grafted. rewrite decide_False by done.
    case_decide as Hqd.
    + destruct Hqd as [Hqd Hqne]. symmetry.
      apply prefix_snoc_inv in Hqd as [Hqd|?]; [by apply Hpar|].
      subst q. by destruct Hq.
    + by rewrite Hrm, decide_False.
Qed.

(** X14 (one link replaced).  For a store entry [nm/name] that passes the
    gate, with a source that is a tree of directories and regular files
    lying apart from the entry and shallower than the call stack, the
    callback (without install) returns normally; afterwards the entry holds
    exactly what the source holds, path by path, and everything outside the
    entry is as before. *)
Theorem link_is_replaced_by_a_copy (h : host) (silent dev : bool) (root nm : path)
    (name v : string) (m : fsmap) :
  Forall plain nm → plain name →
  Forall (λ q, m !! q = Some Dir) (ancestors nm) →
  symlink_gate m (nm ++ [name]) = true →
  source_tree m (resolve root (strip_file v)) (stack_room h) →
  apart (resolve root (strip_file v)) (nm ++ [name]) →
  outcome (unlinkOne h silent true dev root nm (name, JStr v) m) = Normal tt
  ∧ (∀ rel, state (unlinkOne h silent true dev root nm (name, JStr v) m)
              !! ((nm ++ [name]) ++ rel)
            = m !! (resolve root (strip_file v) ++ rel))
  ∧ (∀ q, ¬ (nm ++ [name]) `prefix_of` q →
          state (unlinkOne h silent true dev root nm (name, JStr v) m) !! q = m !! q).
Proof.
  intros Hnm Hname Hpar G Htree Hap. apply real_dirs_ancestors in Hpar.
  destruct (replace_copied _ _ _ _ m Hnm Hname Hpar Htree Hap)
    as (m' & t & Hrun & _ & Hin & Hout).
  rewrite <- (join_plain nm name) in * by done.
  rewrite unlinkOne_replaced by (done || by rewrite Hrun).
  rewrite Hrun. cbn [outcome state trace negb ret]. done.
Qed.

Lemma link_is_replaced_by_a_copy_witness :
  symlink_gate local_fs (store ++ ["local-pkg"]) = true
  ∧ state (unlinkOne local_host false true false project_root store
             ("local-pkg", JStr "file:../local-package") local_fs)
      !! ((store ++ ["local-pkg"]) ++ ["lib"; "helper.js"])
    = local_fs !! (["fake"; "local-package"] ++ ["lib"; "helper.js"]).
Proof.
  assert (G : symlink_gate local_fs (store ++ ["local-pkg"]) = true)
    by (vm_compute; reflexivity).
  split; [exact G|].
  destruct (link_is_replaced_by_a_copy local_host false false project_root store
              "local-pkg" "file:../local-package" local_fs)
    as (_ & Hin & _);
    [apply (bool_decide_unpack _); vm_compute; exact I
    |apply (bool_decide_unpack _); vm_compute; exact I
    |apply (bool_decide_unpack _); vm_compute; exact I
    |exact G
    |apply (bool_decide_unpack _); vm_compute; exact I
    |apply (bool_decide_unpack _); vm_compute; exact I
    |].
  exact (Hin ["lib"; "helper.js"]).
Defined.

Lemma filter_spawn_none (t : list event) :
  Forall (λ e, is_spawn e = false) t → List.filter is_spawn t = [].
Proof.
  induction 1 as [|e t He _ IH]; [done|]. cbn [List.filter]. by rewrite He.
Qed.

Lemma filter_spawn_log msg level silently m :
  List.filter is_spawn (trace (log msg level silently m)) = [].
Proof. rewrite trace_log. by destruct silently. Qed.

(** X15 (install after the copy).  In the same situation, with install
    enabled, the callback starts a process exactly when the source holds a
    [package.json] and no [node_modules]: then it is the one install command
    in the store entry, and otherwise there is none (a package copied with
    its dependency store is not installed again). *)
Theorem install_follows_the_copied_manifest (h : host) (silent dev : bool)
    (root nm : path) (name v : string) (m : fsmap) :
  Forall plain nm → plain name →
  Forall (λ q, m !! q = Some Dir) (ancestors nm) →
  symlink_gate m (nm ++ [name]) = true →
  source_tree m (resolve root (strip_file v)) (stack_room h) →
  apart (resolve root (strip_file v)) (nm ++ [name]) →
  List.filter is_spawn (trace (unlinkOne h silent false dev root nm (name, JStr v) m))
  = if bool_decide (is_Some (m !! (resolve root (strip_file v) ++ ["package.json"]))
                    ∧ m !! (resolve root (strip_file v) ++ ["node_modules"]) = None)
    then [SpawnCall "npm" (install_args dev) (install_options h (nm ++ [name]) silent)]
    else [].
Proof.
  intros Hnm Hname Hpar G Htree Hap. apply real_dirs_ancestors in Hpar.
  destruct (replace_copied _ _ _ _ m Hnm Hname Hpar Htree Hap)
    as (m' & t & Hrun & Ht & Hin & Hout).
  set (src := resolve root (strip_file v)) in *.
  set (dest := nm ++ [name]) in *.
  assert (Hdest : Forall plain dest).
  { apply Forall_app. split; [done|by apply Forall_singleton]. }
  pose proof (plain_components _ Hdest) as Hdest'.
  destruct Htree as (_ & _ & Hsd & Htree). apply real_dirs_ancestors in Hsd.
  assert (Hreal : real_dirs m' dest).
  { intros q Hq Hqne. apply prefix_snoc_inv in Hq as [Hq| ->].
    - rewrite Hout; [by apply Hpar|]. intros Hpre.
      assert (nm ++ [name] `prefix_of` nm) by (by etrans).
      by eapply prefix_snoc_not.
    - fold dest. specialize (Hin []). rewrite !app_nil_r in Hin. rewrite Hin.
      apply Hsd; [done|]. by destruct (apart_nonempty _ _ Hap). }
  assert (Hex : ∀ c, plain c →
            existsSync m' (join dest c) = bool_decide (is_Some (m !! (src ++ [c])))).
  { intros c Hc. rewrite join_plain by done.
    pose proof (plain_nonempty _ Hc) as Hc'.
    destruct (m !! (src ++ [c])) as [n|] eqn:E.
    - rewrite bool_decide_eq_true_2 by done.
      apply (exists_entry_plain _ _ _ n); try done; [by rewrite Hin|].
      destruct (Htree _ _ E) as (_ & Hl & _); [by apply prefix_app_r| |done].
      intros Heq. apply (f_equal List.length) in Heq. rewrite length_app in Heq.
      cbn [List.length] in Heq. lia.
    - rewrite bool_decide_eq_false_2 by (by intros [? ?]).
      apply exists_entry_none; try done. by rewrite Hin. }
  subst src dest.
  assert (Hd : join nm name = nm ++ [name]) by (by apply join_plain).
  rewrite <- Hd in G.
  rewrite unlinkOne_replaced by (done || by rewrite Hd, Hrun).
  rewrite Hd, Hrun. cbn [outcome state trace negb].
  rewrite !List.filter_app, filter_spawn_log. cbn [List.filter is_spawn app].
  rewrite List.filter_app, (filter_spawn_none t Ht). cbn [app].
  pose proof (Hex "package.json" plain_package_json) as Hpkg.
  pose proof (Hex "node_modules" plain_node_modules) as Hstore.
  destruct (m !! (resolve root (strip_file v) ++ ["package.json"])) as [n|] eqn:Epkg.
  - rewrite bool_decide_eq_true_2 in Hpkg by done.
    destruct (m !! (resolve root (strip_file v) ++ ["node_modules"])) as [n'|] eqn:Est.
    + rewrite bool_decide_eq_true_2 in Hstore by done.
      rewrite install_store_present by done. rewrite filter_spawn_log.
      rewrite bool_decide_eq_false_2; [done|]. by intros [_ ?].
    + rewrite bool_decide_eq_false_2 in Hstore by (by intros [? ?]).
      rewrite install_runs by done. cbn [trace].
      rewrite List.filter_app, filter_spawn_log. cbn [List.filter is_spawn app].
      rewrite (bool_decide_eq_true_2 (is_Some (Some n) ∧ _)) by (by split).
      f_equal. destruct (bool_decide _); [done|apply filter_spawn_log].
  - rewrite bool_decide_eq_false_2 in Hpkg by (by intros [? ?]).
    rewrite install_no_manifest by done. rewrite filter_spawn_log.
    rewrite bool_decide_eq_false_2; [done|]. by intros [[? ?] _].
Qed.

Lemma install_follows_the_copied_manifest_witness :
  symlink_gate local_fs (store ++ ["local-pkg"]) = true
  ∧ List.filter is_spawn
      (trace (unlinkOne local_host false false false project_root store
                ("local-pkg", JStr "file:../local-package") local_fs))
    = [SpawnCall "npm" ["install"; "--no-audit"; "--no-fund"; "--production"]
         (SpawnOptions (store ++ ["local-pkg"]) Inherit false)].
Proof.
  assert (G : symlink_gate local_fs (store ++ ["local-pkg"]) = true)
    by (vm_compute; reflexivity).
  split; [exact G|].
  rewrite (install_follows_the_copied_manifest local_host false false project_root
             store "local-pkg" "file:../local-package" local_fs);
    [vm_compute; reflexivity
    |apply (bool_decide_unpack _); vm_compute; exact I
    |apply (bool_decide_unpack _); vm_compute; exact I
    |apply (bool_decide_unpack _); vm_compute; exact I
    |exact G
    |apply (bool_decide_unpack _); vm_compute; exact I
    |apply (bool_decide_unpack _); vm_compute; exact I].
Defined.

(** ** A link that leads nowhere *)

(** X16 (dangling link).  A store entry that is a link to a location that
    does not exist is reported as not found: the callback writes the warning
    (unless silent), returns normally and leaves the file system, the link
    included, as it is. *)
Theorem dangling_link_is_reported_missing (h : host) (silent noInstall dev : bool)
    (root nm : path) (name v : string) (m : fsmap) (t : path) :
  Forall plain nm → plain name →
  Forall (λ q, m !! q = Some Dir) (ancestors nm) →
  m !! (nm ++ [name]) = Some (Symlink t) →
  t ≠ [] → Forall (λ c, c ≠ "") t →
  Forall (λ q, m !! q = Some Dir ∨ m !! q = None) (ancestors t) →
  m !! t = None →
  unlinkOne h silent noInstall dev root nm (name, JStr v) m
  = Result (Normal tt) m
      (if silent then [] else [Console "warn" (warn_message name)]).
Proof.
  intros Hnm Hname Hpar Hl Ht Htne Hway Hnone. apply real_dirs_ancestors in Hpar.
  pose proof (plain_components _ Hnm) as Hnm'.
  pose proof (plain_nonempty _ Hname) as Hname'.
  assert (Hex : existsSync m (join nm name) = false).
  { rewrite join_plain by done.
    unfold existsSync, statSync, inspect, locate.
    rewrite walk_dirs by done. rewrite walk_cons, decide_False by done.
    cbn [app]. rewrite Hl. cbn [is_nil negb andb].
    change MAXSYMLINKS with (S 39). cbv iota. rewrite app_nil_r.
    assert (Hw : ∀ k, k `prefix_of` t → k ≠ [] →
              m !! ([] ++ k) = Some Dir ∨ m !! ([] ++ k) = None).
    { intros k Hk Hkne. cbn [app]. rewrite Forall_forall in Hway.
      apply Hway. by apply elem_of_ancestors. }
    destruct (walk_absent 39 m true t [] Ht Htne Hw Hnone) as [->|[e ->]]; [|done].
    cbn [app]. destruct t; [done|]. cbn [node_at]. by rewrite Hnone. }
  rewrite unlinkOne_absent by done.
  unfold log. by destruct silent.
Qed.

Lemma dangling_link_is_reported_missing_witness :
  unlinkOne local_host false false false project_root store
    ("local-pkg", JStr "file:../local-package") dangling_fs
  = Result (Normal tt) dangling_fs
      [Console "warn" "[WARN] local-pkg not found in node_modules"].
Proof.
  apply (dangling_link_is_reported_missing local_host false false false project_root
           store "local-pkg" "file:../local-package" dangling_fs
           ["fake"; "moved"; "local-package"]);
    apply (bool_decide_unpack _); vm_compute; exact I.
Defined.

(** ** A whole run without install *)

Lemma source_tree_frame m m' (src d : path) room :
  source_tree m src room → (∀ q, ¬ d `prefix_of` q → m' !! q = m !! q) →
  apart src d → source_tree m' src room.
Proof.
  intros (Hpl & Hroom & Hanc & Htree) Hframe [Hsd Hds].
  assert (Hunder : ∀ k, src `prefix_of` k → ¬ d `prefix_of` k).
  { intros k Hk Hd. destruct (prefix_weak_total _ _ _ Hk Hd); done. }
  split_and!; [done|done| |].
  - apply Forall_forall. intros q Hq. rewrite Forall_forall in Hanc.
    rewrite Hframe; [by apply Hanc|].
    apply elem_of_ancestors in Hq as [Hq _]. intros Hd. apply Hds. by etrans.
  - intros k n Hk Hsk Hne. rewrite Hframe in Hk by (by apply Hunder).
    destruct (Htree k n Hk Hsk Hne) as (? & ? & Hp & ?). split_and!; try done.
    rewrite Hframe; [done|]. intros Hd. apply (Hunder k Hsk).
    etrans; [exact Hd|].
    destruct k as [|c k _] using rev_ind; [done|].
    rewrite removelast_last. by apply prefix_app_r.
Qed.

Lemma materialise_one h silent dev root nm all name v m :
  steady m all (join nm name) → join nm name ∈ all →
  source_ready (stack_room h) root nm all m (name, JStr v) →
  outcome (unlinkOne h silent true dev root nm (name, JStr v) m) = Normal tt
  ∧ (∀ q, ¬ join nm name `prefix_of` q →
          state (unlinkOne h silent true dev root nm (name, JStr v) m) !! q = m !! q)
  ∧ (∀ rel, state (unlinkOne h silent true dev root nm (name, JStr v) m)
              !! (join nm name ++ rel)
            = materialised root nm m (name, JStr v) rel).
Proof.
  intros (Hpl & Hne & Hpar & Hnode) Hin Hsrc.
  unfold source_ready, materialised, dest_of, src_of in *. cbn [fst snd] in *.
  apply real_dirs_ancestors in Hpar.
  destruct (snoc_removelast _ Hne) as (p & c & Hd & Hp). rewrite Hp in Hpar.
  assert (Forall plain p ∧ plain c) as [Hpp Hpc].
  { rewrite Hd in Hpl. apply Forall_app in Hpl as [? Hc]. split; [done|by inversion Hc]. }
  pose proof (plain_components _ Hpp) as Hpne.
  pose proof (plain_nonempty _ Hpc) as Hcne.
  destruct (m !! join nm name) as [n|] eqn:En;
    [destruct (isSymbolicLink n) eqn:El|].
  - destruct n as [| |t]; try discriminate El.
    destruct Hnode as (Ht & Htd & _). apply real_dirs_ancestors in Htd.
    destruct Hsrc as [Htree Hap]. rewrite Forall_forall in Hap.
    specialize (Hap _ Hin).
    assert (G : symlink_gate m (join nm name) = true).
    { rewrite Hd. rewrite Hd in En. by apply (symlink_gate_link _ _ _ t). }
    rewrite Hd in Hap.
    destruct (replace_copied _ _ _ _ m Hpp Hpc Hpar Htree Hap)
      as (m' & tr & Hrun & _ & Hmirror & Hout).
    rewrite <- Hd in Hrun, Hmirror, Hout.
    rewrite unlinkOne_replaced by (done || by rewrite Hrun).
    rewrite Hrun. cbn [outcome state trace negb ret]. done.
  - rewrite unlinkOne_physical.
    + rewrite outcome_log, state_log. by destruct n.
    + rewrite Hd. rewrite Hd in En. by apply (exists_entry_plain _ _ _ n).
    + rewrite Hd. apply symlink_gate_settled; try done.
      rewrite <- Hd, En. by destruct n.
  - rewrite unlinkOne_absent; [rewrite outcome_log, state_log; done|].
    rewrite Hd. rewrite Hd in En. by apply exists_entry_none.
Qed.

Lemma materialise_loop h silent dev root nm all : ∀ l mi,
  Forall (λ e, ∃ v, e.2 = JStr v) l →
  all_apart (dest_of nm <$> l) → (∀ e, e ∈ l → dest_of nm e ∈ all) →
  Forall (steady mi all) (dest_of nm <$> l) →
  Forall (source_ready (stack_room h) root nm all mi) l →
  outcome (forEach l (unlinkOne h silent true dev root nm) mi) = Normal tt
  ∧ (∀ q, (∀ e, e ∈ l → ¬ dest_of nm e `prefix_of` q) →
          state (forEach l (unlinkOne h silent true dev root nm) mi) !! q = mi !! q)
  ∧ (∀ e, e ∈ l → ∀ rel,
       state (forEach l (unlinkOne h silent true dev root nm) mi)
         !! (dest_of nm e ++ rel)
       = materialised root nm mi e rel).
Proof.
  induction l as [|[name v] l IH]; intros mi Hstr Hap Hall Hst Hsrc.
  - split_and!; [done|done|]. intros e Hin. by apply elem_of_nil in Hin.
  - apply Forall_cons in Hstr as [[s Hs] Hstr]. cbn in Hs. subst v.
    cbn [fmap list_fmap] in Hap, Hst. destruct Hap as [Hap1 Hap].
    apply Forall_cons in Hst as [Hst1 Hst]. apply Forall_cons in Hsrc as [Hsrc1 Hsrc].
    rewrite Forall_forall in Hap1. rewrite Forall_forall in Hst.
    rewrite Forall_forall in Hsrc.
    assert (Hin1 : join nm name ∈ all) by (apply (Hall (name, JStr s)); by left).
    destruct (materialise_one h silent dev root nm all name s mi Hst1 Hin1 Hsrc1)
      as (Ho1 & F1 & M1).
    set (r1 := unlinkOne h silent true dev root nm (name, JStr s) mi) in *.
    assert (Hapart : ∀ e, e ∈ l → apart (join nm name) (dest_of nm e)).
    { intros e He. apply Hap1. apply list_elem_of_fmap. by exists e. }
    assert (Hkeep : ∀ e, e ∈ l → ∀ rel,
              state r1 !! (dest_of nm e ++ rel) = mi !! (dest_of nm e ++ rel)).
    { intros e He rel. apply F1. intros Hpre.
      destruct (Hapart e He) as [H1 H2].
      destruct (prefix_weak_total _ _ _ Hpre (prefix_app_r _ _ rel (reflexivity _)));
        done. }
    destruct (IH (state r1)) as (Go & G1 & GM); [done|done| | | |].
    { intros e Hin. apply Hall. by right. }
    { apply Forall_forall. intros d' Hd'.
      apply (steady_frame mi _ all (join nm name)); [by apply Hst|exact F1| |done].
      by apply Hap1. }
    { apply Forall_forall. intros e He. specialize (Hsrc e He).
      unfold source_ready in *.
      specialize (Hkeep e He []). rewrite !app_nil_r in Hkeep. rewrite Hkeep.
      destruct (mi !! dest_of nm e) as [[| |t]|]; try done.
      destruct Hsrc as [Htree Hsa]. split; [|done].
      apply (source_tree_frame mi _ _ (join nm name)); [done|exact F1|].
      rewrite Forall_forall in Hsa. by apply Hsa. }
    rewrite forEach_cons_normal by exact Ho1. fold r1. cbn [outcome state trace].
    split_and!; [done| |].
    + intros q Hq. rewrite G1.
      * apply F1. apply (Hq (name, JStr s)). by left.
      * intros e Hin. apply Hq. by right.
    + intros e Hin rel. apply elem_of_cons in Hin as [->|Hin].
      * rewrite G1; [apply M1|].
        intros e He Hpre. destruct (Hapart e He) as [H1 H2].
        unfold dest_of at 2 in Hpre. cbn [fst] in Hpre.
        destruct (prefix_weak_total _ _ _ Hpre
                    (prefix_app_r _ _ rel (reflexivity _))); done.
      * rewrite (GM e Hin rel). unfold materialised.
        pose proof (Hkeep e Hin []) as Hk0. rewrite !app_nil_r in Hk0. rewrite Hk0.
        specialize (Hsrc e Hin). unfold source_ready in Hsrc.
        destruct (mi !! dest_of nm e) as [[| |t]|]; try apply (Hkeep e Hin).
        destruct Hsrc as [_ Hsa]. rewrite Forall_forall in Hsa.
        apply F1. apply apart_under. by apply Hsa.
Qed.

(** X17 (a whole run without install).  For a manifest that is an object,
    in a project laid out as [store_layout] says and whose linked entries
    have sources as [sources_ready] says, a run with [noInstall] set returns
    normally; afterwards every store entry that was a link holds exactly
    what its source holds, every other store entry holds what it held, and
    everything outside the store entries is as before. *)
Theorem run_materialises_links (h : host) (o : options) (m : fsmap)
    (text : string) (ms : list (string * json)) :
  option_get "noInstall" o = Some true →
  JSON_parse h text = inl (JObj ms) →
  store_layout h m text → sources_ready h m text →
  outcome (unlinkLocalDependencies h o m) = Normal tt
  ∧ Forall (λ e, ∀ rel,
              state (unlinkLocalDependencies h o m)
                !! (dest_of (join (cwd h) "node_modules") e ++ rel)
              = materialised (cwd h) (join (cwd h) "node_modules") m e rel)
           (file_deps h text)
  ∧ (∀ q, Forall (λ d, ¬ d `prefix_of` q) (store_entries h text) →
          state (unlinkLocalDependencies h o m) !! q = m !! q).
Proof.
  intros Hn Hp (Hroot & Hrd & Hman & _ & Hap & Hst & _) Hsrc.
  apply real_dirs_ancestors in Hrd.
  assert (Hm : outcome (mergeDeps (JObj ms) ∅)
               = Normal (spread4 (group ms "dependencies") (group ms "devDependencies")
                           (group ms "peerDependencies")
                           (group ms "optionalDependencies"))) by reflexivity.
  assert (Hread : readFileSync m (join (cwd h) "package.json") = Done text).
  { rewrite join_plain by (done || apply plain_package_json).
    apply readFileSync_child; [by apply plain_components|done|done|done]. }
  rewrite (unlink_loaded h o m text _ _ Hread Hp Hm).
  unfold sources_ready, file_deps in *. unfold store_entries in *.
  rewrite Hp, Hm in *. rewrite Hn. cbn [default]. unfold unlinkEntries.
  set (l := List.filter (λ e : string * json, is_file_spec e.2) _) in *.
  destruct (materialise_loop h (default false (option_get "silent" o))
              (default false (option_get "dev" o)) (cwd h)
              (join (cwd h) "node_modules")
              (dest_of (join (cwd h) "node_modules") <$> l) l m)
    as (Ho & Hframe & Hmat); try done.
  { apply filter_file_specs. }
  { intros e He. apply list_elem_of_fmap. by exists e. }
  split_and!; [done| |].
  - apply Forall_forall. intros e He rel. by apply Hmat.
  - intros q Hq. apply Hframe. intros e He. rewrite Forall_forall in Hq.
    apply Hq. apply list_elem_of_fmap. by exists e.
Qed.

Lemma run_materialises_links_witness :
  store_layout local_host local_fs local_manifest_text
  ∧ sources_ready local_host local_fs local_manifest_text
  ∧ state (unlinkLocalDependencies local_host [("noInstall", true)] local_fs)
      !! (store ++ ["local-pkg"; "lib"; "helper.js"])
    = Some (File "exports.help = 2;").
Proof.
  assert (Hl : store_layout local_host local_fs local_manifest_text)
    by (apply (bool_decide_unpack _); vm_compute; exact I).
  assert (Hs : sources_ready local_host local_fs local_manifest_text)
    by (apply (bool_decide_unpack _); vm_compute; exact I).
  split; [exact Hl|]. split; [exact Hs|].
  destruct (run_materialises_links local_host [("noInstall", true)] local_fs
              local_manifest_text
              [("dependencies", JObj [("local-pkg", JStr "file:../local-package")])]
              eq_refl eq_refl Hl Hs) as (_ & Hmat & _).
  apply Forall_inv in Hmat. exact (Hmat ["lib"; "helper.js"]).
Defined.

(** ** The console *)

Lemma known_level_log msg silently : emits known_level (log msg "log" silently).
Proof. apply emits_log. cbn. set_solver. Qed.

Lemma known_level_warn msg silently : emits known_level (log msg "warn" silently).
Proof. apply emits_log. cbn. set_solver. Qed.

Lemma known_level_error msg silently : emits known_level (log msg "error" silently).
Proof. apply emits_log. cbn. set_solver. Qed.

Lemma known_level_install h dest dev silent :
  emits known_level (installDependencies h dest dev silent).
Proof.
  unfold installDependencies.
  apply emits_bind; [apply emits_query|]. intros hasPkg.
  destruct hasPkg; cbn [negb]; [|apply known_level_log].
  apply emits_bind; [apply emits_query|]. intros hasNm.
  destruct hasNm; [apply known_level_log|].
  apply emits_bind; [apply known_level_log|]. intros _.
  apply emits_bind; [by apply emits_spawn|]. intros status.
  destruct (negb _); [apply known_level_error|apply emits_ret].
Qed.

Lemma known_level_unlinkOne h silent noInstall dev root nm entry :
  emits known_level (unlinkOne h silent noInstall dev root nm entry).
Proof.
  destruct entry as [name v]. unfold unlinkOne.
  destruct v; try apply emits_throw.
  apply emits_bind; [apply emits_query|]. intros found.
  destruct found; cbn [negb]; [|apply known_level_warn].
  apply emits_bind; [apply emits_try_query|]. intros st.
  destruct (isSymbolicLink st); cbn [negb]; [|apply known_level_log].
  apply emits_bind; [apply known_level_log|]. intros _.
  apply emits_bind.
  { apply emits_bind; [by apply emits_emit|intros _; apply emits_update]. }
  intros _. apply emits_bind; [by apply emits_copy|]. intros _.
  destruct noInstall; cbn [negb]; [apply emits_ret|apply known_level_install].
Qed.

(** X18 (console levels).  Every line the script and the library write
    goes to [console.log], [console.warn] or [console.error]: [log] is never
    called with a level the console lacks. *)
Theorem console_levels_are_known (h : host) (args : list string) (m : fsmap) :
  Forall known_level (trace (main h args m)).
Proof.
  revert m. change (emits known_level (main h args)). unfold main.
  destruct (_ || _).
  - apply emits_bind; [apply known_level_log|]. intros _. apply emits_ret.
  - apply emits_try_catch.
    + apply emits_bind.
      { apply emits_unlink. intros. apply known_level_unlinkOne. }
      intros _. apply emits_bind; [apply known_level_log|].
      intros _. apply emits_ret.
    + intros e. apply emits_bind; [apply known_level_error|].
      intros _. apply emits_ret.
Qed.
